(** * podcast-manager: the download orchestration core

    A shallow embedding of the download engine
    ([core/download_engine.py]), the transfer executor
    ([services/download_service.py]), the file planner
    ([services/file_manager.py], [utils/validators.py]) and the retention
    sweep ([tasks/jobs.py]), with the properties of the specification
    stated and settled on it.

    Conventions of the embedding:
    - the three SQL tables are finite maps from the primary key to the row;
    - Python [int] is [Z]; Python [float] is read as an exact rational [Q]
      (the only float operations of the code are one division, two
      products by the constants 0.05 and 0.01, and comparisons);
    - the file system is a finite map from the paths of regular files to
      their content; directories are not part of it, and the [mkdir]
      calls of the code, which can raise, are left out: the properties
      are those of runs in which the directories could be made;
    - [datetime.utcnow()] reads a clock carried by the state;
    - code that raises returns [inl e] together with the state reached
      when the exception was raised. *)

From Stdlib Require Import ZArith QArith Qminmax String Ascii List Lia.
From Stdlib Require Import Permutation Sorted.
From stdpp Require Import gmap strings list fin_maps pretty.

Open Scope Z_scope.

(* ===================================================================== *)
(** * db/models.py *)
(* ===================================================================== *)

(** The five tokens of the [status] check constraint. *)
Inductive Status := pending | downloading | completed | failed | deleted.

Global Instance Status_eq_dec : EqDecision Status.
Proof. solve_decision. Defined.

Abbreviation datetime := Z.

Record Podcast := mkPodcast {
  podcast_pk : Z;
  podcast_title : string;
  download_path : option string;
  max_episodes_to_keep : Z;
  auto_download : bool
}.

Record Episode := mkEpisode {
  episode_pk : Z;
  podcast_id : Z;
  title : string;
  pub_date : option datetime;
  audio_url : string;
  episode_file_size : option Z;
  file_type : option string
}.

Record Download := mkDownload {
  id : Z;
  episode_id : Z;
  status : Status;
  file_path : option string;
  file_size : option Z;
  progress : Q;
  error_message : option string;
  retry_count : Z;
  started_at : option datetime;
  completed_at : option datetime;
  created_at : datetime;
  updated_at : datetime
}.

(** Attribute assignment on a row, one setter per column the code writes. *)
Definition set_status (v : Status) (d : Download) : Download :=
  mkDownload (id d) (episode_id d) v (file_path d) (file_size d) (progress d)
    (error_message d) (retry_count d) (started_at d) (completed_at d)
    (created_at d) (updated_at d).
Definition set_file_size (v : option Z) (d : Download) : Download :=
  mkDownload (id d) (episode_id d) (status d) (file_path d) v (progress d)
    (error_message d) (retry_count d) (started_at d) (completed_at d)
    (created_at d) (updated_at d).
Definition set_progress (v : Q) (d : Download) : Download :=
  mkDownload (id d) (episode_id d) (status d) (file_path d) (file_size d) v
    (error_message d) (retry_count d) (started_at d) (completed_at d)
    (created_at d) (updated_at d).
Definition set_error_message (v : option string) (d : Download) : Download :=
  mkDownload (id d) (episode_id d) (status d) (file_path d) (file_size d)
    (progress d) v (retry_count d) (started_at d) (completed_at d)
    (created_at d) (updated_at d).
Definition set_retry_count (v : Z) (d : Download) : Download :=
  mkDownload (id d) (episode_id d) (status d) (file_path d) (file_size d)
    (progress d) (error_message d) v (started_at d) (completed_at d)
    (created_at d) (updated_at d).
Definition set_started_at (v : option datetime) (d : Download) : Download :=
  mkDownload (id d) (episode_id d) (status d) (file_path d) (file_size d)
    (progress d) (error_message d) (retry_count d) v (completed_at d)
    (created_at d) (updated_at d).
Definition set_completed_at (v : option datetime) (d : Download) : Download :=
  mkDownload (id d) (episode_id d) (status d) (file_path d) (file_size d)
    (progress d) (error_message d) (retry_count d) (started_at d) v
    (created_at d) (updated_at d).
Definition set_updated_at (v : datetime) (d : Download) : Download :=
  mkDownload (id d) (episode_id d) (status d) (file_path d) (file_size d)
    (progress d) (error_message d) (retry_count d) (started_at d)
    (completed_at d) (created_at d) v.

(* ===================================================================== *)
(** * core/exceptions.py, and the exceptions of the collaborators *)
(* ===================================================================== *)

Inductive exn :=
| EpisodeNotFoundException (message : string)
| InsufficientStorageException (required_bytes available_bytes : Z)
| NoResultFound
| MultipleResultsFound
| FileNotFoundError (path : string)
| AttributeError
| HTTPError (message : string)
| OtherError (message : string).

(** [str(e)], as the two [except] clauses of the executor format it. *)
Definition exn_str (e : exn) : string :=
  match e with
  | EpisodeNotFoundException m => m
  | InsufficientStorageException _ _ => "Insufficient disk space"
  | NoResultFound => "No row was found when one was required"
  | MultipleResultsFound => "Multiple rows were found when exactly one was required"
  | FileNotFoundError p => "[Errno 2] No such file or directory: '" +:+ p +:+ "'"
  | AttributeError => "'NoneType' object has no attribute"
  | HTTPError m => m
  | OtherError m => m
  end.

Definition is_http_error (e : exn) : bool :=
  match e with HTTPError _ => true | _ => false end.

(* ===================================================================== *)
(** * The state the code runs on, and its monad *)
(* ===================================================================== *)

Abbreviation bytes := (list Byte.byte).

Record State := mkState {
  podcasts : gmap Z Podcast;
  episodes : gmap Z Episode;
  downloads : gmap Z Download;
  files : gmap string bytes;
  clock : nat -> datetime;
  ticks : nat
}.

Definition set_downloads (v : gmap Z Download) (s : State) : State :=
  mkState (podcasts s) (episodes s) v (files s) (clock s) (ticks s).
Definition set_files (v : gmap string bytes) (s : State) : State :=
  mkState (podcasts s) (episodes s) (downloads s) v (clock s) (ticks s).
Definition set_ticks (v : nat) (s : State) : State :=
  mkState (podcasts s) (episodes s) (downloads s) (files s) (clock s) v.

(** A computation returns a value or raises, and leaves a state either way. *)
Definition M (A : Type) : Type := State -> (exn + A) * State.

Global Instance M_ret : MRet M := fun A a s => (inr a, s).
Global Instance M_bind : MBind M := fun A B k m s =>
  match m s with
  | (inr a, s') => k a s'
  | (inl e, s') => (inl e, s')
  end.
Definition raise {A} (e : exn) : M A := fun s => (inl e, s).
(** [try: m except e: h e] *)
Definition try_except {A} (m : M A) (h : exn -> M A) : M A :=
  fun s => match m s with
           | (inr a, s') => (inr a, s')
           | (inl e, s') => h e s'
           end.
Definition get_state : M State := fun s => (inr s, s).
Definition modify (f : State -> State) : M unit := fun s => (inr tt, f s).

(** [datetime.utcnow()]: the next reading of the clock. *)
Definition tick (s : State) : State := set_ticks (S (ticks s)) s.
Definition utcnow : M datetime := fun s => (inr (clock s (ticks s)), tick s).

(** Query results: [scalar_one_or_none] and [scalar_one] on the rows a
    [select] matched. *)
Definition scalar_one_or_none {A} (rows : list A) : M (option A) :=
  match rows with
  | [] => mret None
  | [r] => mret (Some r)
  | _ => raise MultipleResultsFound
  end.
Definition scalar_one {A} (rows : list A) : M A :=
  match rows with
  | [] => raise NoResultFound
  | [r] => mret r
  | _ => raise MultipleResultsFound
  end.

(** [select(T).where(T.id == k)]: the primary key selects at most one row. *)
Definition select_by_pk {A} (table : gmap Z A) (k : Z) : list A :=
  match table !! k with Some r => [r] | None => [] end.

(** [select(Download).where(Download.episode_id == e)] *)
Definition select_downloads_by_episode (s : State) (e : Z) : list Download :=
  filter (fun d => episode_id d = e) (snd <$> map_to_list (downloads s)).

(** The session writes a row back under its primary key on commit. *)
Definition put_download (d : Download) (s : State) : State :=
  set_downloads (<[id d := d]> (downloads s)) s.
Definition commit_download (d : Download) : M unit := modify (put_download d).

(* ===================================================================== *)
(** * Python arithmetic the code relies on *)
(* ===================================================================== *)

(** [a / b] on two [int]s: true division. *)
Definition py_div (a b : Z) : Q := Qred (inject_Z a / inject_Z b).

(** [max(a, b)] and [min(a, b)] return their first argument unless the
    second is strictly greater, respectively strictly smaller. *)
Definition py_max (a b : Q) : Q := if Qle_bool b a then a else b.
Definition py_min (a b : Q) : Q := if Qle_bool a b then a else b.

(** [x > y] and [x >= y] between numbers. *)
Definition Qgt_bool (x y : Q) : bool := negb (Qle_bool x y).
Definition Qge_bool (x y : Q) : bool := Qle_bool y x.

(** [x < y] between numbers. *)
Definition Qlt_bool (x y : Q) : bool := negb (Qle_bool y x).

(** [int(x)] on a number: truncation toward zero. *)
Definition py_int (x : Q) : Z := Z.quot (Qnum x) (Z.pos (Qden x)).

(** [needle in haystack] on strings. *)
Fixpoint str_contains (needle haystack : string) : bool :=
  String.prefix needle haystack ||
  match haystack with
  | EmptyString => false
  | String _ rest => str_contains needle rest
  end.

(** [str.lower()], on the ASCII letters. *)
Definition ascii_lower (c : ascii) : ascii :=
  let n := N_of_ascii c in
  if ((65 <=? n) && (n <=? 90))%N then ascii_of_N (n + 32) else c.
Fixpoint str_lower (s : string) : string :=
  match s with
  | EmptyString => EmptyString
  | String c rest => String (ascii_lower c) (str_lower rest)
  end.

(** Truthiness of an optional integer and of an optional string. *)
Definition truthy_int (v : option Z) : bool :=
  match v with Some n => negb (n =? 0) | None => false end.
Definition truthy_str (v : option string) : bool :=
  match v with Some EmptyString => false | Some _ => true | None => false end.

(* ===================================================================== *)
(** * The file system and the network, as the executor sees them *)
(* ===================================================================== *)

Inductive OpenMode := ab | wb.

(** [path.stat().st_size] *)
Definition stat_size (path : string) : M Z :=
  s ← get_state;
  match files s !! path with
  | Some content => mret (Z.of_nat (length content))
  | None => raise (FileNotFoundError path)
  end.

(** [aiofiles.open(path, mode)]: ["wb"] truncates, ["ab"] keeps the content;
    both create the file when it is absent. *)
Definition open_file (path : string) (mode : OpenMode) : M unit :=
  modify (fun s =>
    match mode, files s !! path with
    | ab, Some _ => s
    | _, _ => set_files (<[path := []]> (files s)) s
    end).

(** [f.write(chunk)] on a file opened in either mode appends at the end. *)
Definition write_chunk (path : string) (chunk : bytes) : M unit :=
  modify (fun s =>
    set_files (<[path := default [] (files s !! path) ++ chunk]> (files s)) s).

Record Request := mkRequest {
  req_url : string;
  req_headers : list (string * string)
}.

Record Response := mkResponse {
  status_code : Z;
  reason_phrase : string;
  content_length : option Z;
  content_type : option string;
  chunks : list bytes;
  stream_error : option exn
}.

(** What the transport answers: to the HEAD probe the final URL after
    redirects, to the streamed GET a response, or an exception. *)
Record Network := mkNetwork {
  head_final_url : string -> exn + string;
  stream_get : Request -> exn + Response
}.

(* ===================================================================== *)
(** * services/download_service.py *)
(* ===================================================================== *)

Module DownloadService.

Definition signature_indicators : list string :=
  ["Signature="; "Expires="; "Key-Pair-Id="; "Policy="; "signature=";
   "expires="; "token="; "auth="; "hmac="]%string.

Definition tracking_services : list string :=
  ["podtrac.com"; "mgln.ai"; "chartable.com"; "podsights.com"; "podcorn.com";
   "blubrry.com"; "feedpress.com"; "backtracks.fm"; "claritas.com";
   "podscribe.com"; "spotify-analytics"; "art19.com"; "megaphone.fm";
   "simplecast.com"]%string.

Definition _is_signed_url (url : string) : bool :=
  if existsb (fun indicator => str_contains indicator url) signature_indicators
  then true
  else if existsb (fun service => str_contains service (str_lower url))
                  tracking_services
  then true
  else false.

Definition _resolve_url (net : Network) (url : string) : string :=
  match head_final_url net url with
  | inr final_url => final_url
  | inl _ => url
  end.

Definition _update_status (download : Download) (new_status : Status)
    (started : option datetime) : M unit :=
  s ← get_state;
  db_download ← scalar_one (select_by_pk (downloads s) (id download));
  let db_download := set_status new_status db_download in
  let db_download :=
    match started with
    | Some t => set_started_at (Some t) db_download
    | None => db_download
    end in
  now ← utcnow;
  commit_download (set_updated_at now db_download).

Definition _update_progress (download : Download) (p : Q) : M unit :=
  s ← get_state;
  db_download ← scalar_one (select_by_pk (downloads s) (id download));
  let db_download := set_progress (py_min 1 (py_max 0 p)) db_download in
  now ← utcnow;
  commit_download (set_updated_at now db_download).

Definition _mark_complete (download : Download) (path : string) : M bool :=
  size ← stat_size path;
  s ← get_state;
  db_download ← scalar_one (select_by_pk (downloads s) (id download));
  let db_download := set_status completed db_download in
  let db_download := set_progress 1 db_download in
  let db_download := set_file_size (Some size) db_download in
  t1 ← utcnow;
  let db_download := set_completed_at (Some t1) db_download in
  t2 ← utcnow;
  let db_download := set_updated_at t2 db_download in
  let db_download := set_error_message None db_download in
  commit_download db_download;;
  mret true.

Definition _mark_failed (download : Download) (message : string) : M bool :=
  s ← get_state;
  db_download ← scalar_one (select_by_pk (downloads s) (id download));
  let db_download := set_status failed db_download in
  let db_download := set_error_message (Some message) db_download in
  let db_download := set_retry_count (retry_count db_download + 1) db_download in
  now ← utcnow;
  commit_download (set_updated_at now db_download);;
  mret false.

Definition browser_agent : string :=
  "Mozilla/5.0 (Macintosh; Intel Mac OS X 10_15_7) AppleWebKit/537.36 (KHTML, like Gecko) Chrome/120.0.0.0 Safari/537.36".
Definition podcast_agent : string :=
  "Overcast/1.0 Podcast Sync (1 subscribers; feed-id=12345)".

(** The request headers: the agent profile, and [Range] when resuming. *)
Definition request_headers (is_signed : bool) (resume_position : Z)
    : list (string * string) :=
  let headers :=
    if is_signed
    then [("User-Agent", podcast_agent)]
    else [("User-Agent", browser_agent);
          ("Accept", "*/*");
          ("Accept-Encoding", "gzip, deflate, br");
          ("Accept-Language", "en-US,en;q=0.9")]%string in
  if 0 <? resume_position
  then headers ++ [("Range"%string, "bytes=" +:+ pretty resume_position +:+ "-")]
  else headers.

(** [client.stream('GET', final_url, headers=headers)] *)
Definition client_stream (net : Network) (url : string)
    (headers : list (string * string)) : M Response :=
  match stream_get net (mkRequest url headers) with
  | inr response => mret response
  | inl e => raise e
  end.

(** [total_size]: the content length, plus the offset on a 206. *)
Definition expected_total_size (response : Response) (resume_position : Z) : Z :=
  let total_size := default 0 (content_length response) in
  if status_code response =? 206 then total_size + resume_position
  else total_size.

Definition progress_update_threshold (total_size : Z) : Q :=
  py_max (inject_Z total_size * (5 # 100)) (inject_Z (5 * 1024 * 1024)).

Definition open_mode (resume_position : Z) : OpenMode :=
  if 0 <? resume_position then ab else wb.

(** The body of [async for chunk in response.aiter_bytes(...)], carrying
    [downloaded_bytes] and [last_progress_update]. *)
Fixpoint stream_loop (download_record : Download) (path : string)
    (total_size : Z) (body : list bytes)
    (downloaded_bytes last_progress_update : Z) : M (Z * Z) :=
  match body with
  | [] => mret (downloaded_bytes, last_progress_update)
  | chunk :: rest =>
      write_chunk path chunk;;
      let downloaded_bytes := downloaded_bytes + Z.of_nat (length chunk) in
      if 0 <? total_size then
        let bytes_since_update := downloaded_bytes - last_progress_update in
        if Qge_bool (inject_Z bytes_since_update)
                    (progress_update_threshold total_size)
        then
          _update_progress download_record (py_div downloaded_bytes total_size);;
          stream_loop download_record path total_size rest
                      downloaded_bytes downloaded_bytes
        else stream_loop download_record path total_size rest
                         downloaded_bytes last_progress_update
      else stream_loop download_record path total_size rest
                       downloaded_bytes last_progress_update
  end.

Definition size_mismatch_message (total_size actual_size : Z) : string :=
  "Size mismatch: expected " +:+ pretty total_size +:+ ", got "
    +:+ pretty actual_size.

(** [abs(actual_size - total_size) > total_size * 0.01], the product read
    as the exact hundredth: the float product decides the comparison
    alike for sizes below 2^52 bytes. *)
Definition beyond_tolerance (total_size actual_size : Z) : bool :=
  Qgt_bool (inject_Z (Z.abs (actual_size - total_size)))
           (inject_Z total_size * (1 # 100)).

(** "Verify file size" and what follows it. *)
Definition verify_and_finish (download_record : Download) (path : string)
    (total_size : Z) : M bool :=
  actual_size ← stat_size path;
  if (0 <? total_size) && negb (actual_size =? total_size)
     && beyond_tolerance total_size actual_size
  then _mark_failed download_record
         (size_mismatch_message total_size actual_size)
  else _mark_complete download_record path.

(** The resume offset: the size of what is already at the destination. *)
Definition resume_offset (s : State) (path : string) : Z :=
  match files s !! path with
  | Some content => Z.of_nat (length content)
  | None => 0
  end.

(** The part of [download_episode] under [try]. *)
Definition transfer (net : Network) (final_url : string) (is_signed : bool)
    (resume_position : Z) (path : string) (download_record : Download)
    : M bool :=
  response ← client_stream net final_url
               (request_headers is_signed resume_position);
  if status_code response =? 416 then
    _mark_complete download_record path
  else if negb ((status_code response =? 200) || (status_code response =? 206))
  then
    _mark_failed download_record
      ("HTTP " +:+ pretty (status_code response) +:+ ": "
         +:+ reason_phrase response)
  else
    let total_size := expected_total_size response resume_position in
    started ← utcnow;
    _update_status download_record downloading (Some started);;
    open_file path (open_mode resume_position);;
    '(downloaded_bytes, last_progress_update) ←
      stream_loop download_record path total_size (chunks response)
                  resume_position 0;
    match stream_error response with
    | Some e => raise e
    | None =>
        (if (0 <? total_size) && (last_progress_update <? downloaded_bytes)
         then _update_progress download_record
                (py_div downloaded_bytes total_size)
         else mret tt);;
        verify_and_finish download_record path total_size
    end.

(** [download_episode], from the point where the directory of the
    destination is there: [file_path.parent.mkdir(parents=True,
    exist_ok=True)] comes first in the code, outside its [try], and what
    it raises goes to the caller.  Directories are not part of [State];
    the runs below are those of a destination whose directory could be
    made. *)
Definition download_episode (net : Network) (episode : Episode)
    (path : string) (download_record : Download) : M bool :=
  s ← get_state;
  let resume_position := resume_offset s path in
  let is_signed := _is_signed_url (audio_url episode) in
  let final_url :=
    if is_signed then audio_url episode
    else _resolve_url net (audio_url episode) in
  try_except
    (transfer net final_url is_signed resume_position path download_record)
    (fun e =>
       if is_http_error e
       then _mark_failed download_record ("Network error: " +:+ exn_str e)
       else _mark_failed download_record ("Unexpected error: " +:+ exn_str e)).

End DownloadService.

(* ===================================================================== *)
(** * pathlib, as far as the code uses it *)
(* ===================================================================== *)

Module Pathlib.

(** A pure POSIX path: whether it is rooted, and its components. *)
Record Path := mkPath { is_absolute : bool; parts : list string }.

Global Instance Path_eq_dec : EqDecision Path.
Proof. solve_decision. Defined.

Fixpoint split_on (sep : ascii) (s : string) : list string :=
  match s with
  | EmptyString => [EmptyString]
  | String c rest =>
      if Ascii.eqb c sep then EmptyString :: split_on sep rest
      else match split_on sep rest with
           | h :: t => String c h :: t
           | [] => [String c EmptyString]
           end
  end.

(** [Path(s)]: empty and ["."] components are dropped, [".."] is kept. *)
Definition of_string (s : string) : Path :=
  mkPath (String.prefix "/" s)
         (filter (fun c => c <> EmptyString /\ c <> "."%string)
                 (split_on "/" s)).

(** [a / b]: a rooted right operand replaces the left one. *)
Definition join (a b : Path) : Path :=
  if is_absolute b then b
  else mkPath (is_absolute a) (parts a ++ parts b).

(** [p.parents]: the proper ancestors, nearest first. *)
Definition parents (p : Path) : list Path :=
  (fun n => mkPath (is_absolute p) (take n (parts p)))
    <$> rev (seq 0 (length (parts p))).

Fixpoint join_parts (ps : list string) : string :=
  match ps with
  | [] => EmptyString
  | [p] => p
  | p :: rest => p +:+ "/" +:+ join_parts rest
  end.

(** [str(p)] *)
Definition to_string (p : Path) : string :=
  match is_absolute p, parts p with
  | true, ps => "/" +:+ join_parts ps
  | false, [] => "."
  | false, ps => join_parts ps
  end.

(** [p.resolve()] on a file system without symbolic links: the path is
    made absolute from the working directory and its [".."] components
    are collapsed ([".."] at the root stays at the root). *)
Fixpoint collapse (done_rev : list string) (todo : list string) : list string :=
  match todo with
  | [] => rev done_rev
  | p :: rest =>
      if String.eqb p ".." then collapse (tail done_rev) rest
      else collapse (p :: done_rev) rest
  end.

Definition resolve_lexical (cwd : list string) (p : Path) : option Path :=
  Some (mkPath true
          (collapse [] (if is_absolute p then parts p else cwd ++ parts p))).

End Pathlib.

(* ===================================================================== *)
(** * utils/validators.py *)
(* ===================================================================== *)

Module Validators.
Import Pathlib.

(** [validate_download_path].  [resolve] is [Path.resolve] of the file
    system at hand; [None] stands for the call raising, which the
    [except Exception] turns into the result [None]. *)
Definition validate_download_path (resolve : Path -> option Path)
    (base_path : Path) (relative_path : string) : option Path :=
  match resolve (join base_path (of_string relative_path)) with
  | None => None
  | Some full_path =>
      match resolve base_path with
      | None => None
      | Some base_resolved =>
          if bool_decide (base_resolved ∈ parents full_path)
             || bool_decide (full_path = base_resolved)
          then Some full_path
          else None
      end
  end.

Definition is_invalid_char (c : ascii) : bool :=
  existsb (Ascii.eqb c)
    ["<"%char; ">"%char; ":"%char; ascii_of_N 34; "/"%char; "\"%char;
     "|"%char; "?"%char; "*"%char].

(** [\s] on the characters below 128: the blank, tab to carriage return,
    and the four separators 28 to 31. *)
Definition is_space (c : ascii) : bool :=
  existsb (Ascii.eqb c)
    [" "%char; ascii_of_N 9; ascii_of_N 10; ascii_of_N 11; ascii_of_N 12;
     ascii_of_N 13; ascii_of_N 28; ascii_of_N 29; ascii_of_N 30;
     ascii_of_N 31].

Fixpoint map_chars (f : ascii -> ascii) (s : string) : string :=
  match s with
  | EmptyString => EmptyString
  | String c rest => String (f c) (map_chars f rest)
  end.

Fixpoint lstrip (drop : ascii -> bool) (s : string) : string :=
  match s with
  | EmptyString => EmptyString
  | String c rest => if drop c then lstrip drop rest else s
  end.

Fixpoint rstrip (drop : ascii -> bool) (s : string) : string :=
  match s with
  | EmptyString => EmptyString
  | String c rest =>
      match rstrip drop rest with
      | EmptyString => if drop c then EmptyString else String c EmptyString
      | kept => String c kept
      end
  end.

(** [re.sub(r"[-\s]+", "-", s)]: every run of hyphens and spaces becomes
    one hyphen. *)
Fixpoint collapse_runs (in_run : bool) (s : string) : string :=
  match s with
  | EmptyString => EmptyString
  | String c rest =>
      if Ascii.eqb c "-" || is_space c
      then if in_run then collapse_runs true rest
           else String "-" (collapse_runs true rest)
      else String c (collapse_runs false rest)
  end.

Definition sanitize_folder_name (folder_name : string) : string :=
  let safe_name :=
    map_chars (fun c => if is_invalid_char c then "-"%char else c) folder_name in
  let strip_char c := Ascii.eqb c "." || Ascii.eqb c " " in
  let safe_name := rstrip strip_char (lstrip strip_char safe_name) in
  let safe_name := collapse_runs false safe_name in
  match safe_name with
  | EmptyString => "unnamed"
  | _ => safe_name
  end.

Definition content_type_map : list (string * string) :=
  [("audio/mpeg", "mp3"); ("audio/mp3", "mp3"); ("audio/mp4", "m4a");
   ("audio/m4a", "m4a"); ("audio/x-m4a", "m4a"); ("audio/aac", "aac");
   ("audio/ogg", "ogg"); ("audio/wav", "wav"); ("audio/webm", "webm")]%string.

Fixpoint assoc_get (k : string) (l : list (string * string)) (dflt : string)
    : string :=
  match l with
  | [] => dflt
  | (k', v) :: rest => if String.eqb k k' then v else assoc_get k rest dflt
  end.

(** [validate_episode_limit] *)
Definition validate_episode_limit (limit : Z) : Z :=
  Z.max 1 (Z.min 100 limit).

(** [extract_file_extension]; [url_suffix] is
    [Path(urlparse(url).path).suffix.lstrip(".")] of the standard library. *)
Definition extract_file_extension (url_suffix : string -> string)
    (url : string) (mime : option string) : string :=
  match url_suffix url with
  | String c ext => str_lower (String c ext)
  | EmptyString =>
      if truthy_str mime
      then assoc_get (str_lower (default EmptyString mime)) content_type_map "mp3"
      else "mp3"
  end.

(** [sanitize_filename]; [slugify] is the function of the [slugify]
    package, called with [max_length]. *)
Definition sanitize_filename (slugify : string -> Z -> string)
    (filename : string) (max_length : Z) : string :=
  match slugify filename max_length with
  | EmptyString => "unnamed"
  | safe_name => safe_name
  end.

End Validators.

(* ===================================================================== *)
(** * services/file_manager.py *)
(* ===================================================================== *)

Module FileManager.
Import Pathlib.

(** The file manager: its base path, and the library functions and the
    file system it calls: the free space, [Path.resolve], and whether
    [Path.unlink] raises for a path (a file that may not be removed). *)
Record t := mk {
  base_path : Path;
  disk_free : Z;
  slugify : string -> Z -> string;
  url_suffix : string -> string;
  strftime_ymd : datetime -> string;
  resolve : Path -> option Path;
  unlink_fails : string -> bool
}.

(** [get_podcast_directory]: the path it returns.  It also makes the
    directory ([podcast_dir.mkdir(parents=True, exist_ok=True)]), and
    does not return when that raises; directories are not part of
    [State]. *)
Definition get_podcast_directory (fm : t) (podcast : Podcast) : Path :=
  let folder_name :=
    if truthy_str (download_path podcast)
    then default EmptyString (download_path podcast)
    else Validators.sanitize_folder_name (podcast_title podcast) in
  join (base_path fm) (of_string folder_name).

Definition generate_episode_filename (fm : t) (episode : Episode)
    (podcast : Podcast) : M string :=
  date_str ←
    match pub_date episode with
    | Some d => mret (strftime_ymd fm d)
    | None => now ← utcnow; mret (strftime_ymd fm now)
    end;
  let title_part := Validators.sanitize_filename (slugify fm) (title episode) 150 in
  let extension :=
    Validators.extract_file_extension (url_suffix fm) (audio_url episode)
      (file_type episode) in
  mret (date_str +:+ "-" +:+ title_part +:+ "." +:+ extension).

(** [full_path.relative_to(base_path)] *)
Definition relative_to (p base : Path) : option Path :=
  if bool_decide (is_absolute p = is_absolute base
                  /\ take (length (parts base)) (parts p) = parts base)
  then Some (mkPath false (drop (length (parts base)) (parts p)))
  else None.

Definition get_episode_file_path (fm : t) (episode : Episode)
    (podcast : Podcast) : M (Path * string) :=
  let podcast_dir := get_podcast_directory fm podcast in
  filename ← generate_episode_filename fm episode podcast;
  let full_path := join podcast_dir (of_string filename) in
  match relative_to full_path (base_path fm) with
  | Some relative_path => mret (full_path, to_string relative_path)
  | None => raise (OtherError "is not in the subpath of the base path")
  end.

Definition validate_path (fm : t) (relative_path : string) : option Path :=
  Validators.validate_download_path (resolve fm) (base_path fm) relative_path.

Definition get_available_space (fm : t) : M Z :=
  mret (disk_free fm).

Definition has_enough_space (fm : t) (required_bytes : Z) (buffer_gb : Q)
    : M bool :=
  available ← get_available_space fm;
  let buffer_bytes := py_int (buffer_gb * 1024 * 1024 * 1024)%Q in
  let required_with_buffer := required_bytes + buffer_bytes in
  mret (available >=? required_with_buffer).

Definition get_file_size (path : Path) : M (option Z) :=
  s ← get_state;
  mret ((fun content : bytes => Z.of_nat (length content))
          <$> files s !! to_string path).

(** [path.unlink()] *)
Definition unlink (fm : t) (path : Path) : M unit :=
  if unlink_fails fm (to_string path)
  then raise (OtherError "unlink")
  else modify (fun s => set_files (delete (to_string path) (files s)) s).

(** [delete_file]: whatever is raised under its [try] ends in the
    [except], which answers False. *)
Definition delete_file (fm : t) (path : Path) : M bool :=
  try_except
    (s ← get_state;
     match files s !! to_string path with
     | Some _ => unlink fm path;; mret true
     | None => mret false
     end)
    (fun e => mret false).

End FileManager.

(* ===================================================================== *)
(** * core/download_engine.py *)
(* ===================================================================== *)

Module DownloadEngine.
Import Pathlib.

(** [int(1.0 * 1024 * 1024 * 1024)] *)
Definition buffer_bytes : Z := 1024 * 1024 * 1024.

(** The key an autoincrement primary key gives the next row. *)
Definition next_pk {A} (table : gmap Z A) : Z :=
  foldr Z.max 0 (fst <$> map_to_list table) + 1.

(** [episode.podcast] *)
Definition episode_podcast (episode : Episode) : M Podcast :=
  s ← get_state;
  match podcasts s !! podcast_id episode with
  | Some podcast => mret podcast
  | None => raise AttributeError
  end.

(** [session.add(Download(...)); session.commit()] *)
Definition add_download (episode_id : Z) (relative_path : string) : M Download :=
  s ← get_state;
  created ← utcnow;
  updated ← utcnow;
  let download :=
    mkDownload (next_pk (downloads s)) episode_id pending (Some relative_path)
      None 0 None 0 None None created updated in
  commit_download download;;
  mret download.

Definition queue_episode_download (fm : FileManager.t) (episode_id : Z)
    : M Download :=
  s ← get_state;
  episode ← scalar_one_or_none (select_by_pk (episodes s) episode_id);
  match episode with
  | None =>
      raise (EpisodeNotFoundException
               ("Episode with ID " +:+ pretty episode_id +:+ " not found"))
  | Some episode =>
      existing ← scalar_one_or_none (select_downloads_by_episode s episode_id);
      match existing with
      | Some existing =>
          match status existing with
          | completed => mret existing
          | pending | downloading => mret existing
          | failed | deleted =>
              let existing := set_status pending existing in
              let existing := set_progress 0 existing in
              now ← utcnow;
              let existing := set_updated_at now existing in
              commit_download existing;;
              mret existing
          end
      | None =>
          podcast ← episode_podcast episode;
          '(full_path, relative_path) ←
            FileManager.get_episode_file_path fm episode podcast;
          (if truthy_int (episode_file_size episode) then
             available_space ← FileManager.get_available_space fm;
             let required_with_buffer :=
               default 0 (episode_file_size episode) + buffer_bytes in
             if available_space <? required_with_buffer
             then raise (InsufficientStorageException
                           required_with_buffer available_space)
             else mret tt
           else mret tt);;
          add_download episode_id relative_path
      end
  end.

(** [download_episode] of the engine, inside its semaphore slot. *)
Definition download_episode (fm : FileManager.t) (net : Network)
    (download_id : Z) : M bool :=
  s ← get_state;
  download ← scalar_one_or_none (select_by_pk (downloads s) download_id);
  match download with
  | None => mret false
  | Some download =>
      match episodes s !! episode_id download with
      | None => raise AttributeError
      | Some episode =>
          podcast ← episode_podcast episode;
          match file_path download with
          | None => raise (OtherError "unsupported operand type(s) for /")
          | Some relative_path =>
              let full_path :=
                join (FileManager.base_path fm) (of_string relative_path) in
              DownloadService.download_episode net episode
                (to_string full_path) download
          end
      end
  end.

(** The rows [retry_failed_downloads] selects, and its reset of them
    (what it does before it hands over to the queue). *)
Fixpoint insert_by {A} (le : A -> A -> bool) (x : A) (l : list A) : list A :=
  match l with
  | [] => [x]
  | y :: rest => if le x y then x :: l else y :: insert_by le x rest
  end.
Definition sort_by {A} (le : A -> A -> bool) (l : list A) : list A :=
  foldr (insert_by le) [] l.

Definition select_failed (max_retries : Z) (s : State) : list Download :=
  sort_by (fun a b => updated_at a <=? updated_at b)
    (filter (fun d => status d = failed /\ retry_count d < max_retries)
            (snd <$> map_to_list (downloads s))).

Fixpoint reset_each (rows : list Download) : M unit :=
  match rows with
  | [] => mret tt
  | download :: rest =>
      let download := set_status pending download in
      let download := set_progress 0 download in
      let download := set_error_message None download in
      now ← utcnow;
      let download := set_updated_at now download in
      commit_download download;;
      reset_each rest
  end.

Definition reset_failed_downloads (max_retries : Z) : M Z :=
  s ← get_state;
  let failed_rows := select_failed max_retries s in
  match failed_rows with
  | [] => mret 0
  | _ =>
      reset_each failed_rows;;
      mret (Z.of_nat (length failed_rows))
  end.

Definition cancel_download (download_id : Z) : M bool :=
  s ← get_state;
  download ← scalar_one_or_none (select_by_pk (downloads s) download_id);
  match download with
  | None => mret false
  | Some download =>
      if bool_decide (status download = completed) then mret false
      else
        let download := set_status deleted download in
        now ← utcnow;
        let download := set_updated_at now download in
        commit_download download;;
        mret true
  end.

Definition delete_download (fm : FileManager.t) (download_id : Z)
    (delete_file : bool) : M bool :=
  s ← get_state;
  download ← scalar_one_or_none (select_by_pk (downloads s) download_id);
  match download with
  | None => mret false
  | Some download =>
      (if delete_file && truthy_str (file_path download) then
         FileManager.delete_file fm
           (join (FileManager.base_path fm)
                 (of_string (default EmptyString (file_path download))));;
         mret tt
       else mret tt);;
      modify (fun s => set_downloads (delete (id download) (downloads s)) s);;
      mret true
  end.

End DownloadEngine.

(* ===================================================================== *)
(** * tasks/jobs.py: the retention sweep *)
(* ===================================================================== *)

Module Jobs.
Import Pathlib.

(** The consumption oracle, when one is configured:
    [plex_service.is_episode_played] on a path. *)
Definition PlexService := string -> bool.

(** [ORDER BY pub_date DESC]: a missing date sorts below every date. *)
Definition pub_date_ge (a b : option datetime) : bool :=
  match a, b with
  | _, None => true
  | None, Some _ => false
  | Some x, Some y => y <=? x
  end.

(** [select(Download, Episode).join(Episode)
      .where(Episode.podcast_id == podcast.id)
      .where(Download.status == "completed")
      .order_by(Episode.pub_date.desc())] *)
Definition joined_row (s : State) (podcast : Podcast) (d : Download)
    : option (Download * Episode) :=
  match episodes s !! episode_id d with
  | Some e =>
      if bool_decide (podcast_id e = podcast_pk podcast /\ status d = completed)
      then Some (d, e) else None
  | None => None
  end.

Definition completed_downloads (s : State) (podcast : Podcast)
    : list (Download * Episode) :=
  DownloadEngine.sort_by
    (fun a b => pub_date_ge (pub_date (snd a)) (pub_date (snd b)))
    (omap (joined_row s podcast) (snd <$> map_to_list (downloads s))).

Record Totals := mkTotals {
  total_deleted : Z;
  total_kept_unplayed : Z;
  total_space_freed : Z
}.

(** "Determine which episodes to delete": the loop over
    [enumerate(downloads_with_episodes)], from index [i]. *)
Fixpoint select_to_delete (fm : FileManager.t) (plex_service : option PlexService)
    (keep : Z) (i : Z) (rows : list (Download * Episode))
    : list (Download * Episode) * Z :=
  match rows with
  | [] => ([], 0)
  | (download, episode) :: rest =>
      let '(to_delete, kept) :=
        select_to_delete fm plex_service keep (i + 1) rest in
      if i <? keep then (to_delete, kept)
      else
        match plex_service, truthy_str (file_path download) with
        | Some is_episode_played, true =>
            let full_path :=
              to_string (join (FileManager.base_path fm)
                           (of_string (default EmptyString (file_path download)))) in
            if is_episode_played full_path
            then ((download, episode) :: to_delete, kept)
            else (to_delete, kept + 1)
        | _, _ => ((download, episode) :: to_delete, kept)
        end
  end.

(** The deletion loop, carrying the totals. *)
Fixpoint delete_all (fm : FileManager.t) (to_delete : list (Download * Episode))
    (totals : Totals) : M Totals :=
  match to_delete with
  | [] => mret totals
  | (download, episode) :: rest =>
      freed ←
        (if truthy_str (file_path download) then
           let full_path :=
             join (FileManager.base_path fm)
                  (of_string (default EmptyString (file_path download))) in
           size ← FileManager.get_file_size full_path;
           FileManager.delete_file fm full_path;;
           mret (if truthy_int size then default 0 size else 0)
         else mret 0);
      modify (fun s => set_downloads (delete (id download) (downloads s)) s);;
      delete_all fm rest
        (mkTotals (total_deleted totals + 1) (total_kept_unplayed totals)
                  (total_space_freed totals + freed))
  end.

(** The body of [for podcast in podcasts]. *)
Definition cleanup_podcast (fm : FileManager.t)
    (plex_service : option PlexService) (podcast : Podcast) (totals : Totals)
    : M Totals :=
  s ← get_state;
  let downloads_with_episodes := completed_downloads s podcast in
  let '(to_delete, kept) :=
    select_to_delete fm plex_service (max_episodes_to_keep podcast) 0
      downloads_with_episodes in
  delete_all fm to_delete
    (mkTotals (total_deleted totals) (total_kept_unplayed totals + kept)
              (total_space_freed totals)).

Fixpoint cleanup_each (fm : FileManager.t) (plex_service : option PlexService)
    (all : list Podcast) (totals : Totals) : M Totals :=
  match all with
  | [] => mret totals
  | podcast :: rest =>
      totals ← cleanup_podcast fm plex_service podcast totals;
      cleanup_each fm plex_service rest totals
  end.

(** [cleanup_old_episodes_job], once the oracle has been set up. *)
Definition cleanup_old_episodes_job (fm : FileManager.t)
    (plex_service : option PlexService) : M Totals :=
  s ← get_state;
  cleanup_each fm plex_service (snd <$> map_to_list (podcasts s))
    (mkTotals 0 0 0).

(** [refresh_all_podcasts_job]: what it does for a podcast it has
    refreshed, from the recent episodes its query returned (the newest
    [max_episodes_to_keep] of the podcast).  The counters it keeps for its
    log message are left out. *)

(** [select(Download).where(Download.episode_id == episode.id)
      .where(Download.status.in_(["completed", "downloading", "pending"]))] *)
Definition select_live_downloads (s : State) (episode_id' : Z) : list Download :=
  filter (fun d => episode_id d = episode_id'
                   /\ status d ∈ [completed; downloading; pending])
         (snd <$> map_to_list (downloads s)).

(** "Only queue episodes that don't have a completed or pending download" *)
Fixpoint episodes_to_queue (recent_episodes : list Episode) : M (list Episode) :=
  match recent_episodes with
  | [] => mret []
  | episode :: rest =>
      s ← get_state;
      existing_download ←
        scalar_one_or_none (select_live_downloads s (episode_pk episode));
      to_queue ← episodes_to_queue rest;
      mret (match existing_download with
            | Some _ => to_queue
            | None => episode :: to_queue
            end)
  end.

(** [for episode in episodes_to_queue], with its two [except] clauses. *)
Fixpoint queue_each (fm : FileManager.t) (to_queue : list Episode) : M unit :=
  match to_queue with
  | [] => mret tt
  | episode :: rest =>
      try_except
        (DownloadEngine.queue_episode_download fm (episode_pk episode);;
         mret tt)
        (fun e =>
           match e with
           | InsufficientStorageException _ _ => mret tt
           | EpisodeNotFoundException _ => mret tt
           | _ => raise e
           end);;
      queue_each fm rest
  end.

Definition queue_recent_episodes (fm : FileManager.t) (podcast : Podcast)
    (recent_episodes : list Episode) : M unit :=
  if auto_download podcast then
    to_queue ← episodes_to_queue recent_episodes;
    queue_each fm to_queue
  else mret tt.

(** [check_disk_space_job]: what it reports about the free space, none
    from 10 GB on; [check_failed] is the message of its [except]. *)
Inductive DiskMessage :=
  critical_space | low_space_warning | low_space_info | check_failed.

Definition check_disk_space_job (fm : FileManager.t) : M (option DiskMessage) :=
  try_except
    (available ← FileManager.get_available_space fm;
     let available_gb := py_div available (1024 ^ 3) in
     if Qlt_bool available_gb 1 then mret (Some critical_space)
     else if Qlt_bool available_gb 5 then mret (Some low_space_warning)
     else if Qlt_bool available_gb 10 then mret (Some low_space_info)
     else mret None)
    (fun e => mret (Some check_failed)).

End Jobs.

(* ===================================================================== *)
(** * Well-formed tables, and the states the examples run on *)
(* ===================================================================== *)

(** The outcome of a run: the postcondition [Q] on a returned value, [E]
    on a raised exception, both on the state the run leaves. *)
Definition wp {A} (m : M A) (Q : A -> State -> Prop) (E : exn -> State -> Prop)
    (s : State) : Prop :=
  match m s with
  | (inr a, s') => Q a s'
  | (inl e, s') => E e s'
  end.

(** The request a transfer of the episode sends when [rp] bytes are
    already at the destination. *)
Definition request_of (net : Network) (episode : Episode) (rp : Z) : Request :=
  let is_signed := DownloadService._is_signed_url (audio_url episode) in
  mkRequest
    (if is_signed then audio_url episode
     else DownloadService._resolve_url net (audio_url episode))
    (DownloadService.request_headers is_signed rp).

(** Every row sits under its own primary key. *)
Definition well_keyed (s : State) : Prop :=
  map_Forall (fun k d => id d = k) (downloads s).

(** The unique constraint on [downloads.episode_id]. *)
Definition unique_episode (s : State) : Prop :=
  NoDup ((fun kd : Z * Download => episode_id (snd kd))
           <$> map_to_list (downloads s)).

(** No row of [downloads] belongs to the episode. *)
Definition no_download_for (s : State) (e : Z) : Prop :=
  map_Forall (fun _ d => episode_id d <> e) (downloads s).

(** Row [k] exists and has failed [r] times so far. *)
Definition has_retry (k r : Z) (s : State) : Prop :=
  well_keyed s /\ exists d, downloads s !! k = Some d /\ retry_count d = r.

(** Row [k] after an attempt that returned [res], [r] being the count
    before it. *)
Definition after_attempt (k r : Z) (res : bool) (s : State) : Prop :=
  well_keyed s
  /\ exists d, downloads s !! k = Some d
       /\ retry_count d = r + (if res then 0 else 1)
       /\ status d = (if res then completed else failed).

(** What can happen to row [k] between its creation and its deletion: a
    transfer attempt, a new admission of its episode, the retry sweep,
    a cancellation. *)
Inductive LifeOp :=
| Attempt (net : Network) (episode : Episode) (path : string)
| Readmit (fm : FileManager.t)
| RetrySweep (max_retries : Z)
| CancelIt.

(** One operation on row [k]: the state it leaves, and whether it was an
    attempt that returned [False]. *)
Definition life_step (k : Z) (op : LifeOp) (s : State) : State * bool :=
  match downloads s !! k with
  | None => (s, false)
  | Some d =>
      match op with
      | Attempt net episode path =>
          let '(r, s') := DownloadService.download_episode net episode path d s in
          (s', match r with inr false => true | _ => false end)
      | Readmit fm =>
          (snd (DownloadEngine.queue_episode_download fm (episode_id d) s), false)
      | RetrySweep max_retries =>
          (snd (DownloadEngine.reset_failed_downloads max_retries s), false)
      | CancelIt => (snd (DownloadEngine.cancel_download k s), false)
      end
  end.

(** A history of row [k]: the final state and the number of failed
    attempts in it. *)
Fixpoint life (k : Z) (ops : list LifeOp) (s : State) : State * Z :=
  match ops with
  | [] => (s, 0)
  | op :: rest =>
      let '(s1, failed_attempt) := life_step k op s in
      let '(s2, n) := life k rest s1 in
      (s2, (if failed_attempt then 1 else 0) + n)
  end.

(** The operations on download rows. *)
Inductive Op :=
| OpEnqueue (fm : FileManager.t) (episode_id : Z)
| OpUpdateStatus (dl : Download) (st : Status) (started : option datetime)
| OpUpdateProgress (dl : Download) (p : Q)
| OpMarkComplete (dl : Download) (path : string)
| OpMarkFailed (dl : Download) (message : string)
| OpTransfer (net : Network) (episode : Episode) (path : string) (dl : Download)
| OpCancel (download_id : Z)
| OpRetrySweep (max_retries : Z).

Definition run_op (op : Op) (s : State) : State :=
  match op with
  | OpEnqueue fm e => snd (DownloadEngine.queue_episode_download fm e s)
  | OpUpdateStatus dl st started =>
      snd (DownloadService._update_status dl st started s)
  | OpUpdateProgress dl p => snd (DownloadService._update_progress dl p s)
  | OpMarkComplete dl path => snd (DownloadService._mark_complete dl path s)
  | OpMarkFailed dl msg => snd (DownloadService._mark_failed dl msg s)
  | OpTransfer net episode path dl =>
      snd (DownloadService.download_episode net episode path dl s)
  | OpCancel k => snd (DownloadEngine.cancel_download k s)
  | OpRetrySweep max_retries =>
      snd (DownloadEngine.reset_failed_downloads max_retries s)
  end.

Definition run_ops (ops : list Op) (s : State) : State :=
  foldl (fun s op => run_op op s) s ops.

(** The operations as the engine and the executor issue them: progress
    is written only inside a transfer, after the transfer has set the row
    to downloading, and no status write says completed except
    mark-complete. *)
Definition orchestrated (op : Op) : bool :=
  match op with
  | OpUpdateProgress _ _ => false
  | OpUpdateStatus _ st _ => negb (bool_decide (st = completed))
  | _ => true
  end.

(** The row invariants: [progress] within [0, 1], and, when [strict],
    1.0 on a completed row. *)
Definition row_ok (strict : bool) (d : Download) : Prop :=
  (0 <= progress d)%Q /\ (progress d <= 1)%Q
  /\ (strict = true -> status d = completed -> (progress d == 1)%Q).

Global Instance Qle_dec (x y : Q) : Decision (x <= y)%Q.
Proof. unfold Qle. apply _. Defined.
Global Instance Qeq_dec' (x y : Q) : Decision (x == y)%Q.
Proof. unfold Qeq. apply _. Defined.
Global Instance row_ok_dec (strict : bool) (d : Download) :
  Decision (row_ok strict d).
Proof. unfold row_ok. apply _. Defined.

Definition rows_ok (strict : bool) (s : State) : Prop :=
  map_Forall (fun k d => id d = k /\ row_ok strict d) (downloads s).

(** While a transfer streams: the rows are fine and the row of the
    transfer is not a completed one. *)
Definition streaming_ok (strict : bool) (k : Z) (s : State) : Prop :=
  rows_ok strict s
  /\ forall d, downloads s !! k = Some d -> status d <> completed.

(** What the destination holds when the body starts to arrive: the
    partial file when the executor resumes, nothing otherwise. *)
Definition base_content (s : State) (path : string) : bytes :=
  if 0 <? DownloadService.resume_offset s path
  then default [] (files s !! path) else [].

(** A state during a run on row [k] started in [s]: the row is there with
    its retry count [r], the other rows are those of [s], the files are
    [fs]. *)
Definition run_state (s : State) (k r : Z) (fs : gmap string bytes)
    (s1 : State) : Prop :=
  well_keyed s1 /\ files s1 = fs
  /\ (exists d1, downloads s1 !! k = Some d1 /\ retry_count d1 = r)
  /\ forall j, j <> k -> downloads s1 !! j = downloads s !! j.

(** The row a run leaves when the stream ended without an error, for
    expected size [T], actual size [A] and retry count [r] before. *)
Definition finished_row (T A r : Z) (res : bool) (d' : Download) : Prop :=
  let mismatch :=
    (0 <? T) && negb (A =? T) && DownloadService.beyond_tolerance T A in
  res = negb mismatch
  /\ if mismatch
     then status d' = failed
          /\ error_message d'
             = Some ("Size mismatch: expected " +:+ pretty T +:+ ", got "
                       +:+ pretty A)
          /\ retry_count d' = r + 1
     else status d' = completed /\ progress d' = 1%Q
          /\ file_size d' = Some A /\ error_message d' = None
          /\ retry_count d' = r.

(** The [Range] header of a request, and a server that answers the range
    request from offset [S] with the rest of [src]. *)
Definition range_header (req : Request) : option string :=
  snd <$> List.find (fun h => String.eqb (fst h) "Range") (req_headers req).

Definition serves_range (net : Network) (src : bytes) (S : Z) : Prop :=
  forall req,
    range_header req = Some ("bytes=" +:+ pretty S +:+ "-") ->
    exists response,
      stream_get net req = inr response
      /\ status_code response = 206
      /\ content_length response = Some (Z.of_nat (length src) - S)
      /\ concat (chunks response) = drop (Z.to_nat S) src
      /\ stream_error response = None.

(** [p] lies strictly inside [root]: [root] is a proper ancestor of it. *)
Definition strictly_inside (root p : Pathlib.Path) : Prop :=
  Pathlib.is_absolute p = Pathlib.is_absolute root
  /\ exists rest, rest <> []
       /\ Pathlib.parts p = Pathlib.parts root ++ rest.

(** The retention sweep, in the words of its properties. *)

(** The absolute path of the file of a row, as the sweep builds it. *)
Definition full_path_of (fm : FileManager.t) (d : Download) : string :=
  Pathlib.to_string
    (Pathlib.join (FileManager.base_path fm)
       (Pathlib.of_string (default EmptyString (file_path d)))).

(** Whether the sweep deletes a row that lies beyond the newest ones: it
    asks the oracle when one is configured and the row has a file path,
    and otherwise deletes. *)
Definition doomed (fm : FileManager.t) (plex_service : option Jobs.PlexService)
    (d : Download) : bool :=
  match plex_service, truthy_str (file_path d) with
  | Some is_episode_played, true => is_episode_played (full_path_of fm d)
  | _, _ => true
  end.

(** [d] is a completed download of episode [e] of the podcast. *)
Definition completed_of (s : State) (podcast : Podcast) (d : Download)
    (e : Episode) : Prop :=
  downloads s !! id d = Some d
  /\ episodes s !! episode_id d = Some e
  /\ podcast_id e = podcast_pk podcast
  /\ status d = completed.

(** Episode [a] was published no earlier than [b]; an episode without a
    date counts as older than every dated one. *)
Definition not_older (a b : Episode) : Prop :=
  match pub_date a, pub_date b with
  | Some x, Some y => y <= x
  | None, Some _ => False
  | _, None => True
  end.

(** Newest first. *)
Definition newest_first (rows : list (Download * Episode)) : Prop :=
  StronglySorted (fun a b => not_older (snd a) (snd b)) rows.


(** What a sweep from [s] to [s'] did to the podcast: there is a listing
    [rows] of its completed downloads, newest first, of which the first
    [max_episodes_to_keep] are still in the table, and every later one is
    still there exactly when it is not [doomed]; a doomed one is gone,
    and so is its file when it has a path that can be removed. *)
Definition swept (fm : FileManager.t) (plex_service : option Jobs.PlexService)
    (s s' : State) (podcast : Podcast) : Prop :=
  exists rows,
    NoDup rows
    /\ (forall d e, (d, e) ∈ rows <-> completed_of s podcast d e)
    /\ newest_first rows
    /\ forall (i : nat) d e,
         rows !! i = Some (d, e) ->
         if (Z.of_nat i <? max_episodes_to_keep podcast)
            || negb (doomed fm plex_service d)
         then downloads s' !! id d = Some d
         else downloads s' !! id d = None
              /\ (truthy_str (file_path d) = true ->
                    FileManager.unlink_fails fm (full_path_of fm d) = false ->
                    files s' !! full_path_of fm d = None).


(** The columns of a row that say which download it is and where its
    file goes. *)
Definition same_identity (d d' : Download) : Prop :=
  id d' = id d /\ episode_id d' = episode_id d
  /\ file_path d' = file_path d /\ created_at d' = created_at d.

(** [s1] differs from [s] at most in row [k], which is there exactly when
    it was and is still the same download, and in the file at [path]. *)
Definition confined (s : State) (k : Z) (path : string) (s1 : State) : Prop :=
  well_keyed s1
  /\ podcasts s1 = podcasts s /\ episodes s1 = episodes s
  /\ (forall j, j <> k -> downloads s1 !! j = downloads s !! j)
  /\ match downloads s !! k with
     | Some d => exists d1, downloads s1 !! k = Some d1 /\ same_identity d d1
     | None => downloads s1 !! k = None
     end
  /\ forall p, p <> path -> files s1 !! p = files s !! p.

(** Every row of [s] is still in [s'], and is still the same download. *)
Definition evolves (s s' : State) : Prop :=
  well_keyed s'
  /\ forall k d, downloads s !! k = Some d ->
       exists d', downloads s' !! k = Some d' /\ same_identity d d'.

(** The two constraints of the [downloads] table. *)
Definition tables_ok (s : State) : Prop := well_keyed s /\ unique_episode s.

(** A path component as [Path] keeps it: not empty, not [.], without a
    separator. *)
Definition component (c : string) : Prop :=
  c <> EmptyString /\ c <> "."%string
  /\ Forall (fun a => a <> "/"%char) (list_ascii_of_string c).

(** The download [d] admitted again: the same download, with the retry
    count it had, pending, at progress 0. *)
Definition revived (d d' : Download) : Prop :=
  same_identity d d' /\ retry_count d' = retry_count d
  /\ status d' = pending /\ progress d' = 0%Q.

Module Fixtures.
Import Pathlib.

Definition sample_clock (n : nat) : datetime := 1000 + Z.of_nat n.

Definition sample_fm (free : Z) : FileManager.t :=
  FileManager.mk (of_string "/data/podcasts") free
    (fun name _ => name) (fun _ => "mp3"%string) (fun _ => "2024-01-01"%string)
    (resolve_lexical []) (fun _ => false).

Definition podcast1 : Podcast := mkPodcast 1 "News" (Some "News"%string) 2 true.

Definition episode_of (k : Z) (size : option Z) : Episode :=
  mkEpisode k 1 ("ep" +:+ pretty k) (Some (100 - k))
    "http://example.org/a.mp3" size (Some "audio/mpeg"%string).

Definition download_of (k : Z) (st : Status) (path : option string) : Download :=
  mkDownload k k st path None 0 None 0 None None 10 10.

(** Transports: one that answers every GET with a bare status line, one
    that answers 200 with a declared length and a body. *)
Definition net_status (code : Z) (reason : string) : Network :=
  mkNetwork (fun url => inr url)
    (fun _ => inr (mkResponse code reason None None [] None)).

Definition net_body (declared : Z) (body : list bytes) : Network :=
  mkNetwork (fun url => inr url)
    (fun _ => inr (mkResponse 200 "OK" (Some declared) None body None)).

Definition zeros (n : Z) : bytes := replicate (Z.to_nat n) Byte.x00.

(** A transport whose GET raises. *)
Definition net_raises (e : exn) : Network :=
  mkNetwork (fun url => inr url) (fun _ => inl e).

(** A server holding [src] that honours the range request from offset [S]
    and answers every other request with the whole of it. *)
Definition range_server (src : bytes) (S : Z) : Network :=
  mkNetwork (fun url => inr url)
    (fun req =>
       if bool_decide (range_header req = Some ("bytes=" +:+ pretty S +:+ "-"))
       then inr (mkResponse 206 "Partial Content"
                   (Some (Z.of_nat (length src) - S)) None
                   [drop (Z.to_nat S) src] None)
       else inr (mkResponse 200 "OK" (Some (Z.of_nat (length src))) None
                   [src] None)).

Definition state_of (eps : list Episode) (dls : list Download)
    (fs : list (string * bytes)) : State :=
  mkState {[1 := podcast1]}
    (list_to_map ((fun e => (episode_pk e, e)) <$> eps))
    (list_to_map ((fun d => (id d, d)) <$> dls))
    (list_to_map fs) sample_clock 0.

(** The retention scenario: four completed downloads of [podcast1]
    (which keeps 2), download 1 the newest; the oracle reports the file
    of download 3 played, and nothing else. *)
Definition completed_with_file (k : Z) : Download :=
  download_of k completed (Some ("News/" +:+ pretty k +:+ ".mp3")).

Definition retention_state : State :=
  state_of [episode_of 1 None; episode_of 2 None; episode_of 3 None;
            episode_of 4 None]
    [completed_with_file 1; completed_with_file 2; completed_with_file 3;
     completed_with_file 4]
    [("/data/podcasts/News/3.mp3"%string, zeros 3);
     ("/data/podcasts/News/4.mp3"%string, zeros 4)].

Definition played_3 : Jobs.PlexService :=
  fun path => String.eqb path "/data/podcasts/News/3.mp3".

(** A transport whose HEAD probe raises, and one whose probe redirects
    everything to [target]; both answer every GET with 200 and [body]. *)
Definition net_probe_fails (body : list bytes) : Network :=
  mkNetwork (fun _ => inl (HTTPError "probe refused"))
    (fun _ => inr (mkResponse 200 "OK" None None body None)).

Definition net_probe_redirects (target : string) (body : list bytes) : Network :=
  mkNetwork (fun _ => inr target)
    (fun _ => inr (mkResponse 200 "OK" None None body None)).

(** A transport that answers every GET with 200, a declared length, a
    body, and then breaks the stream with [e]. *)
Definition net_breaks (declared : Z) (body : list bytes) (e : exn) : Network :=
  mkNetwork (fun url => inr url)
    (fun _ => inr (mkResponse 200 "OK" (Some declared) None body (Some e))).

(** A transport that answers every GET with 200 and a body, without a
    content length. *)
Definition net_unsized (body : list bytes) : Network :=
  mkNetwork (fun url => inr url)
    (fun _ => inr (mkResponse 200 "OK" None None body None)).

(** A server holding [src] whose first answer breaks after [n] bytes, and
    the same server once it honours the range request from [n]. *)
Definition flaky_server (src : bytes) (n : nat) : Network :=
  mkNetwork (fun url => inr url)
    (fun _ => inr (mkResponse 200 "OK" (Some (Z.of_nat (length src))) None
                     [take n src] (Some (HTTPError "connection reset")))).

End Fixtures.

(* ===================================================================== *)
(** * Properties *)
(* ===================================================================== *)

(** Unfolding the monad on a run. *)
Ltac run_step :=
  unfold mbind, M_bind, mret, M_ret, get_state, modify, raise, utcnow,
    commit_download, put_download, tick, scalar_one, scalar_one_or_none,
    select_by_pk in *;
  cbn beta iota in *.

(** The same, keeping [put_download] and [tick] folded. *)
Ltac run_keep :=
  repeat progress
    (unfold mbind, M_bind, mret, M_ret, get_state, modify, raise, utcnow,
       commit_download, scalar_one, scalar_one_or_none, select_by_pk in *;
     cbn beta iota in * ).

(** Closed decidable facts about the example states, by evaluation. *)
Ltac by_compute :=
  unfold well_keyed, unique_episode, no_download_for, rows_ok;
  match goal with
  | |- ?P => apply (bool_decide_unpack P); vm_compute; exact I
  end.

Lemma well_keyed_commit (s : State) (d : Download) :
  well_keyed s -> well_keyed (put_download d s).
Proof. intros Hwk. by apply map_Forall_insert_2. Qed.

Lemma well_keyed_lookup (s : State) (k : Z) (d : Download) :
  well_keyed s -> downloads s !! k = Some d -> id d = k.
Proof. intros Hwk Hd. exact (map_Forall_lookup_1 _ _ _ _ Hwk Hd). Qed.

Section Cancel.
Import DownloadEngine.

(** C8. [cancel_download] turns a pending or downloading row into a
    deleted one and answers true; among the rows that exist it answers
    false exactly for a completed one, which it leaves as it is (with the
    rest of the state); it answers false for an id with no row. *)
Theorem cancel_download_spec (s : State) (k : Z) :
  well_keyed s ->
  (forall d, downloads s !! k = Some d ->
     (status d = pending \/ status d = downloading ->
        exists s', cancel_download k s = (inr true, s')
          /\ (exists d', downloads s' !! k = Some d' /\ status d' = deleted
                /\ set_updated_at (updated_at d) d' = set_status deleted d)
          /\ (forall j, j <> k -> downloads s' !! j = downloads s !! j))
     /\ (fst (cancel_download k s) = inr false <-> status d = completed)
     /\ (status d = completed -> cancel_download k s = (inr false, s)))
  /\ (downloads s !! k = None -> cancel_download k s = (inr false, s)).
Proof.
  intros Hwk. split.
  - intros d Hd. pose proof (well_keyed_lookup _ _ _ Hwk Hd) as Hid.
    unfold cancel_download. run_step. rewrite Hd. cbn.
    destruct (status d) eqn:Hst; cbn; repeat split; try done;
      try (intros [?|?]; discriminate).
    all: intros _; eexists; split; [reflexivity|]; split;
      [ eexists; cbn; rewrite Hid, lookup_insert_eq; split; [reflexivity|];
        split; [reflexivity|]; by destruct d
      | intros j Hj; cbn; rewrite Hid; by rewrite lookup_insert_ne ].
  - intros Hnone. unfold cancel_download. run_step. by rewrite Hnone.
Qed.

End Cancel.

Lemma cancel_download_witness :
  exists s', DownloadEngine.cancel_download 1
      (Fixtures.state_of [] [Fixtures.download_of 1 pending None] []) = (inr true, s').
Proof.
  pose proof (cancel_download_spec
    (Fixtures.state_of [] [Fixtures.download_of 1 pending None] []) 1) as H.
  destruct H as [H _].
  - by_compute.
  - destruct (H (Fixtures.download_of 1 pending None)) as [H1 _];
      [reflexivity|].
    destruct H1 as (s' & Hs' & _); [by left|]. by exists s'.
Defined.

(* --------------------------------------------------------------------- *)
(** ** Admission: [queue_episode_download] *)
(* --------------------------------------------------------------------- *)

Section Enqueue.
Import DownloadEngine.

Lemma foldr_max_ge (l : list Z) (k : Z) : k ∈ l -> k <= foldr Z.max 0 l.
Proof.
  induction l as [|x l IH]; intros Hin.
  - by apply elem_of_nil in Hin.
  - apply elem_of_cons in Hin as [-> | Hin]; cbn; [lia|].
    specialize (IH Hin). lia.
Qed.

Lemma next_pk_fresh {A} (table : gmap Z A) : table !! next_pk table = None.
Proof.
  destruct (table !! next_pk table) as [r|] eqn:Hlook; [|done].
  exfalso. apply elem_of_map_to_list in Hlook.
  assert (next_pk table ∈ (map_to_list table).*1) as Hin.
  { apply list_elem_of_fmap. by exists (next_pk table, r). }
  apply foldr_max_ge in Hin. unfold next_pk in Hin. lia.
Qed.

(** The rows a [select ... where episode_id == e] matches, when the
    episode has one row and when it has none. *)
Lemma filter_none {A} (P : A -> Prop) `{!forall x, Decision (P x)} (l : list A) :
  (forall x, x ∈ l -> ~ P x) -> filter P l = [].
Proof.
  induction l as [|x l IH]; intros Hall; [done|].
  rewrite filter_cons_False by (apply Hall; by left).
  apply IH. intros y Hy. apply Hall. by right.
Qed.

Lemma filter_single {A} (P : A -> Prop) `{!forall x, Decision (P x)}
    (l : list A) (a : A) :
  NoDup l -> a ∈ l -> P a -> (forall x, x ∈ l -> P x -> x = a) ->
  filter P l = [a].
Proof.
  induction l as [|x l IH]; intros Hnd Hin Ha Huniq.
  - by apply elem_of_nil in Hin.
  - apply NoDup_cons in Hnd as [Hx Hnd].
    destruct (decide (P x)) as [HPx | HPx].
    + assert (x = a) as -> by (apply Huniq; [by left|done]).
      rewrite filter_cons_True by done. f_equal.
      apply filter_none. intros y Hy HPy.
      assert (y = a) as -> by (apply Huniq; [by right|done]). done.
    + rewrite filter_cons_False by done.
      apply elem_of_cons in Hin as [-> | Hin]; [done|].
      apply IH; auto. intros y Hy. apply Huniq. by right.
Qed.

Lemma NoDup_fmap_elem {A B} (f : A -> B) (l : list A) (x y : A) :
  NoDup (f <$> l) -> x ∈ l -> y ∈ l -> f x = f y -> x = y.
Proof.
  induction l as [|a l IH]; intros Hnd Hx Hy Heq.
  - by apply elem_of_nil in Hx.
  - rewrite fmap_cons in Hnd. apply NoDup_cons in Hnd as [Ha Hnd].
    apply elem_of_cons in Hx as [-> | Hx];
      apply elem_of_cons in Hy as [-> | Hy]; auto.
    + exfalso. apply Ha. rewrite Heq. by apply list_elem_of_fmap_2.
    + exfalso. apply Ha. rewrite <- Heq. by apply list_elem_of_fmap_2.
Qed.

Lemma unique_episode_key (s : State) (k1 k2 : Z) (d1 d2 : Download) :
  unique_episode s ->
  downloads s !! k1 = Some d1 -> downloads s !! k2 = Some d2 ->
  episode_id d1 = episode_id d2 -> k1 = k2.
Proof.
  intros Huniq H1 H2 Heq.
  apply elem_of_map_to_list in H1, H2.
  by pose proof (NoDup_fmap_elem _ _ (k1, d1) (k2, d2) Huniq H1 H2 Heq)
    as [= -> _].
Qed.

Lemma select_existing (s : State) (k : Z) (d : Download) :
  well_keyed s -> unique_episode s -> downloads s !! k = Some d ->
  select_downloads_by_episode s (episode_id d) = [d].
Proof.
  intros Hwk Huniq Hd. unfold select_downloads_by_episode.
  apply filter_single.
  - apply NoDup_fmap_2_strong; [|apply NoDup_map_to_list].
    intros [k1 d1] [k2 d2] H1 H2 Heq. cbn in Heq. subst d2.
    apply elem_of_map_to_list in H1, H2.
    f_equal. rewrite <- (well_keyed_lookup _ _ _ Hwk H1).
    by rewrite <- (well_keyed_lookup _ _ _ Hwk H2).
  - apply list_elem_of_fmap. exists (k, d). split; [done|].
    by apply elem_of_map_to_list.
  - done.
  - intros d' Hd' Heq. apply list_elem_of_fmap in Hd' as ([k' d''] & -> & Hin).
    cbn in *. apply elem_of_map_to_list in Hin.
    pose proof (unique_episode_key _ _ _ _ _ Huniq Hin Hd Heq) as ->.
    congruence.
Qed.

Lemma select_none (s : State) (e : Z) :
  no_download_for s e -> select_downloads_by_episode s e = [].
Proof.
  intros Hno. unfold select_downloads_by_episode.
  apply filter_none. intros d Hd Heq.
  apply list_elem_of_fmap in Hd as ([k d'] & -> & Hin).
  apply elem_of_map_to_list in Hin.
  exact (map_Forall_lookup_1 _ _ _ _ Hno Hin Heq).
Qed.

(** C2. Admission is idempotent.  For an episode that has a row: when
    the row is completed, pending or downloading, the call returns it
    and changes nothing; when it is failed or deleted, the call returns
    that same row (same key) reset to pending with progress 0, and the
    table has the keys it had.  For an id with no episode the call raises
    the not-found error. *)
Theorem queue_existing_spec (fm : FileManager.t) (s : State) (e : Z) :
  well_keyed s -> unique_episode s ->
  (forall ep k d,
     episodes s !! e = Some ep -> downloads s !! k = Some d ->
     episode_id d = e ->
     (status d = completed \/ status d = pending \/ status d = downloading ->
        queue_episode_download fm e s = (inr d, s))
     /\ (status d = failed \/ status d = deleted ->
           exists d' s',
             queue_episode_download fm e s = (inr d', s')
             /\ d' = set_updated_at (clock s (ticks s))
                       (set_progress 0 (set_status pending d))
             /\ status d' = pending /\ progress d' = 0%Q /\ id d' = k
             /\ downloads s' = <[k := d']> (downloads s)
             /\ dom (downloads s') = dom (downloads s)))
  /\ (episodes s !! e = None ->
        exists msg,
          queue_episode_download fm e s = (inl (EpisodeNotFoundException msg), s)).
Proof.
  intros Hwk Huniq. split.
  - intros ep k d Hep Hd He.
    pose proof (well_keyed_lookup _ _ _ Hwk Hd) as Hid.
    pose proof (select_existing _ _ _ Hwk Huniq Hd) as Hsel.
    rewrite He in Hsel.
    unfold queue_episode_download. run_step. rewrite Hep. cbn.
    rewrite Hsel. cbn. split.
    + intros [Hst | [Hst | Hst]]; by rewrite Hst.
    + intros Hst. eexists _, _. split.
      { destruct Hst as [Hst | Hst]; rewrite Hst; reflexivity. }
      split; [reflexivity|]. split; [reflexivity|]. split; [reflexivity|].
      split; [exact Hid|]. cbn. rewrite Hid. split; [reflexivity|].
      apply dom_insert_lookup_L. by exists d.
  - intros Hnone. eexists. unfold queue_episode_download. run_step.
    by rewrite Hnone.
Qed.

Lemma queue_existing_witness :
  exists s',
    queue_episode_download (Fixtures.sample_fm 0) 1
      (Fixtures.state_of [Fixtures.episode_of 1 None]
                         [Fixtures.download_of 1 failed None] [])
    = (inr (set_updated_at 1000
              (set_progress 0 (set_status pending
                 (Fixtures.download_of 1 failed None)))), s').
Proof.
  destruct (queue_existing_spec (Fixtures.sample_fm 0)
    (Fixtures.state_of [Fixtures.episode_of 1 None]
                       [Fixtures.download_of 1 failed None] []) 1) as [H _].
  - by_compute.
  - by_compute.
  - destruct (H (Fixtures.episode_of 1 None) 1
                (Fixtures.download_of 1 failed None)) as [_ H2];
      [reflexivity | reflexivity | reflexivity |].
    destruct H2 as (d' & s' & Hrun & -> & _); [by left|].
    exists s'. exact Hrun.
Defined.

End Enqueue.

Section EnqueueNew.
Import DownloadEngine.

(** Planning a path reads the clock at most; the tables and the files
    stay as they are. *)
Lemma get_episode_file_path_frame (fm : FileManager.t) (ep : Episode)
    (p : Podcast) (s s1 : State) r :
  FileManager.get_episode_file_path fm ep p s = (r, s1) ->
  exists n, s1 = set_ticks n s.
Proof.
  unfold FileManager.get_episode_file_path,
    FileManager.generate_episode_filename. run_step.
  destruct (pub_date ep); cbn;
    match goal with
    | |- context [FileManager.relative_to ?a ?b] =>
        destruct (FileManager.relative_to a b)
    end; cbn; intros [= <- <-]; eauto.
  all: exists (ticks s); by destruct s.
Qed.

(** What admission does for an episode without a row, once its path is
    planned: the disk check, then the insertion. *)
Lemma queue_new (fm : FileManager.t) (s s1 : State) (e : Z) (ep : Episode)
    (p : Podcast) full rel :
  episodes s !! e = Some ep ->
  no_download_for s e ->
  podcasts s !! podcast_id ep = Some p ->
  FileManager.get_episode_file_path fm ep p s = (inr (full, rel), s1) ->
  queue_episode_download fm e s =
    if truthy_int (episode_file_size ep)
       && (FileManager.disk_free fm
             <? default 0 (episode_file_size ep) + buffer_bytes)
    then (inl (InsufficientStorageException
                 (default 0 (episode_file_size ep) + buffer_bytes)
                 (FileManager.disk_free fm)), s1)
    else add_download e rel s1.
Proof.
  intros Hep Hno Hp Hplan.
  unfold queue_episode_download, episode_podcast. run_step.
  rewrite Hep. cbn. rewrite (select_none _ _ Hno). cbn. rewrite Hp. cbn.
  rewrite Hplan. cbn. unfold FileManager.get_available_space. run_step.
  destruct (truthy_int (episode_file_size ep)); cbn; [|done].
  by destruct (_ <? _).
Qed.

Lemma add_download_spec (e : Z) (rel : string) (s1 : State) :
  exists d s',
    add_download e rel s1 = (inr d, s')
    /\ status d = pending /\ progress d = 0%Q /\ retry_count d = 0
    /\ episode_id d = e /\ file_path d = Some rel
    /\ downloads s1 !! id d = None
    /\ downloads s' = <[id d := d]> (downloads s1).
Proof.
  unfold add_download. run_step. eexists _, _. split; [reflexivity|].
  cbn. repeat split. apply next_pk_fresh.
Qed.

(** C3, as amended.  For an episode with a declared size [size] other
    than 0 and no row: when the free space is below [size] + 1 GiB,
    admission raises the storage error with [required_bytes] = [size] +
    1 GiB and [available_bytes] the free space, and the table is as it
    was; otherwise it inserts a new pending row. *)
Theorem queue_space_check (fm : FileManager.t) (s s1 : State) (e : Z)
    (ep : Episode) (p : Podcast) (size : Z) full rel :
  episodes s !! e = Some ep ->
  no_download_for s e ->
  podcasts s !! podcast_id ep = Some p ->
  FileManager.get_episode_file_path fm ep p s = (inr (full, rel), s1) ->
  episode_file_size ep = Some size ->
  size <> 0 ->
  (FileManager.disk_free fm < size + 1024 * 1024 * 1024 ->
     queue_episode_download fm e s =
       (inl (InsufficientStorageException (size + 1024 * 1024 * 1024)
               (FileManager.disk_free fm)), s1)
     /\ downloads s1 = downloads s)
  /\ (FileManager.disk_free fm >= size + 1024 * 1024 * 1024 ->
        exists d s',
          queue_episode_download fm e s = (inr d, s')
          /\ status d = pending /\ episode_id d = e
          /\ downloads s !! id d = None
          /\ downloads s' = <[id d := d]> (downloads s)).
Proof.
  intros Hep Hno Hp Hplan Hsize Hnz.
  rewrite (queue_new _ _ _ _ _ _ _ _ Hep Hno Hp Hplan), Hsize. cbn.
  apply get_episode_file_path_frame in Hplan as [n ->].
  assert (negb (size =? 0) = true) as -> by (apply negb_true_iff; lia).
  unfold buffer_bytes. split; intros Hfree.
  - assert ((FileManager.disk_free fm <? size + 1024 * 1024 * 1024) = true)
      as -> by lia.
    done.
  - assert ((FileManager.disk_free fm <? size + 1024 * 1024 * 1024) = false)
      as -> by lia.
    cbn. destruct (add_download_spec e rel (set_ticks n s))
      as (d & s' & -> & Hst & _ & _ & He & _ & Hfresh & Hins).
    by exists d, s'.
Qed.

(** C10. For an episode whose declared size is null and which has no
    row, admission checks no disk space: whatever the free space, it
    raises no storage error and inserts a new pending row. *)
Theorem queue_unknown_size (fm : FileManager.t) (s s1 : State) (e : Z)
    (ep : Episode) (p : Podcast) full rel :
  episodes s !! e = Some ep ->
  no_download_for s e ->
  podcasts s !! podcast_id ep = Some p ->
  FileManager.get_episode_file_path fm ep p s = (inr (full, rel), s1) ->
  episode_file_size ep = None ->
  exists d s',
    queue_episode_download fm e s = (inr d, s')
    /\ status d = pending /\ episode_id d = e
    /\ downloads s !! id d = None
    /\ downloads s' = <[id d := d]> (downloads s).
Proof.
  intros Hep Hno Hp Hplan Hsize.
  rewrite (queue_new _ _ _ _ _ _ _ _ Hep Hno Hp Hplan), Hsize. cbn.
  apply get_episode_file_path_frame in Hplan as [n ->].
  destruct (add_download_spec e rel (set_ticks n s))
    as (d & s' & -> & Hst & _ & _ & He & _ & Hfresh & Hins).
  by exists d, s'.
Qed.

(** The scenario of the specification: 5 GiB declared, 3 GiB free. *)
Lemma queue_space_check_witness :
  let GiB := 1024 * 1024 * 1024 in
  let s := Fixtures.state_of [Fixtures.episode_of 1 (Some (5 * GiB))] [] [] in
  queue_episode_download (Fixtures.sample_fm (3 * GiB)) 1 s
  = (inl (InsufficientStorageException (6 * GiB) (3 * GiB)), s).
Proof.
  intros GiB s.
  edestruct (queue_space_check (Fixtures.sample_fm (3 * GiB)) s s 1
               (Fixtures.episode_of 1 (Some (5 * GiB))) Fixtures.podcast1
               (5 * GiB)) as [H _].
  - reflexivity.
  - by_compute.
  - reflexivity.
  - vm_compute. reflexivity.
  - reflexivity.
  - discriminate.
  - destruct H as [H _]; [vm_compute; reflexivity|]. exact H.
Defined.

(** C3 fails for a declared size of 0 bytes: with no free space at all,
    which is below 0 + 1 GiB, admission raises nothing and inserts the
    row. *)
Lemma queue_space_check_zero_size :
  let s := Fixtures.state_of [Fixtures.episode_of 1 (Some 0)] [] [] in
  let fm := Fixtures.sample_fm 0 in
  episodes s !! 1 = Some (Fixtures.episode_of 1 (Some 0))
  /\ no_download_for s 1
  /\ FileManager.disk_free fm < 0 + 1024 * 1024 * 1024
  /\ exists d s',
       queue_episode_download fm 1 s = (inr d, s')
       /\ status d = pending /\ downloads s' !! id d = Some d.
Proof.
  intros s fm. split; [reflexivity|]. split; [by_compute|].
  split; [reflexivity|]. eexists _, _. split; [vm_compute; reflexivity|].
  split; reflexivity.
Qed.

Lemma queue_unknown_size_witness :
  let s := Fixtures.state_of [Fixtures.episode_of 1 None] [] [] in
  exists d s',
    queue_episode_download (Fixtures.sample_fm 0) 1 s = (inr d, s')
    /\ status d = pending.
Proof.
  intros s.
  edestruct (queue_unknown_size (Fixtures.sample_fm 0) s s 1
               (Fixtures.episode_of 1 None) Fixtures.podcast1)
    as (d & s' & Hrun & Hst & _).
  - reflexivity.
  - by_compute.
  - reflexivity.
  - vm_compute. reflexivity.
  - reflexivity.
  - by exists d, s'.
Defined.

End EnqueueNew.

(* --------------------------------------------------------------------- *)
(** ** Rules for runs *)
(* --------------------------------------------------------------------- *)

Section Rules.
Context {A B : Type}.
Implicit Types (Q : A -> State -> Prop) (E : exn -> State -> Prop).

Lemma wp_ret (a : A) Q E s : Q a s -> wp (mret a) Q E s.
Proof. done. Qed.

Lemma wp_raise (e : exn) Q E s : E e s -> wp (raise e) Q E s.
Proof. done. Qed.

Lemma wp_bind (m : M A) (k : A -> M B) (Q' : B -> State -> Prop) E s :
  wp m (fun a s' => wp (k a) Q' E s') E s -> wp (m ≫= k) Q' E s.
Proof.
  unfold wp, mbind, M_bind. by destruct (m s) as [[e|a] s'].
Qed.

Lemma wp_try (m : M A) (h : exn -> M A) Q E s :
  wp m Q (fun e s' => wp (h e) Q E s') s -> wp (try_except m h) Q E s.
Proof.
  unfold wp, try_except. by destruct (m s) as [[e|a] s'].
Qed.

Lemma wp_bind_assoc {C} (m : M A) (f : A -> M B) (g : B -> M C)
    (Q' : C -> State -> Prop) E s :
  wp ((m ≫= f) ≫= g) Q' E s -> wp (m ≫= (fun a => f a ≫= g)) Q' E s.
Proof.
  unfold wp, mbind, M_bind. by destruct (m s) as [[e|a] s'].
Qed.

Lemma wp_mono (m : M A) Q Q' E E' s :
  (forall a s', Q a s' -> Q' a s') -> (forall e s', E e s' -> E' e s') ->
  wp m Q E s -> wp m Q' E' s.
Proof.
  unfold wp. intros HQ HE. destruct (m s) as [[e|a] s']; auto.
Qed.

End Rules.

Lemma wp_get_state Q E s : Q s s -> wp get_state Q E s.
Proof. done. Qed.

Lemma wp_modify f Q E s : Q tt (f s) -> wp (modify f) Q E s.
Proof. done. Qed.

Lemma wp_utcnow Q E s : Q (clock s (ticks s)) (tick s) -> wp utcnow Q E s.
Proof. done. Qed.

(** A run stated as an equation, from its [wp]. *)
Lemma wp_returns {A} (m : M A) (Q : A -> State -> Prop) s :
  wp m Q (fun _ _ => False) s -> exists a s', m s = (inr a, s') /\ Q a s'.
Proof.
  unfold wp. destruct (m s) as [[e|a] s']; [done|]. eauto.
Qed.

(* --------------------------------------------------------------------- *)
(** ** The executor's writes to a row *)
(* --------------------------------------------------------------------- *)

Section RowWrites.
Import DownloadService.
Variable dl : Download.

Lemma wp_update_status st started Q E s :
  match downloads s !! id dl with
  | Some d =>
      Q tt (put_download
              (set_updated_at (clock s (ticks s))
                 (match started with
                  | Some t => set_started_at (Some t) (set_status st d)
                  | None => set_status st d
                  end)) (tick s))
  | None => E NoResultFound s
  end ->
  wp (_update_status dl st started) Q E s.
Proof.
  unfold wp, _update_status. run_step.
  destruct (downloads s !! id dl); cbn; [|done]. by destruct started.
Qed.

Lemma wp_update_progress p Q E s :
  match downloads s !! id dl with
  | Some d =>
      Q tt (put_download
              (set_updated_at (clock s (ticks s))
                 (set_progress (py_min 1 (py_max 0 p)) d)) (tick s))
  | None => E NoResultFound s
  end ->
  wp (_update_progress dl p) Q E s.
Proof.
  unfold wp, _update_progress. run_step.
  by destruct (downloads s !! id dl).
Qed.

Lemma wp_mark_failed msg Q E s :
  match downloads s !! id dl with
  | Some d =>
      Q false (put_download
                 (set_updated_at (clock s (ticks s))
                    (set_retry_count (retry_count d + 1)
                       (set_error_message (Some msg) (set_status failed d))))
                 (tick s))
  | None => E NoResultFound s
  end ->
  wp (_mark_failed dl msg) Q E s.
Proof.
  unfold wp, _mark_failed. run_step.
  by destruct (downloads s !! id dl).
Qed.

Lemma wp_mark_complete path Q E s :
  match files s !! path with
  | None => E (FileNotFoundError path) s
  | Some content =>
      match downloads s !! id dl with
      | Some d =>
          Q true (put_download
                    (set_error_message None
                       (set_updated_at (clock s (S (ticks s)))
                          (set_completed_at (Some (clock s (ticks s)))
                             (set_file_size (Some (Z.of_nat (length content)))
                                (set_progress 1 (set_status completed d))))))
                    (tick (tick s)))
      | None => E NoResultFound s
      end
  end ->
  wp (_mark_complete dl path) Q E s.
Proof.
  unfold wp, _mark_complete, stat_size. run_step.
  destruct (files s !! path); cbn; [|done].
  by destruct (downloads s !! id dl).
Qed.

End RowWrites.

(* --------------------------------------------------------------------- *)
(** ** A run of the executor, step by step *)
(* --------------------------------------------------------------------- *)

(** The assertions a proof about [download_episode] has to supply: [Pre]
    holds until the row is set to downloading, [Mid w] while the body is
    streamed ([w] is what this run has written so far), [Exc] where
    something is raised under [try], [Post] and [Err] at the end. *)
Section Run.
Import DownloadService.
Variables (net : Network) (episode : Episode) (path : string) (dl : Download).
Variable rp : Z.
Variable Pre : State -> Prop.
Variable Mid : bytes -> State -> Prop.
Variable Exc : exn -> State -> Prop.
Variable Post : bool -> State -> Prop.
Variable Err : exn -> State -> Prop.

Local Abbreviation sent := (request_of net episode rp).

Hypothesis pre_tick : forall s, Pre s -> Pre (tick s).
Hypothesis pre_raise :
  forall s e, Pre s -> stream_get net sent = inl e -> Exc e s.
Hypothesis pre_complete :
  forall s response, Pre s ->
    stream_get net sent = inr response ->
    status_code response = 416 ->
    wp (_mark_complete dl path) Post Exc s.
Hypothesis pre_fail :
  forall s response, Pre s ->
    stream_get net sent = inr response ->
    status_code response <> 416 ->
    ~ (status_code response = 200 \/ status_code response = 206) ->
    wp (_mark_failed dl
          ("HTTP " +:+ pretty (status_code response) +:+ ": "
             +:+ reason_phrase response)) Post Exc s.
Hypothesis pre_start :
  forall s t response, Pre s ->
    stream_get net sent = inr response ->
    status_code response = 200 \/ status_code response = 206 ->
    wp (_update_status dl downloading (Some t);; open_file path (open_mode rp))
       (fun _ s' => Mid [] s') Exc s.
Hypothesis mid_write :
  forall s w chunk, Mid w s -> Mid (w ++ chunk) (snd (write_chunk path chunk s)).
Hypothesis mid_progress :
  forall s w response, Mid w s ->
    stream_get net sent = inr response ->
    wp (_update_progress dl
          (py_div (rp + Z.of_nat (length w)) (expected_total_size response rp)))
       (fun _ s' => Mid w s') Exc s.
Hypothesis mid_abort :
  forall s response e, Mid (concat (chunks response)) s ->
    stream_get net sent = inr response ->
    stream_error response = Some e -> Exc e s.
Hypothesis mid_finish :
  forall s response, Mid (concat (chunks response)) s ->
    stream_get net sent = inr response ->
    status_code response = 200 \/ status_code response = 206 ->
    stream_error response = None ->
    wp (verify_and_finish dl path (expected_total_size response rp))
       Post Exc s.
Hypothesis handler :
  forall s e msg, Exc e s -> wp (_mark_failed dl msg) Post Err s.

(** The loop keeps [downloaded_bytes] at the offset plus what it wrote. *)
Lemma stream_loop_wp (response : Response) (body : list bytes) :
  stream_get net sent = inr response ->
  forall w last s,
    Mid w s ->
    wp (stream_loop dl path (expected_total_size response rp) body
          (rp + Z.of_nat (length w)) last)
       (fun r s' =>
          Mid (w ++ concat body) s'
          /\ fst r = rp + Z.of_nat (length (w ++ concat body)))
       Exc s.
Proof.
  intros Hget.
  induction body as [|chunk rest IH]; intros w last s Hmid.
  - cbn [stream_loop concat]. apply wp_ret. by rewrite app_nil_r.
  - cbn [stream_loop concat]. apply wp_bind.
    replace (rp + Z.of_nat (length w) + Z.of_nat (length chunk))
      with (rp + Z.of_nat (length (w ++ chunk)))
      by (rewrite length_app; lia).
    assert (forall last' s1, Mid (w ++ chunk) s1 ->
      wp (stream_loop dl path (expected_total_size response rp) rest
            (rp + Z.of_nat (length (w ++ chunk))) last')
         (fun r s' =>
            Mid (w ++ chunk ++ concat rest) s'
            /\ fst r = rp + Z.of_nat (length (w ++ chunk ++ concat rest)))
         Exc s1) as Hrest.
    { intros last' s1 H1. rewrite (app_assoc w). by apply IH. }
    unfold write_chunk at 1. apply wp_modify.
    pose proof (mid_write s w chunk Hmid) as Hw. cbn in Hw.
    case (0 <? expected_total_size response rp); [|by apply Hrest].
    case (Qge_bool _ _); [|by apply Hrest].
    apply wp_bind. eapply wp_mono; [| |apply (mid_progress _ _ _ Hw Hget)].
    + intros u s' Hs'. by apply Hrest.
    + done.
Qed.

Lemma transfer_wp (s : State) :
  Pre s ->
  wp (transfer net (req_url sent) (_is_signed_url (audio_url episode))
        rp path dl)
     Post Exc s.
Proof.
  intros Hpre. unfold transfer, client_stream. apply wp_bind.
  change (mkRequest (req_url sent)
            (request_headers (_is_signed_url (audio_url episode)) rp))
    with sent.
  assert (exists r, stream_get net sent = r) as [r Hget] by eauto.
  rewrite Hget. destruct r as [e|response].
  { apply wp_raise. by apply pre_raise. }
  apply wp_ret.
  destruct (status_code response =? 416) eqn:H1.
  { apply (pre_complete _ response); [done..|lia]. }
  assert (negb ((status_code response =? 200) || (status_code response =? 206))
            = false <-> status_code response = 200 \/ status_code response = 206)
    as Hok by lia.
  destruct (negb _).
  { apply (pre_fail _ response); [done..|lia|]. intros H. apply Hok in H.
    discriminate. }
  apply proj1 in Hok. specialize (Hok eq_refl).
  apply wp_bind, wp_utcnow. apply wp_bind_assoc, wp_bind.
  eapply wp_mono; [| |apply (pre_start _ _ response); auto]; [|done].
  intros u s1 Hmid. apply wp_bind.
  replace rp with (rp + Z.of_nat (length (@nil Byte.byte))) at 2
    by (cbn; lia).
  eapply wp_mono;
    [| |apply (stream_loop_wp response _ Hget [] _ _ Hmid)]; [|done].
  intros [downloaded last] s2 [Hmid2 Hcount].
  cbn [app fst] in Hmid2, Hcount.
  destruct (stream_error response) as [e|] eqn:Herr.
  { apply wp_raise. by eapply mid_abort. }
  apply wp_bind.
  assert (forall s3, Mid (concat (chunks response)) s3 ->
            wp (verify_and_finish dl path (expected_total_size response rp))
               Post Exc s3) as Hfin.
  { intros s3 H3. by apply (mid_finish s3 response). }
  destruct (_ && _).
  - rewrite Hcount.
    eapply wp_mono; [| |apply (mid_progress _ _ _ Hmid2 Hget)]; [|done].
    intros u' s3 H3. by apply Hfin.
  - apply wp_ret. by apply Hfin.
Qed.

(** The whole run: [Post] when it returns, [Err] when it raises. *)
Lemma download_episode_wp (s : State) :
  Pre s -> resume_offset s path = rp ->
  wp (download_episode net episode path dl) Post Err s.
Proof.
  intros Hpre Hrp. unfold download_episode. apply wp_bind, wp_get_state.
  rewrite Hrp. apply wp_try.
  eapply wp_mono; [| |apply (transfer_wp s Hpre)]; [done|].
  intros e s' Hs'. cbn beta.
  destruct (is_http_error e); by apply (handler s' e).
Qed.

End Run.

(* --------------------------------------------------------------------- *)
(** ** The retry counter *)
(* --------------------------------------------------------------------- *)

Lemma has_retry_tick k r s : has_retry k r s -> has_retry k r (tick s).
Proof. done. Qed.

Lemma has_retry_files k r s fs : has_retry k r s -> has_retry k r (set_files fs s).
Proof. done. Qed.

Lemma has_retry_put k r r' s d :
  has_retry k r s -> id d = k -> retry_count d = r' ->
  has_retry k r' (put_download d s).
Proof.
  intros [Hwk _] <- <-. split; [by apply well_keyed_commit|].
  exists d. split; [|done]. cbn. apply lookup_insert_eq.
Qed.

Section RetryRun.
Import DownloadService.
Variables (net : Network) (episode : Episode) (path : string) (dl : Download).
Variable r : Z.

(** Every write of the executor to the row, from a state where the row
    has failed [r] times. *)
Ltac with_row H :=
  let Hwk := fresh "Hwk" in let d := fresh "d" in
  let Hd := fresh "Hd" in let Hr := fresh "Hr" in
  pose proof H as [Hwk (d & Hd & Hr)];
  pose proof (well_keyed_lookup _ _ _ Hwk Hd).

Lemma retry_mark_failed s msg E :
  has_retry (id dl) r s ->
  wp (_mark_failed dl msg) (after_attempt (id dl) r) E s.
Proof.
  intros H. with_row H. apply wp_mark_failed. rewrite Hd.
  destruct (has_retry_put _ _ (r + 1) (tick s)
              (set_updated_at (clock s (ticks s))
                 (set_retry_count (retry_count d + 1)
                    (set_error_message (Some msg) (set_status failed d)))) H)
    as [Hwk' (d' & Hd' & Hr')]; [done | cbn; lia |].
  split; [done|]. exists d'. split; [done|]. split; [done|].
  cbn in Hd'. rewrite H0, lookup_insert_eq in Hd'. by injection Hd' as <-.
Qed.

Lemma retry_mark_complete s :
  has_retry (id dl) r s ->
  wp (_mark_complete dl path) (after_attempt (id dl) r)
     (fun _ s' => has_retry (id dl) r s') s.
Proof.
  intros H. with_row H. apply wp_mark_complete.
  destruct (files s !! path); [|done]. rewrite Hd.
  split.
  - apply (well_keyed_commit (tick (tick s))); done.
  - eexists. split; [cbn; rewrite H0; apply lookup_insert_eq|].
    cbn. split; [lia|done].
Qed.

Lemma retry_update_status s st started :
  has_retry (id dl) r s ->
  wp (_update_status dl st started)
     (fun _ s' => has_retry (id dl) r s') (fun _ s' => has_retry (id dl) r s') s.
Proof.
  intros H. with_row H. apply wp_update_status. rewrite Hd.
  apply (has_retry_put _ r); [done| |]; by destruct started.
Qed.

Lemma retry_update_progress s p :
  has_retry (id dl) r s ->
  wp (_update_progress dl p)
     (fun _ s' => has_retry (id dl) r s') (fun _ s' => has_retry (id dl) r s') s.
Proof.
  intros H. with_row H. apply wp_update_progress. rewrite Hd.
  by apply (has_retry_put _ r).
Qed.

(** An attempt on an existing row returns, and adds one to the counter
    exactly when it returns [False]. *)
Lemma download_episode_retry (s : State) :
  has_retry (id dl) r s ->
  exists res s',
    download_episode net episode path dl s = (inr res, s')
    /\ after_attempt (id dl) r res s'.
Proof.
  intros H. apply wp_returns.
  apply (download_episode_wp net episode path dl (resume_offset s path)
           (has_retry (id dl) r) (fun _ => has_retry (id dl) r)
           (fun _ => has_retry (id dl) r)
           (after_attempt (id dl) r) (fun _ _ => False)).
  - done.
  - done.
  - intros. by apply retry_mark_complete.
  - intros. by apply retry_mark_failed.
  - intros s0 t response H0 _ _. apply wp_bind.
    eapply wp_mono; [| |by apply retry_update_status]; [|done].
    intros u s1 H1. unfold open_file. apply wp_modify.
    destruct (open_mode _), (files s1 !! path); done.
  - done.
  - intros. by apply retry_update_progress.
  - done.
  - intros s0 response H0 _ _ _. unfold verify_and_finish, stat_size.
    apply wp_bind, wp_bind, wp_get_state.
    destruct (files s0 !! path); [|by apply wp_raise]. apply wp_ret.
    destruct (_ && _).
    + by apply retry_mark_failed.
    + by apply retry_mark_complete.
  - intros. by apply retry_mark_failed.
  - done.
  - done.
Qed.

End RetryRun.

Section Lifecycle.
Import DownloadEngine.

Lemma has_retry_put_other k r s d :
  has_retry k r s -> id d <> k -> has_retry k r (put_download d s).
Proof.
  intros [Hwk (d0 & Hd0 & Hr)] Hne. split; [by apply well_keyed_commit|].
  exists d0. split; [|done]. cbn. by rewrite lookup_insert_ne.
Qed.

Lemma insert_by_perm {A} (le : A -> A -> bool) (x : A) (l : list A) :
  insert_by le x l ≡ₚ x :: l.
Proof.
  induction l as [|y l IH]; cbn; [done|].
  destruct (le x y); [done|]. rewrite IH. apply Permutation_swap.
Qed.

Lemma sort_by_perm {A} (le : A -> A -> bool) (l : list A) : sort_by le l ≡ₚ l.
Proof.
  induction l as [|x l IH]; cbn; [done|].
  by rewrite insert_by_perm, IH.
Qed.

Lemma select_contains (s : State) (k : Z) (d : Download) :
  downloads s !! k = Some d -> d ∈ select_downloads_by_episode s (episode_id d).
Proof.
  intros Hd. unfold select_downloads_by_episode.
  apply list_elem_of_filter. split; [done|].
  apply list_elem_of_fmap. exists (k, d). split; [done|].
  by apply elem_of_map_to_list.
Qed.

Lemma readmit_retry (fm : FileManager.t) (k r : Z) (s : State) (d : Download) :
  has_retry k r s -> downloads s !! k = Some d ->
  has_retry k r (snd (queue_episode_download fm (episode_id d) s)).
Proof.
  intros H Hd. pose proof H as [Hwk (d0 & Hd0 & Hr)].
  assert (d0 = d) as -> by congruence.
  pose proof (well_keyed_lookup _ _ _ Hwk Hd) as Hid.
  pose proof (select_contains _ _ _ Hd) as Hin.
  unfold queue_episode_download. run_keep.
  destruct (episodes s !! episode_id d); cbn; [|done].
  destruct (select_downloads_by_episode s (episode_id d)) as [|x [|y l]]; cbn.
  - by apply elem_of_nil in Hin.
  - apply list_elem_of_singleton in Hin as <-.
    destruct (status d); cbn; try done;
      (apply (has_retry_put _ r); [by apply has_retry_tick|done..]).
  - done.
Qed.

Lemma reset_each_retry (k r : Z) (rows : list Download) :
  forall s,
    has_retry k r s ->
    (forall x, x ∈ rows -> id x = k -> retry_count x = r) ->
    has_retry k r (snd (reset_each rows s)).
Proof.
  induction rows as [|x rows IH]; intros s H Hrows; [done|].
  cbn [reset_each]. run_keep.
  match goal with
  | |- has_retry _ _ (snd (reset_each rows ?s1)) => apply (IH s1)
  end.
  - destruct (decide (id x = k)) as [Hk | Hk].
    + apply (has_retry_put _ r); [by apply has_retry_tick|done|].
      cbn. apply Hrows; [by left|done].
    + apply has_retry_put_other; [by apply has_retry_tick|done].
  - intros y Hy. apply Hrows. by right.
Qed.

Lemma sweep_retry (max_retries k r : Z) (s : State) :
  has_retry k r s ->
  has_retry k r (snd (reset_failed_downloads max_retries s)).
Proof.
  intros H. pose proof H as [Hwk (d & Hd & Hr)].
  unfold reset_failed_downloads. run_step.
  assert (forall x, x ∈ select_failed max_retries s -> id x = k ->
                    retry_count x = r) as Hrows.
  { intros x Hx Hk. unfold select_failed in Hx.
    rewrite sort_by_perm in Hx. apply list_elem_of_filter in Hx as [_ Hx].
    apply list_elem_of_fmap in Hx as ([k' x'] & -> & Hx).
    apply elem_of_map_to_list in Hx. cbn in Hk.
    pose proof (well_keyed_lookup _ _ _ Hwk Hx). cbn. congruence. }
  pose proof (reset_each_retry k r (select_failed max_retries s) s H Hrows)
    as Hreset.
  destruct (select_failed max_retries s) as [|x rows]; [done|].
  remember (x :: rows) as l.
  unfold mbind, M_bind in Hreset |- *.
  by destruct (reset_each l s) as [[e|u] s'].
Qed.

Lemma cancel_retry (k r : Z) (s : State) :
  has_retry k r s -> has_retry k r (snd (cancel_download k s)).
Proof.
  intros H. pose proof H as [Hwk (d & Hd & Hr)].
  pose proof (well_keyed_lookup _ _ _ Hwk Hd) as Hid.
  unfold cancel_download. run_keep. rewrite Hd. cbn.
  destruct (bool_decide _); cbn; [done|].
  apply (has_retry_put _ r); [by apply has_retry_tick|done..].
Qed.

Lemma life_step_retry (k r : Z) (op : LifeOp) (s : State) :
  has_retry k r s ->
  has_retry k (r + if snd (life_step k op s) then 1 else 0)
            (fst (life_step k op s)).
Proof.
  intros H. pose proof H as [Hwk (d & Hd & Hr)].
  pose proof (well_keyed_lookup _ _ _ Hwk Hd) as Hid.
  unfold life_step. rewrite Hd. destruct op; cbn [fst snd].
  - rewrite <- Hid in H.
    destruct (download_episode_retry net episode path d r s H)
      as (res & s' & -> & Hwk' & d' & Hd' & Hr' & _).
    rewrite Hid in Hd'. destruct res; cbn [fst snd]; split; eauto.
  - rewrite Z.add_0_r. by apply readmit_retry.
  - rewrite Z.add_0_r. by apply sweep_retry.
  - rewrite Z.add_0_r. by apply cancel_retry.
Qed.

Lemma life_retry (k : Z) (ops : list LifeOp) :
  forall r s,
    has_retry k r s ->
    has_retry k (r + snd (life k ops s)) (fst (life k ops s))
    /\ 0 <= snd (life k ops s) <= Z.of_nat (length ops).
Proof.
  induction ops as [|op ops IH]; intros r s H; cbn [life].
  - cbn. rewrite Z.add_0_r. split; [done|lia].
  - pose proof (life_step_retry k r op s H) as Hstep.
    destruct (life_step k op s) as [s1 b]. cbn [fst snd] in Hstep.
    destruct (IH _ _ Hstep) as [Hrest Hn].
    destruct (life k ops s1) as [s2 n]. cbn [fst snd] in *.
    split.
    + by replace (r + ((if b then 1 else 0) + n))
        with (r + (if b then 1 else 0) + n) by lia.
    + destruct b; cbn [length]; lia.
Qed.

Lemma life_app (k : Z) (ops more : list LifeOp) (s : State) :
  life k (ops ++ more) s =
    (fst (life k more (fst (life k ops s))),
     snd (life k ops s) + snd (life k more (fst (life k ops s)))).
Proof.
  revert s. induction ops as [|op ops IH]; intros s; cbn [life app].
  - cbn. by destruct (life k more s).
  - destruct (life_step k op s) as [s1 b]. rewrite IH.
    destruct (life k ops s1) as [s2 n]. cbn [fst snd].
    f_equal. lia.
Qed.

(** C7. Through any history of a row (transfer attempts, new
    admissions, retry sweeps, cancellations) the row stays in the table
    and its [retry_count] is the count it started with plus the number of
    attempts that failed: one more per failed attempt, so [N] after [N]
    failures of a fresh row.  No operation lowers it, a new admission
    included: whatever follows the history, the count is at least what it
    was. *)
Theorem retry_count_counts_failures (k : Z) (ops : list LifeOp) (s : State)
    (d : Download) :
  well_keyed s -> downloads s !! k = Some d ->
  exists d',
    downloads (fst (life k ops s)) !! k = Some d'
    /\ retry_count d' = retry_count d + snd (life k ops s)
    /\ 0 <= snd (life k ops s) <= Z.of_nat (length ops)
    /\ forall more, exists d'',
         downloads (fst (life k (ops ++ more) s)) !! k = Some d''
         /\ retry_count d' <= retry_count d''.
Proof.
  intros Hwk Hd.
  assert (has_retry k (retry_count d) s) as H by (split; eauto).
  destruct (life_retry k ops _ _ H) as [[Hwk1 (d' & Hd' & Hr')] Hn].
  exists d'. repeat split; try done; try lia.
  intros more. rewrite life_app. cbn [fst snd].
  assert (has_retry k (retry_count d') (fst (life k ops s))) as H1
    by (split; eauto).
  destruct (life_retry k more _ _ H1) as [[_ (d'' & Hd'' & Hr'')] Hm].
  exists d''. split; [done|lia].
Qed.

End Lifecycle.

Lemma retry_count_witness :
  let ep := Fixtures.episode_of 1 None in
  let d0 := Fixtures.download_of 1 pending (Some "News/a.mp3"%string) in
  let s0 := Fixtures.state_of [ep] [d0] [] in
  let attempt := Attempt (Fixtures.net_status 404 "Not Found") ep "/a.mp3" in
  exists d',
    downloads (fst (life 1 [attempt; RetrySweep 3; attempt] s0)) !! 1 = Some d'
    /\ retry_count d' = 2.
Proof.
  intros ep d0 s0 attempt.
  destruct (retry_count_counts_failures 1 [attempt; RetrySweep 3; attempt]
              s0 d0) as (d' & Hd' & Hr & _).
  - by_compute.
  - reflexivity.
  - exists d'. split; [exact Hd'|]. rewrite Hr. vm_compute. reflexivity.
Defined.

(* --------------------------------------------------------------------- *)
(** ** The progress column *)
(* --------------------------------------------------------------------- *)

Lemma clamp_bounds (p : Q) :
  (0 <= py_min 1 (py_max 0 p))%Q /\ (py_min 1 (py_max 0 p) <= 1)%Q.
Proof.
  unfold py_min, py_max.
  destruct (Qle_bool p 0) eqn:Hp.
  - cbn. split; discriminate.
  - assert (0 <= p)%Q as Hp'.
    { apply Qlt_le_weak, Qnot_le_lt. intros H.
      apply Qle_bool_iff in H. congruence. }
    destruct (Qle_bool 1 p) eqn:H1.
    + split; discriminate.
    + split; [done|]. apply Qlt_le_weak, Qnot_le_lt. intros H.
      apply Qle_bool_iff in H. congruence.
Qed.

Section Progress.
Import DownloadService DownloadEngine.
Variable strict : bool.

Lemma rows_ok_put (s : State) (d : Download) :
  rows_ok strict s -> row_ok strict d -> rows_ok strict (put_download d s).
Proof. intros Hs Hd. by apply map_Forall_insert_2. Qed.

Lemma rows_ok_lookup (s : State) (k : Z) (d : Download) :
  rows_ok strict s -> downloads s !! k = Some d -> id d = k /\ row_ok strict d.
Proof. intros Hs Hd. exact (map_Forall_lookup_1 _ _ _ _ Hs Hd). Qed.

Lemma rows_ok_tick (s : State) : rows_ok strict s -> rows_ok strict (tick s).
Proof. done. Qed.

Lemma row_ok_failed (d : Download) msg t :
  row_ok strict d ->
  row_ok strict
    (set_updated_at t
       (set_retry_count (retry_count d + 1)
          (set_error_message (Some msg) (set_status failed d)))).
Proof. intros (H0 & H1 & _). by repeat split. Qed.

Lemma row_ok_complete (d : Download) size t1 t2 :
  row_ok strict
    (set_error_message None
       (set_updated_at t2
          (set_completed_at t1
             (set_file_size size (set_progress 1 (set_status completed d)))))).
Proof. by repeat split. Qed.

Lemma row_ok_status (d : Download) st started t :
  (strict = true -> st <> completed) ->
  row_ok strict d ->
  row_ok strict
    (set_updated_at t
       (match started with
        | Some t0 => set_started_at (Some t0) (set_status st d)
        | None => set_status st d
        end)).
Proof.
  intros Hst (H0 & H1 & _).
  destruct started; repeat split; try done; cbn; intros Hs Hc;
    by destruct (Hst Hs).
Qed.

Lemma row_ok_progress (d : Download) p t :
  (strict = true -> status d <> completed) ->
  row_ok strict (set_updated_at t (set_progress (py_min 1 (py_max 0 p)) d)).
Proof.
  intros Hst. destruct (clamp_bounds p) as [H0 H1].
  repeat split; try done. cbn. intros Hs Hc. by destruct (Hst Hs).
Qed.

Lemma row_ok_reset (d : Download) :
  row_ok strict (set_progress 0 (set_status pending d)).
Proof. by repeat split. Qed.

Lemma ok_mark_failed dl msg s :
  rows_ok strict s ->
  wp (_mark_failed dl msg) (fun _ => rows_ok strict) (fun _ => rows_ok strict) s.
Proof.
  intros Hs. apply wp_mark_failed.
  destruct (downloads s !! id dl) as [d|] eqn:Hd; [|done].
  apply rows_ok_put; [done|].
  apply row_ok_failed. by eapply rows_ok_lookup.
Qed.

Lemma ok_mark_complete dl path s :
  rows_ok strict s ->
  wp (_mark_complete dl path) (fun _ => rows_ok strict)
     (fun _ => rows_ok strict) s.
Proof.
  intros Hs. apply wp_mark_complete.
  destruct (files s !! path); [|done].
  destruct (downloads s !! id dl) as [d|] eqn:Hd; [|done].
  apply rows_ok_put; [done|]. apply row_ok_complete.
Qed.

Lemma ok_update_status dl st started s :
  (strict = true -> st <> completed) ->
  rows_ok strict s ->
  wp (_update_status dl st started)
     (fun _ s' =>
        rows_ok strict s'
        /\ forall d, downloads s' !! id dl = Some d -> status d = st)
     (fun _ => rows_ok strict) s.
Proof.
  intros Hst Hs. apply wp_update_status.
  destruct (downloads s !! id dl) as [d|] eqn:Hd; [|done].
  destruct (rows_ok_lookup _ _ _ Hs Hd) as [Hid Hrow]. split.
  - apply rows_ok_put; [done|]. by apply row_ok_status.
  - intros d'. destruct started; cbn; rewrite Hid, lookup_insert_eq;
      by intros [= <-].
Qed.

Lemma ok_update_progress dl p s :
  streaming_ok strict (id dl) s ->
  wp (_update_progress dl p) (fun _ => streaming_ok strict (id dl))
     (fun _ => rows_ok strict) s.
Proof.
  intros [Hs Hk]. apply wp_update_progress.
  destruct (downloads s !! id dl) as [d|] eqn:Hd; [|done].
  destruct (rows_ok_lookup _ _ _ Hs Hd) as [Hid Hrow]. split.
  - apply rows_ok_put; [done|]. apply row_ok_progress. intros _. by apply Hk.
  - intros d'. cbn. rewrite Hid, lookup_insert_eq. intros [= <-]. cbn.
    by apply Hk.
Qed.

Lemma ok_update_progress_lax dl p s :
  strict = false -> rows_ok strict s ->
  wp (_update_progress dl p) (fun _ => rows_ok strict)
     (fun _ => rows_ok strict) s.
Proof.
  intros Hlax Hs. apply wp_update_progress.
  destruct (downloads s !! id dl) as [d|] eqn:Hd; [|done].
  apply rows_ok_put; [done|]. apply row_ok_progress. congruence.
Qed.

(** A whole run of the executor keeps the rows fine. *)
Lemma ok_download_episode net episode path dl s :
  rows_ok strict s ->
  wp (DownloadService.download_episode net episode path dl)
     (fun _ => rows_ok strict) (fun _ => rows_ok strict) s.
Proof.
  intros Hs.
  apply (download_episode_wp net episode path dl (resume_offset s path)
           (rows_ok strict) (fun _ => streaming_ok strict (id dl))
           (fun _ => rows_ok strict)
           (fun _ => rows_ok strict) (fun _ => rows_ok strict)).
  - done.
  - done.
  - intros. by apply ok_mark_complete.
  - intros. by apply ok_mark_failed.
  - intros s0 t response H0 _ _. apply wp_bind.
    eapply wp_mono; [| |apply ok_update_status; [done|exact H0]]; [|done].
    intros u s1 [H1 Hst]. unfold open_file. apply wp_modify.
    split.
    + destruct (open_mode _), (files s1 !! path); done.
    + intros d Hd. rewrite (Hst d); [done|].
      destruct (open_mode _), (files s1 !! path); done.
  - intros s0 w chunk [H0 Hk]. by split.
  - intros. by apply ok_update_progress.
  - by intros s0 response e [H0 _].
  - intros s0 response [H0 _] _ _ _. unfold verify_and_finish, stat_size.
    apply wp_bind, wp_bind, wp_get_state.
    destruct (files s0 !! path); [|by apply wp_raise]. apply wp_ret.
    destruct (_ && _).
    + by apply ok_mark_failed.
    + by apply ok_mark_complete.
  - intros. by apply ok_mark_failed.
  - done.
  - done.
Qed.

Lemma ok_queue fm e s :
  rows_ok strict s -> rows_ok strict (snd (queue_episode_download fm e s)).
Proof.
  intros Hs. unfold queue_episode_download, episode_podcast. run_keep.
  destruct (episodes s !! e) as [ep|]; cbn; [|done].
  destruct (select_downloads_by_episode s e) as [|x [|y l]]; cbn; [| |done].
  - destruct (podcasts s !! podcast_id ep) as [p|]; cbn; [|done].
    destruct (FileManager.get_episode_file_path fm ep p s) as [r s1] eqn:Hplan.
    apply get_episode_file_path_frame in Hplan as [n ->].
    destruct r as [err|[full rel]]; cbn; [done|].
    unfold FileManager.get_available_space. run_keep.
    assert (rows_ok strict (snd (add_download e rel (set_ticks n s)))) as Hadd.
    { unfold add_download. run_keep. cbn.
      apply (rows_ok_put (tick (tick (set_ticks n s)))); [done|].
      by repeat split. }
    destruct (truthy_int _); cbn; [|done].
    by destruct (_ <? _).
  - destruct (status x); cbn; try done;
      (apply rows_ok_put; [done|]; by repeat split).
Qed.

Lemma ok_cancel k s :
  rows_ok strict s -> rows_ok strict (snd (cancel_download k s)).
Proof.
  intros Hs. unfold cancel_download. run_keep.
  destruct (downloads s !! k) as [d|] eqn:Hd; cbn; [|done].
  destruct (bool_decide _) eqn:Hst; cbn; [done|].
  apply rows_ok_put; [done|].
  destruct (rows_ok_lookup _ _ _ Hs Hd) as [_ (H0 & H1 & _)].
  by repeat split.
Qed.

Lemma ok_reset_each rows :
  forall s, rows_ok strict s -> rows_ok strict (snd (reset_each rows s)).
Proof.
  induction rows as [|x rows IH]; intros s Hs; [done|].
  cbn [reset_each]. run_keep. apply IH.
  apply rows_ok_put; [done|]. by repeat split.
Qed.

Lemma ok_sweep max_retries s :
  rows_ok strict s -> rows_ok strict (snd (reset_failed_downloads max_retries s)).
Proof.
  intros Hs. unfold reset_failed_downloads. run_keep.
  pose proof (ok_reset_each (select_failed max_retries s) s Hs) as Hreset.
  destruct (select_failed max_retries s) as [|x rows]; [done|].
  remember (x :: rows) as l.
  by destruct (reset_each l s) as [[e|u] s'].
Qed.

Lemma wp_snd {A} (m : M A) (P : State -> Prop) s :
  wp m (fun _ => P) (fun _ => P) s -> P (snd (m s)).
Proof. unfold wp. by destruct (m s) as [[e|a] s']. Qed.

Lemma ok_run_op (op : Op) (s : State) :
  (strict = true -> orchestrated op = true) ->
  rows_ok strict s -> rows_ok strict (run_op op s).
Proof.
  intros Horch Hs. destruct op; cbn [run_op].
  - by apply ok_queue.
  - apply wp_snd. eapply wp_mono; [| |apply ok_update_status; [|done]].
    + by intros u s' [H1 _].
    + done.
    + intros Hstrict Hst. specialize (Horch Hstrict). cbn in Horch.
      apply negb_true_iff, bool_decide_eq_false in Horch. done.
  - apply wp_snd. apply ok_update_progress_lax; [|done].
    destruct strict; [|done]. by specialize (Horch eq_refl).
  - apply wp_snd. by apply ok_mark_complete.
  - apply wp_snd. by apply ok_mark_failed.
  - apply wp_snd. by apply ok_download_episode.
  - by apply ok_cancel.
  - by apply ok_sweep.
Qed.

Lemma ok_run_ops (ops : list Op) :
  forall s,
    (strict = true -> forallb orchestrated ops = true) ->
    rows_ok strict s -> rows_ok strict (run_ops ops s).
Proof.
  induction ops as [|op ops IH]; intros s Horch Hs; [done|].
  cbn [run_ops foldl]. apply IH.
  - intros Hstrict. specialize (Horch Hstrict). cbn in Horch.
    by apply andb_true_iff in Horch as [_ ?].
  - apply ok_run_op; [|done].
    intros Hstrict. specialize (Horch Hstrict). cbn in Horch.
    by apply andb_true_iff in Horch as [? _].
Qed.

End Progress.

(** C1, as amended.  After any sequence of the operations on download
    rows (admission, status update, progress update, mark-complete,
    mark-failed, whole transfers, cancellation, retry sweep) every row has
    its progress within [0, 1]; and when the operations are issued the way
    the engine and the executor issue them, every completed row has
    progress 1.0. *)
Theorem progress_invariant (ops : list Op) (s : State) :
  rows_ok false s ->
  (forall k d, downloads (run_ops ops s) !! k = Some d ->
     (0 <= progress d)%Q /\ (progress d <= 1)%Q)
  /\ (forallb orchestrated ops = true -> rows_ok true s ->
        forall k d, downloads (run_ops ops s) !! k = Some d ->
          status d = completed -> (progress d == 1)%Q).
Proof.
  intros Hs. split.
  - intros k d Hd.
    assert (rows_ok false (run_ops ops s)) as Hok
      by (by apply ok_run_ops).
    destruct (rows_ok_lookup _ _ _ _ Hok Hd) as [_ (H0 & H1 & _)]. done.
  - intros Horch Hstrict k d Hd Hst.
    assert (rows_ok true (run_ops ops s)) as Hok
      by (by apply ok_run_ops).
    destruct (rows_ok_lookup _ _ _ _ Hok Hd) as [_ (_ & _ & H2)]. by apply H2.
Qed.

Lemma progress_invariant_witness :
  let ep := Fixtures.episode_of 1 None in
  let d0 := Fixtures.download_of 1 pending (Some "News/a.mp3"%string) in
  let s0 := Fixtures.state_of [ep] [d0] [] in
  let ops := [OpTransfer (Fixtures.net_body 100 [Fixtures.zeros 100]) ep
                "/a.mp3" d0] in
  exists d,
    downloads (run_ops ops s0) !! 1 = Some d
    /\ status d = completed
    /\ (0 <= progress d)%Q /\ (progress d <= 1)%Q /\ (progress d == 1)%Q.
Proof.
  intros ep d0 s0 ops.
  assert (exists d, downloads (run_ops ops s0) !! 1 = Some d
                    /\ status d = completed) as (d & Hd & Hst).
  { eexists. split; [vm_compute; reflexivity|reflexivity]. }
  destruct (progress_invariant ops s0) as [Hbounds Hone]; [by_compute|].
  exists d. split; [exact Hd|]. split; [exact Hst|].
  destruct (Hbounds 1 d Hd) as [H0 H1]. split; [exact H0|].
  split; [exact H1|].
  apply (Hone eq_refl) with (k := 1); [by_compute|exact Hd|exact Hst].
Defined.

(** C1 fails from right to left: a transfer that receives 105 bytes
    where 100 were announced writes progress 1.0 in its last progress
    update and then marks the row failed. *)
Lemma progress_one_not_completed :
  let ep := Fixtures.episode_of 1 None in
  let d0 := Fixtures.download_of 1 pending (Some "News/a.mp3"%string) in
  let s0 := Fixtures.state_of [ep] [d0] [] in
  exists s' d',
    DownloadService.download_episode
      (Fixtures.net_body 100 [Fixtures.zeros 105]) ep "/a.mp3" d0 s0
      = (inr false, s')
    /\ downloads s' !! 1 = Some d'
    /\ status d' = failed
    /\ (progress d' == 1)%Q
    /\ ~ ((progress d' == 1)%Q <-> status d' = completed).
Proof.
  intros ep d0 s0. eexists _, _.
  split; [vm_compute; reflexivity|].
  split; [vm_compute; reflexivity|].
  split; [reflexivity|]. split; [reflexivity|].
  intros [H _]. by specialize (H eq_refl).
Qed.

(* --------------------------------------------------------------------- *)
(** ** A transfer whose stream ends without an error *)
(* --------------------------------------------------------------------- *)

Lemma beyond_tolerance_spec (T A : Z) :
  DownloadService.beyond_tolerance T A = true <-> T < 100 * Z.abs (A - T).
Proof.
  unfold DownloadService.beyond_tolerance, Qgt_bool, Qle_bool. cbn.
  rewrite negb_true_iff, Z.leb_gt. lia.
Qed.

Lemma beyond_tolerance_Q (T A : Z) :
  DownloadService.beyond_tolerance T A = false
  <-> (inject_Z (Z.abs (A - T)) <= (1 # 100) * inject_Z T)%Q.
Proof.
  unfold DownloadService.beyond_tolerance, Qgt_bool.
  rewrite negb_false_iff, Qle_bool_iff.
  by rewrite (Qmult_comm (1 # 100)).
Qed.

Section Finished.
Import DownloadService.
Variables (net : Network) (episode : Episode) (path : string) (dl : Download).
Variables (s : State) (d : Download) (response : Response).
Hypothesis Hwk : well_keyed s.
Hypothesis Hd : downloads s !! id dl = Some d.
Hypothesis Hget :
  stream_get net (request_of net episode (resume_offset s path)) = inr response.
Hypothesis Hstatus : status_code response = 200 \/ status_code response = 206.
Hypothesis Hclean : stream_error response = None.

Local Abbreviation rp := (resume_offset s path).
Local Abbreviation k := (id dl).
Local Abbreviation r := (retry_count d).
Local Abbreviation written w := (<[path := base_content s path ++ w]> (files s)).

Lemma run_state_tick fs s1 :
  run_state s k r fs s1 -> run_state s k r fs (tick s1).
Proof. done. Qed.

Lemma run_state_put fs s1 d1 r0 r1 :
  run_state s k r0 fs s1 -> id d1 = k -> retry_count d1 = r1 ->
  run_state s k r1 fs (put_download d1 s1).
Proof.
  intros (Hwk1 & Hfs & _ & Hother) Hid Hr. split; [by apply well_keyed_commit|].
  split; [done|]. split.
  - exists d1. split; [|done]. cbn. rewrite Hid. apply lookup_insert_eq.
  - intros j Hj. cbn. rewrite Hid, lookup_insert_ne by done. by apply Hother.
Qed.

Lemma run_state_row fs s1 :
  run_state s k r fs s1 ->
  exists d1, downloads s1 !! k = Some d1 /\ retry_count d1 = r /\ id d1 = k.
Proof.
  intros (Hwk1 & _ & (d1 & Hd1 & Hr1) & _). exists d1.
  repeat split; try done. by eapply well_keyed_lookup.
Qed.

Lemma finished_start s1 t :
  run_state s k r (files s) s1 ->
  wp (_update_status dl downloading (Some t);; open_file path (open_mode rp))
     (fun _ s' => run_state s k r (written []) s') (fun _ _ => False) s1.
Proof.
  intros H1. destruct (run_state_row _ _ H1) as (d1 & Hd1 & Hr1 & Hid1).
  apply wp_bind, wp_update_status. rewrite Hd1.
  unfold open_file. apply wp_modify.
  pose proof (run_state_put _ _
    (set_updated_at (clock s1 (ticks s1))
       (set_started_at (Some t) (set_status downloading d1))) _ _
    (run_state_tick _ _ H1) Hid1 Hr1) as H2.
  remember (put_download _ (tick s1)) as s2 eqn:Hs2. clear Hs2.
  destruct H2 as (Hwk2 & Hfs2 & Hrow2 & Hother2).
  rewrite app_nil_r, Hfs2. unfold base_content, open_mode, resume_offset.
  destruct (files s !! path) as [content|] eqn:Hfile; cbn [default].
  - destruct (0 <? Z.of_nat (length content)) eqn:Hlen.
    + cbn. split; [done|]. split; [|done]. rewrite Hfs2.
      symmetry. by apply insert_id.
    + by split.
  - by split.
Qed.

Lemma finished_write s1 w chunk :
  run_state s k r (written w) s1 ->
  run_state s k r (written (w ++ chunk)) (snd (write_chunk path chunk s1)).
Proof.
  intros (Hwk1 & Hfs & Hrow & Hother). split; [done|]. split; [|done].
  cbn. rewrite Hfs, lookup_insert_eq. cbn.
  by rewrite insert_insert_eq, !app_assoc.
Qed.

Lemma finished_progress s1 w p :
  run_state s k r (written w) s1 ->
  wp (_update_progress dl p)
     (fun _ s' => run_state s k r (written w) s') (fun _ _ => False) s1.
Proof.
  intros H1. destruct (run_state_row _ _ H1) as (d1 & Hd1 & Hr1 & Hid1).
  apply wp_update_progress. rewrite Hd1.
  by eapply run_state_put; [apply run_state_tick|..].
Qed.

Lemma finished_verify s1 :
  run_state s k r (written (concat (chunks response))) s1 ->
  wp (verify_and_finish dl path (expected_total_size response rp))
     (fun res s' =>
        well_keyed s'
        /\ files s' = written (concat (chunks response))
        /\ (forall j, j <> k -> downloads s' !! j = downloads s !! j)
        /\ exists d',
             downloads s' !! k = Some d'
             /\ finished_row (expected_total_size response rp)
                  (Z.of_nat (length (base_content s path
                                       ++ concat (chunks response))))
                  r res d')
     (fun _ _ => False) s1.
Proof.
  intros H1. destruct (run_state_row _ _ H1) as (d1 & Hd1 & Hr1 & Hid1).
  pose proof H1 as (_ & Hfs & _).
  unfold verify_and_finish, stat_size. apply wp_bind, wp_bind, wp_get_state.
  rewrite Hfs, lookup_insert_eq. apply wp_ret.
  unfold finished_row.
  destruct (_ && _).
  - apply wp_mark_failed. rewrite Hd1.
    destruct (run_state_put (written (concat (chunks response))) _
      (set_updated_at (clock s1 (ticks s1))
         (set_retry_count (retry_count d1 + 1)
            (set_error_message
               (Some (size_mismatch_message (expected_total_size response rp)
                        (Z.of_nat (length (base_content s path
                                             ++ concat (chunks response))))))
               (set_status failed d1)))) _ _
      (run_state_tick _ _ H1) Hid1 eq_refl) as (Hwk2 & Hfs2 & _ & Hother2).
    split; [done|]. split; [done|]. split; [done|].
    eexists. split; [cbn; rewrite Hid1; apply lookup_insert_eq|].
    cbn. repeat split. lia.
  - apply wp_mark_complete. rewrite Hfs, lookup_insert_eq, Hd1.
    destruct (run_state_put (written (concat (chunks response))) _
      (set_error_message None
         (set_updated_at (clock s1 (S (ticks s1)))
            (set_completed_at (Some (clock s1 (ticks s1)))
               (set_file_size
                  (Some (Z.of_nat (length (base_content s path
                                             ++ concat (chunks response)))))
                  (set_progress 1 (set_status completed d1)))))) _ _
      (run_state_tick _ _ (run_state_tick _ _ H1)) Hid1 Hr1)
      as (Hwk2 & Hfs2 & _ & Hother2).
    split; [done|]. split; [done|]. split; [done|].
    eexists. split; [cbn; rewrite Hid1; apply lookup_insert_eq|].
    cbn. by repeat split.
Qed.

(** The run returns; the destination holds what it held (when resuming)
    followed by the body; the row is completed or failed as the size
    check decides. *)
Lemma download_episode_finished :
  exists res s' d',
    download_episode net episode path dl s = (inr res, s')
    /\ well_keyed s'
    /\ files s' !! path
         = Some (base_content s path ++ concat (chunks response))
    /\ (forall j, j <> k -> downloads s' !! j = downloads s !! j)
    /\ downloads s' !! k = Some d'
    /\ finished_row (expected_total_size response rp)
         (Z.of_nat (length (base_content s path ++ concat (chunks response))))
         r res d'.
Proof.
  assert (wp (download_episode net episode path dl)
    (fun res s' =>
        well_keyed s'
        /\ files s' = written (concat (chunks response))
        /\ (forall j, j <> k -> downloads s' !! j = downloads s !! j)
        /\ exists d',
             downloads s' !! k = Some d'
             /\ finished_row (expected_total_size response rp)
                  (Z.of_nat (length (base_content s path
                                       ++ concat (chunks response))))
                  r res d')
    (fun _ _ => False) s) as Hwp.
  { apply (download_episode_wp net episode path dl rp
             (run_state s k r (files s))
             (fun w => run_state s k r (written w))
             (fun _ _ => False)).
    - apply run_state_tick.
    - intros s1 e _ He. congruence.
    - intros s1 response' _ Hget' H416.
      assert (response' = response) as -> by congruence. lia.
    - intros s1 response' _ Hget' _ Hbad.
      assert (response' = response) as -> by congruence. done.
    - intros s1 t response' H1 _ _. by apply finished_start.
    - apply finished_write.
    - intros s1 w response' H1 _. by apply finished_progress.
    - intros s1 response' e _ Hget' Herr.
      assert (response' = response) as -> by congruence. congruence.
    - intros s1 response' H1 Hget' _ _.
      assert (response' = response) as -> by congruence.
      by apply finished_verify.
    - done.
    - split; [done|]. split; [done|]. split; [|done]. by exists d.
    - done. }
  apply wp_returns in Hwp as (res & s' & Hrun & Hwk' & Hfs & Hother & d' & Hd' & Hrow).
  exists res, s', d'. split; [done|]. split; [done|].
  split; [by rewrite Hfs, lookup_insert_eq|]. by split.
Qed.

End Finished.

(** C4. When the stream of a transfer has ended without an error, with
    expected total size [T] > 0 and the destination file then of size
    [A]: the row is marked completed if |A - T| <= 0.01 * T, and otherwise
    marked failed, with the message "Size mismatch: expected T, got A"
    recorded and [retry_count] one higher.  [T] is below 2^52 bytes,
    where the product [total_size * 0.01] of the code, a float, decides
    the comparison as the exact hundredth does. *)
Theorem size_check_spec (net : Network) (episode : Episode) (path : string)
    (dl d : Download) (s : State) (response : Response) :
  well_keyed s ->
  downloads s !! id dl = Some d ->
  stream_get net (request_of net episode (DownloadService.resume_offset s path))
    = inr response ->
  status_code response = 200 \/ status_code response = 206 ->
  stream_error response = None ->
  0 < DownloadService.expected_total_size response
        (DownloadService.resume_offset s path) < 2 ^ 52 ->
  exists res s' d' content,
    DownloadService.download_episode net episode path dl s = (inr res, s')
    /\ files s' !! path = Some content
    /\ content = base_content s path ++ concat (chunks response)
    /\ downloads s' !! id dl = Some d'
    /\ let T := DownloadService.expected_total_size response
                  (DownloadService.resume_offset s path) in
       let A := Z.of_nat (length content) in
       ((inject_Z (Z.abs (A - T)) <= (1 # 100) * inject_Z T)%Q ->
          res = true /\ status d' = completed /\ progress d' = 1%Q
          /\ error_message d' = None)
       /\ (~ (inject_Z (Z.abs (A - T)) <= (1 # 100) * inject_Z T)%Q ->
             res = false /\ status d' = failed
             /\ error_message d'
                  = Some ("Size mismatch: expected " +:+ pretty T +:+ ", got "
                            +:+ pretty A)
             /\ retry_count d' = retry_count d + 1).
Proof.
  intros Hwk Hd Hget Hstatus Hclean [HT _].
  destruct (download_episode_finished net episode path dl s d response
              Hwk Hd Hget Hstatus Hclean)
    as (res & s' & d' & Hrun & _ & Hfile & _ & Hd' & Hres & Hrow).
  exists res, s', d', (base_content s path ++ concat (chunks response)).
  split; [done|]. split; [done|]. split; [done|]. split; [done|].
  cbn zeta. rewrite <- beyond_tolerance_Q.
  set (T := DownloadService.expected_total_size response _) in *.
  set (A := Z.of_nat (length _)) in *.
  destruct (DownloadService.beyond_tolerance T A) eqn:Hbeyond.
  - assert ((0 <? T) && negb (A =? T) && true = true) as Hmis.
    { apply beyond_tolerance_spec in Hbeyond. lia. }
    rewrite Hmis in Hres, Hrow. destruct Hrow as (Hst & Hmsg & Hr).
    split; [done|]. intros _. by rewrite Hres.
  - rewrite andb_false_r in Hres, Hrow.
    destruct Hrow as (Hst & Hp & _ & Hmsg & _).
    split; [|done]. intros _. by rewrite Hres.
Qed.

(** The scenario of the specification: 1,000,000 bytes announced; with
    1,005,000 received the row is completed, with 1,050,000 it is failed. *)
Lemma size_check_witness :
  let ep := Fixtures.episode_of 1 None in
  let d0 := Fixtures.download_of 1 pending (Some "News/a.mp3"%string) in
  let s0 := Fixtures.state_of [ep] [d0] [] in
  (exists s' d',
     DownloadService.download_episode
       (Fixtures.net_body 1000000 [Fixtures.zeros 1005000]) ep "/a.mp3" d0 s0
       = (inr true, s')
     /\ downloads s' !! 1 = Some d' /\ status d' = completed)
  /\ (exists s' d',
        DownloadService.download_episode
          (Fixtures.net_body 1000000 [Fixtures.zeros 1050000]) ep "/a.mp3" d0 s0
          = (inr false, s')
        /\ downloads s' !! 1 = Some d' /\ status d' = failed).
Proof.
  intros ep d0 s0.
  assert (forall n, 0 <= n ->
            Z.of_nat (length (base_content s0 "/a.mp3"
                                ++ concat [Fixtures.zeros n])) = n) as Hlen.
  { intros n Hn. change (base_content s0 "/a.mp3") with (@nil Byte.byte).
    cbn [concat app]. rewrite app_nil_r. unfold Fixtures.zeros.
    rewrite length_replicate. lia. }
  split.
  - destruct (size_check_spec (Fixtures.net_body 1000000 [Fixtures.zeros 1005000])
                ep "/a.mp3" d0 d0 s0
                (mkResponse 200 "OK" (Some 1000000) None
                   [Fixtures.zeros 1005000] None))
      as (res & s' & d' & content & Hrun & _ & -> & Hd' & Hok & _).
    + by_compute.
    + reflexivity.
    + reflexivity.
    + by left.
    + reflexivity.
    + split; reflexivity.
    + destruct Hok as (-> & Hst & _).
      { cbn [chunks]. rewrite Hlen by lia. by vm_compute. }
      exists s', d'. split; [exact Hrun|]. split; [exact Hd'|exact Hst].
  - destruct (size_check_spec (Fixtures.net_body 1000000 [Fixtures.zeros 1050000])
                ep "/a.mp3" d0 d0 s0
                (mkResponse 200 "OK" (Some 1000000) None
                   [Fixtures.zeros 1050000] None))
      as (res & s' & d' & content & Hrun & _ & -> & Hd' & _ & Hbad).
    + by_compute.
    + reflexivity.
    + reflexivity.
    + by left.
    + reflexivity.
    + split; reflexivity.
    + destruct Hbad as (-> & Hst & _).
      { cbn [chunks]. rewrite Hlen by lia. vm_compute. intros H. by apply H. }
      exists s', d'. split; [exact Hrun|]. split; [exact Hd'|exact Hst].
Defined.

(* --------------------------------------------------------------------- *)
(** ** Resuming a partial file *)
(* --------------------------------------------------------------------- *)

Lemma request_of_range (net : Network) (episode : Episode) (S : Z) :
  0 < S ->
  range_header (request_of net episode S)
    = Some ("bytes=" +:+ pretty S +:+ "-").
Proof.
  intros HS. unfold range_header, request_of, DownloadService.request_headers.
  assert ((0 <? S) = true) as -> by lia.
  by destruct (DownloadService._is_signed_url _).
Qed.

Lemma resume_offset_partial (s : State) (path : string) (part : bytes) :
  files s !! path = Some part ->
  DownloadService.resume_offset s path = Z.of_nat (length part).
Proof. intros H. unfold DownloadService.resume_offset. by rewrite H. Qed.

Section Resume.
Import DownloadService.
Variables (net : Network) (episode : Episode) (path : string) (dl d : Download).
Variables (s : State) (part : bytes).
Hypothesis Hwk : well_keyed s.
Hypothesis Hd : downloads s !! id dl = Some d.
Hypothesis Hpart : files s !! path = Some part.
Hypothesis Hnonempty : 0 < Z.of_nat (length part).

Local Abbreviation S := (Z.of_nat (length part)).

Lemma base_content_partial : base_content s path = part.
Proof.
  unfold base_content. rewrite (resume_offset_partial _ _ _ Hpart), Hpart.
  by assert ((0 <? S) = true) as -> by lia.
Qed.

(** Against a server that honours the range request, the run completes
    and the destination holds the partial file followed by the rest of
    the source. *)
Lemma resume_completes (src : bytes) :
  S < Z.of_nat (length src) ->
  serves_range net src S ->
  exists s' d',
    download_episode net episode path dl s = (inr true, s')
    /\ files s' !! path = Some (part ++ drop (Z.to_nat S) src)
    /\ downloads s' !! id dl = Some d'
    /\ status d' = completed
    /\ file_size d' = Some (Z.of_nat (length src)).
Proof.
  intros Hlt Hserve.
  destruct (Hserve (request_of net episode S))
    as (response & Hget & H206 & Hcl & Hbody & Hclean).
  { by apply request_of_range. }
  rewrite <- (resume_offset_partial _ _ _ Hpart) in Hget.
  destruct (download_episode_finished net episode path dl s d response
              Hwk Hd Hget (or_intror H206) Hclean)
    as (res & s' & d' & Hrun & _ & Hfile & _ & Hd' & Hres & Hrow).
  rewrite base_content_partial, Hbody in Hfile, Hres, Hrow.
  assert (expected_total_size response (resume_offset s path)
            = Z.of_nat (length src)) as HT.
  { unfold expected_total_size.
    rewrite H206, Hcl, (resume_offset_partial _ _ _ Hpart). cbn. lia. }
  assert (Z.of_nat (length (part ++ drop (Z.to_nat S) src))
            = Z.of_nat (length src)) as HA.
  { rewrite length_app, length_drop. lia. }
  rewrite HT, HA, Z.eqb_refl, andb_false_r in Hres, Hrow. cbn in Hres, Hrow.
  destruct Hrow as (Hst & _ & Hsize & _).
  exists s', d'. rewrite Hres in Hrun. by repeat split.
Qed.

End Resume.

Section Count.
Import DownloadService.
Variables (net : Network) (episode : Episode) (path : string) (dl d : Download).
Variables (s : State) (part : bytes).
Hypothesis Hwk : well_keyed s.
Hypothesis Hd : downloads s !! id dl = Some d.
Hypothesis Hpart : files s !! path = Some part.
Hypothesis Hnonempty : 0 < Z.of_nat (length part).
Local Abbreviation S := (Z.of_nat (length part)).

(** The running byte count shows in the progress column: when the first
    chunk of a resumed transfer reaches the update threshold and the
    stream then breaks, the row is left with the fraction of the offset
    plus the chunk over the expected total. *)
Lemma resume_count_visible (response : Response) (chunk : bytes) (e : exn) :
  stream_get net (request_of net episode S) = inr response ->
  status_code response = 206 ->
  chunks response = [chunk] ->
  stream_error response = Some e ->
  let T := default 0 (content_length response) + S in
  0 < T ->
  Qge_bool (inject_Z (S + Z.of_nat (length chunk)))
           (progress_update_threshold T) = true ->
  exists s' d',
    download_episode net episode path dl s = (inr false, s')
    /\ downloads s' !! id dl = Some d'
    /\ status d' = failed
    /\ progress d'
         = py_min 1 (py_max 0 (py_div (S + Z.of_nat (length chunk)) T)).
Proof.
  intros Hget H206 Hchunks Herr T HT Hthr.
  pose proof (well_keyed_lookup _ _ _ Hwk Hd) as Hid.
  assert (wp (download_episode net episode path dl)
            (fun res s' =>
               res = false
               /\ exists d', downloads s' !! id dl = Some d'
                    /\ status d' = failed
                    /\ progress d'
                       = py_min 1 (py_max 0
                           (py_div (S + Z.of_nat (length chunk)) T)))
            (fun _ _ => False) s) as Hwp.
  { unfold download_episode. apply wp_bind, wp_get_state.
    rewrite (resume_offset_partial _ _ _ Hpart). apply wp_try.
    unfold transfer, client_stream. apply wp_bind.
    change (mkRequest _ (request_headers (_is_signed_url (audio_url episode)) S))
      with (request_of net episode S).
    rewrite Hget. apply wp_ret. rewrite H206. cbn [Z.eqb Pos.eqb negb orb].
    apply wp_bind, wp_utcnow. apply wp_bind, wp_update_status.
    change (downloads (tick s)) with (downloads s). rewrite Hd.
    set (d1 := set_updated_at _ (set_started_at _ (set_status downloading d))).
    assert (downloads (put_download d1 (tick (tick s))) !! id dl = Some d1)
      as Hd1 by (cbn; rewrite Hid; apply lookup_insert_eq).
    remember (put_download d1 (tick (tick s))) as s2 eqn:Hs2. clear Hs2.
    apply wp_bind. unfold open_file. apply wp_modify.
    set (s3 := match open_mode S with ab => _ | wb => _ end).
    assert (downloads s3 = downloads s2) as Hs3
      by (unfold s3; by destruct (open_mode S), (files s2 !! path)).
    clearbody s3.
    rewrite Hchunks. cbn [stream_loop]. apply wp_bind, wp_bind.
    unfold write_chunk. apply wp_modify.
    unfold expected_total_size. rewrite H206. cbn [Z.eqb Pos.eqb].
    fold T. assert ((0 <? T) = true) as -> by lia.
    rewrite Z.sub_0_r, Hthr.
    apply wp_bind, wp_update_progress.
    change (downloads (set_files _ s3)) with (downloads s3).
    rewrite Hs3, Hd1.
    set (d2 := set_updated_at _ (set_progress _ d1)).
    set (s4 := put_download d2 _).
    assert (downloads s4 !! id dl = Some d2) as Hd2.
    { unfold s4. cbn. rewrite Hid. apply lookup_insert_eq. }
    clearbody s4.
    apply wp_ret. cbn beta iota. rewrite Herr. apply wp_raise.
    destruct (is_http_error e); apply wp_mark_failed; rewrite Hd2;
      (split; [done|]); eexists;
      (split; [cbn; rewrite Hid; apply lookup_insert_eq|]); by split. }
  apply wp_returns in Hwp as (res & s' & Hrun & -> & d' & Hd' & Hst & Hp).
  by exists s', d'.
Qed.
End Count.

(** C6. With a partial file of [S] > 0 bytes at the destination, the
    executor resumes from byte [S]: the request carries the range header
    from [S]; the destination is opened for appending; the byte count
    starts at [S] (the progress written after the first chunk is
    ([S] + chunk) / total); on a 206 the expected total is the content
    length plus [S]; and against a server that honours the range request
    the run completes with the destination holding the partial file
    followed by the rest of the source, [T] bytes in all. *)
Theorem resume_spec (net : Network) (episode : Episode) (path : string)
    (dl d : Download) (s : State) (part : bytes) :
  well_keyed s ->
  downloads s !! id dl = Some d ->
  files s !! path = Some part ->
  0 < Z.of_nat (length part) ->
  let S := Z.of_nat (length part) in
  let rp := DownloadService.resume_offset s path in
  rp = S
  /\ range_header (request_of net episode rp)
       = Some ("bytes=" +:+ pretty S +:+ "-")
  /\ DownloadService.open_mode rp = ab
  /\ (forall response,
        status_code response = 206 ->
        DownloadService.expected_total_size response rp
          = default 0 (content_length response) + S)
  /\ (forall response chunk e,
        stream_get net (request_of net episode rp) = inr response ->
        status_code response = 206 ->
        chunks response = [chunk] ->
        stream_error response = Some e ->
        let T := default 0 (content_length response) + S in
        0 < T ->
        Qge_bool (inject_Z (S + Z.of_nat (length chunk)))
                 (DownloadService.progress_update_threshold T) = true ->
        exists s' d',
          DownloadService.download_episode net episode path dl s
            = (inr false, s')
          /\ downloads s' !! id dl = Some d'
          /\ status d' = failed
          /\ progress d'
               = py_min 1 (py_max 0 (py_div (S + Z.of_nat (length chunk)) T)))
  /\ (forall src,
        S < Z.of_nat (length src) ->
        serves_range net src S ->
        exists s' d',
          DownloadService.download_episode net episode path dl s
            = (inr true, s')
          /\ files s' !! path = Some (part ++ drop (Z.to_nat S) src)
          /\ length (part ++ drop (Z.to_nat S) src) = length src
          /\ (take (Z.to_nat S) src = part ->
                part ++ drop (Z.to_nat S) src = src)
          /\ downloads s' !! id dl = Some d'
          /\ status d' = completed
          /\ file_size d' = Some (Z.of_nat (length src))).
Proof.
  intros Hwk Hd Hpart Hpos S rp.
  assert (rp = S) as Hrp by (by apply resume_offset_partial).
  split; [done|]. rewrite Hrp.
  split; [by apply request_of_range|].
  split. { unfold DownloadService.open_mode. by assert ((0 <? S) = true) as -> by lia. }
  split.
  { intros response H206. unfold DownloadService.expected_total_size.
    by rewrite H206. }
  split.
  { intros response chunk e Hget H206 Hchunks Herr T HT Hthr.
    by apply (resume_count_visible net episode path dl d s part Hwk Hd Hpart
                response chunk e). }
  intros src Hlt Hserve.
  destruct (resume_completes net episode path dl d s part Hwk Hd Hpart Hpos
              src Hlt Hserve) as (s' & d' & Hrun & Hfile & Hd' & Hst & Hsize).
  exists s', d'. split; [done|]. split; [done|].
  split. { rewrite length_app, length_drop. lia. }
  split.
  { intros Heq.
    transitivity (take (Z.to_nat S) src ++ drop (Z.to_nat S) src);
      [by rewrite Heq | apply take_drop]. }
  done.
Qed.

Lemma resume_witness :
  let src := [Byte.x01; Byte.x02; Byte.x03; Byte.x04; Byte.x05] in
  let part := [Byte.x01; Byte.x02; Byte.x03] in
  let ep := Fixtures.episode_of 1 None in
  let d0 := Fixtures.download_of 1 pending (Some "News/a.mp3"%string) in
  let s0 := Fixtures.state_of [ep] [d0] [("/a.mp3"%string, part)] in
  exists s',
    DownloadService.download_episode (Fixtures.range_server src 3) ep
      "/a.mp3" d0 s0 = (inr true, s')
    /\ files s' !! "/a.mp3"%string = Some src.
Proof.
  intros src part ep d0 s0.
  destruct (resume_spec (Fixtures.range_server src 3) ep "/a.mp3" d0 d0 s0 part)
    as (_ & _ & _ & _ & _ & H).
  - by_compute.
  - reflexivity.
  - reflexivity.
  - reflexivity.
  - destruct (H src) as (s' & d' & Hrun & Hfile & _).
    + reflexivity.
    + intros req Hreq. eexists. unfold Fixtures.range_server. cbn.
      rewrite bool_decide_eq_true_2 by exact Hreq.
      split; [reflexivity|]. repeat split.
    + exists s'. split; [exact Hrun|]. rewrite Hfile. reflexivity.
Defined.

(* --------------------------------------------------------------------- *)
(** ** The retention sweep *)
(* --------------------------------------------------------------------- *)

Section Retention.
Import DownloadEngine Jobs.
Variable fm : FileManager.t.
Variable plex_service : option PlexService.

Lemma pub_date_ge_total a b : pub_date_ge a b = true \/ pub_date_ge b a = true.
Proof. destruct a, b; cbn; lia. Qed.

Lemma pub_date_ge_trans a b c :
  pub_date_ge a b = true -> pub_date_ge b c = true -> pub_date_ge a c = true.
Proof. destruct a, b, c; cbn; try done; lia. Qed.

Lemma insert_by_sorted {A} (le : A -> A -> bool) (x : A) (l : list A) :
  (forall a b, le a b = true \/ le b a = true) ->
  (forall a b c, le a b = true -> le b c = true -> le a c = true) ->
  StronglySorted (fun a b => le a b = true) l ->
  StronglySorted (fun a b => le a b = true) (insert_by le x l).
Proof.
  intros Htotal Htrans. induction l as [|y l IH]; intros Hl; cbn.
  - by repeat constructor.
  - apply StronglySorted_inv in Hl as [Hl Hy].
    destruct (le x y) eqn:Hxy.
    + constructor; [by constructor|]. constructor; [done|].
      eapply Forall_impl; [exact Hy|]. intros z Hz. by eapply Htrans.
    + constructor; [by apply IH|].
      apply Forall_forall. intros z Hz. rewrite insert_by_perm in Hz.
      apply elem_of_cons in Hz as [-> | Hz].
      * destruct (Htotal x y) as [H|H]; [congruence|done].
      * by apply (proj1 (Forall_forall _ _) Hy).
Qed.

Lemma sort_by_sorted {A} (le : A -> A -> bool) (l : list A) :
  (forall a b, le a b = true \/ le b a = true) ->
  (forall a b c, le a b = true -> le b c = true -> le a c = true) ->
  StronglySorted (fun a b => le a b = true) (sort_by le l).
Proof.
  intros Htotal Htrans. induction l as [|x l IH]; cbn; [constructor|].
  by apply insert_by_sorted.
Qed.

Lemma StronglySorted_impl {A} (R R' : A -> A -> Prop) (l : list A) :
  (forall a b, R a b -> R' a b) -> StronglySorted R l -> StronglySorted R' l.
Proof.
  intros Himpl. induction 1 as [|x l Hl IH Hx]; constructor; [done|].
  eapply Forall_impl; [exact Hx|]. intros y. apply Himpl.
Qed.

Lemma completed_downloads_sorted (s : State) (p : Podcast) :
  newest_first (completed_downloads s p).
Proof.
  unfold newest_first, completed_downloads.
  eapply StronglySorted_impl;
    [|apply (sort_by_sorted
               (fun a b : Download * Episode =>
                  pub_date_ge (pub_date (snd a)) (pub_date (snd b))))].
  - intros [d1 e1] [d2 e2]. cbn. unfold pub_date_ge, not_older.
    destruct (pub_date e1), (pub_date e2); try done. lia.
  - intros a b. apply pub_date_ge_total.
  - intros a b c. apply pub_date_ge_trans.
Qed.

(** The selection loop keeps the first [keep] rows and takes the doomed
    ones among the rest. *)
Lemma select_to_delete_spec (keep : Z) (rows : list (Download * Episode)) :
  forall i, 0 <= i ->
    fst (select_to_delete fm plex_service keep i rows)
    = filter (fun r => doomed fm plex_service (fst r) = true)
        (drop (Z.to_nat (keep - i)) rows).
Proof.
  induction rows as [|[d e] rest IH]; intros i Hi; [by rewrite drop_nil|].
  cbn [select_to_delete].
  specialize (IH (i + 1) ltac:(lia)).
  destruct (select_to_delete fm plex_service keep (i + 1) rest)
    as [to_delete kept]. cbn [fst] in IH.
  destruct (i <? keep) eqn:Hlt.
  - cbn [fst]. rewrite IH.
    replace (Z.to_nat (keep - i)) with (Datatypes.S (Z.to_nat (keep - (i + 1))))
      by lia.
    done.
  - replace (Z.to_nat (keep - i)) with 0%nat by lia.
    replace (Z.to_nat (keep - (i + 1))) with 0%nat in IH by lia.
    rewrite !drop_0 in *.
    assert (forall b, doomed fm plex_service d = b ->
              fst (if b then ((d, e) :: to_delete, kept)
                   else (to_delete, if plex_service is Some _ then kept + 1 else kept))
              = filter (fun r => doomed fm plex_service (fst r) = true)
                  ((d, e) :: rest)) as Hcase.
    { intros [|] Hb; cbn [fst].
      - rewrite filter_cons_True by done. by rewrite IH.
      - rewrite filter_cons_False by (cbn; congruence). done. }
    destruct plex_service as [played|].
    + destruct (truthy_str (file_path d)) eqn:Hpath.
      * destruct (played _) eqn:Hplayed.
        -- apply (Hcase true). unfold doomed. by rewrite Hpath.
        -- apply (Hcase false). unfold doomed. by rewrite Hpath.
      * apply (Hcase true). unfold doomed. by rewrite Hpath.
    + by apply (Hcase true).
Qed.

Lemma delete_all_spec (l : list (Download * Episode)) :
  forall totals s,
    exists totals' s',
      delete_all fm l totals s = (inr totals', s')
      /\ (forall k,
            downloads s' !! k
            = if bool_decide (k ∈ (fun r => id (fst r)) <$> l) then None
              else downloads s !! k)
      /\ (forall path,
            files s' !! path = None \/ files s' !! path = files s !! path)
      /\ (forall d e,
            (d, e) ∈ l -> truthy_str (file_path d) = true ->
            FileManager.unlink_fails fm (full_path_of fm d) = false ->
            files s' !! full_path_of fm d = None)
      /\ episodes s' = episodes s /\ podcasts s' = podcasts s.
Proof.
  induction l as [|[d e] rest IH]; intros totals s.
  - exists totals, s. cbn. repeat split; try done.
    + auto.
    + intros d e Hin. by apply elem_of_nil in Hin.
  - assert (forall totals1 s1,
      downloads s1 = downloads s -> episodes s1 = episodes s ->
      podcasts s1 = podcasts s ->
      (forall path, files s1 !! path = None
                    \/ files s1 !! path = files s !! path) ->
      (truthy_str (file_path d) = true ->
         FileManager.unlink_fails fm (full_path_of fm d) = false ->
         files s1 !! full_path_of fm d = None) ->
      exists totals' s',
        delete_all fm rest totals1
          (set_downloads (delete (id d) (downloads s1)) s1) = (inr totals', s')
        /\ (forall k,
              downloads s' !! k
              = if bool_decide (k ∈ (fun r => id (fst r)) <$> (d, e) :: rest)
                then None else downloads s !! k)
        /\ (forall path,
              files s' !! path = None \/ files s' !! path = files s !! path)
        /\ (forall d0 e0,
              (d0, e0) ∈ (d, e) :: rest -> truthy_str (file_path d0) = true ->
              FileManager.unlink_fails fm (full_path_of fm d0) = false ->
              files s' !! full_path_of fm d0 = None)
        /\ episodes s' = episodes s /\ podcasts s' = podcasts s) as Hstep.
    { intros totals1 s1 Hdl Hep Hpod Hshrink Hgone.
      destruct (IH totals1 (set_downloads (delete (id d) (downloads s1)) s1))
        as (totals' & s' & Hrun & Hrows & Hfiles & Hdel & Hep' & Hpod').
      exists totals', s'. split; [done|].
      cbn in Hrows, Hfiles, Hep', Hpod'. split; [|split; [|split]].
      - intros k. rewrite Hrows, fmap_cons. cbn [fst].
        destruct (decide (k = id d)) as [-> | Hne].
        + rewrite lookup_delete_eq.
          rewrite (bool_decide_eq_true_2 (id d ∈ id d :: _))
            by apply list_elem_of_here.
          by destruct (bool_decide _).
        + rewrite lookup_delete_ne by done. rewrite Hdl.
          apply (f_equal (fun b : bool => if b then None else downloads s !! k)).
          apply bool_decide_ext. rewrite elem_of_cons.
          split; [by right|]. by intros [?|?].
      - intros path. destruct (Hfiles path) as [H|H]; [by left|].
        rewrite H. apply Hshrink.
      - intros d0 e0 Hin Hpath Hunlink.
        apply elem_of_cons in Hin as [[= -> ->] | Hin]; [|by eapply Hdel].
        destruct (Hfiles (full_path_of fm d)) as [H|H]; [done|].
        rewrite H. by apply Hgone.
      - split; congruence. }
    cbn [delete_all].
    unfold FileManager.get_file_size, FileManager.delete_file,
      FileManager.unlink, try_except.
    run_keep. fold (full_path_of fm d).
    destruct (truthy_str (file_path d)) eqn:Hpath.
    + destruct (files s !! full_path_of fm d) eqn:Hfile; cbn.
      * destruct (FileManager.unlink_fails fm (full_path_of fm d)) eqn:Hun; cbn.
        -- apply (Hstep _ s); try done; auto.
        -- apply (Hstep _ (set_files (delete (full_path_of fm d) (files s)) s));
             try done.
           ++ intros path. cbn.
              destruct (decide (path = full_path_of fm d)) as [-> | Hne].
              ** left. apply lookup_delete_eq.
              ** right. by apply lookup_delete_ne.
           ++ intros _ _. cbn. apply lookup_delete_eq.
      * apply (Hstep _ s); try done. auto.
    + apply (Hstep _ s); try done. auto.
Qed.

Lemma NoDup_rows (s : State) :
  well_keyed s -> NoDup (snd <$> map_to_list (downloads s)).
Proof.
  intros Hwk. apply NoDup_fmap_2_strong; [|apply NoDup_map_to_list].
  intros [k1 d1] [k2 d2] H1 H2 Heq. cbn in Heq. subst d2.
  apply elem_of_map_to_list in H1, H2.
  f_equal. rewrite <- (well_keyed_lookup _ _ _ Hwk H1).
  by rewrite <- (well_keyed_lookup _ _ _ Hwk H2).
Qed.

Lemma NoDup_omap {A B} (f : A -> option B) (l : list A) :
  (forall x y z, f x = Some z -> f y = Some z -> x = y) ->
  NoDup l -> NoDup (omap f l).
Proof.
  intros Hinj. induction 1 as [|x l Hx Hl IH]; cbn; [constructor|].
  destruct (f x) as [z|] eqn:Hfx; [|done].
  constructor; [|done]. intros Hin.
  apply list_elem_of_omap in Hin as (y & Hy & Hfy).
  by rewrite (Hinj _ _ _ Hfx Hfy) in Hx.
Qed.

Lemma joined_row_Some (s : State) (p : Podcast) (d d' : Download) (e : Episode) :
  joined_row s p d = Some (d', e) <->
  d' = d /\ episodes s !! episode_id d = Some e
  /\ podcast_id e = podcast_pk p /\ status d = completed.
Proof.
  unfold joined_row. destruct (episodes s !! episode_id d) as [e0|]; [|naive_solver].
  case_bool_decide; naive_solver.
Qed.

(** The rows the sweep lists for a podcast are its completed downloads,
    each once. *)
Lemma completed_downloads_elem (s : State) (p : Podcast) d e :
  well_keyed s ->
  (d, e) ∈ completed_downloads s p <-> completed_of s p d e.
Proof.
  intros Hwk. unfold completed_downloads, completed_of.
  rewrite sort_by_perm, list_elem_of_omap. split.
  - intros (d0 & Hin & Hrow). apply joined_row_Some in Hrow as (-> & He & Hp & Hst).
    apply list_elem_of_fmap in Hin as ([k d1] & -> & Hin).
    apply elem_of_map_to_list in Hin. cbn in *.
    rewrite (well_keyed_lookup _ _ _ Hwk Hin). done.
  - intros (Hd & He & Hp & Hst). exists d. split.
    + apply list_elem_of_fmap. exists (id d, d). split; [done|].
      by apply elem_of_map_to_list.
    + by apply joined_row_Some.
Qed.

Lemma completed_downloads_NoDup (s : State) (p : Podcast) :
  well_keyed s -> NoDup (completed_downloads s p).
Proof.
  intros Hwk. unfold completed_downloads. rewrite sort_by_perm.
  apply NoDup_omap; [|by apply NoDup_rows].
  intros x y [d e] Hx Hy.
  apply joined_row_Some in Hx as (-> & _). by apply joined_row_Some in Hy as (-> & _).
Qed.

Lemma completed_of_fun (s : State) (p : Podcast) d d' e e' :
  completed_of s p d e -> completed_of s p d' e' -> id d = id d' ->
  (d, e) = (d', e').
Proof.
  intros (Hd & He & _) (Hd' & He' & _) Hid.
  rewrite Hid in Hd. assert (d = d') as -> by congruence. congruence.
Qed.

Lemma elem_of_drop_list {A} (l : list A) (n : nat) (x : A) :
  x ∈ drop n l -> x ∈ l.
Proof.
  rewrite !list_elem_of_lookup. intros [i Hi]. rewrite lookup_drop in Hi. eauto.
Qed.

Lemma elem_of_drop_NoDup {A} (l : list A) (n i : nat) (x : A) :
  NoDup l -> l !! i = Some x -> x ∈ drop n l <-> (n <= i)%nat.
Proof.
  intros Hnd Hi. rewrite list_elem_of_lookup. split.
  - intros [j Hj]. rewrite lookup_drop in Hj.
    rewrite <- (NoDup_lookup _ _ _ _ Hnd Hj Hi). lia.
  - intros Hle. exists (i - n)%nat. rewrite lookup_drop.
    by replace (n + (i - n))%nat with i by lia.
Qed.

(** The sweep of one podcast. *)
Lemma cleanup_podcast_spec (p : Podcast) (totals : Totals) (s : State) :
  well_keyed s ->
  exists totals' s',
    cleanup_podcast fm plex_service p totals s = (inr totals', s')
    /\ well_keyed s'
    /\ episodes s' = episodes s
    /\ (forall k d, downloads s' !! k = Some d -> downloads s !! k = Some d)
    /\ (forall path,
          files s' !! path = None \/ files s' !! path = files s !! path)
    /\ swept fm plex_service s s' p
    /\ (forall k d,
          downloads s !! k = Some d ->
          (forall e, ~ completed_of s p d e) ->
          downloads s' !! k = Some d).
Proof.
  intros Hwk. unfold cleanup_podcast. run_keep.
  pose proof (select_to_delete_spec (max_episodes_to_keep p)
                (completed_downloads s p) 0 ltac:(lia)) as Hsel.
  rewrite Z.sub_0_r in Hsel.
  destruct (select_to_delete fm plex_service (max_episodes_to_keep p) 0
              (completed_downloads s p)) as [to_delete kept].
  cbn [fst] in Hsel.
  destruct (delete_all_spec to_delete
              (mkTotals (total_deleted totals) (total_kept_unplayed totals + kept)
                 (total_space_freed totals)) s)
    as (totals' & s' & Hrun & Hrows & Hfiles & Hgone & Hep & _).
  exists totals', s'. split; [done|].
  assert (forall k d, downloads s' !! k = Some d -> downloads s !! k = Some d)
    as Hsub.
  { intros k d. rewrite Hrows. by case_bool_decide. }
  assert (forall d e, (d, e) ∈ completed_downloads s p ->
            id d ∈ (fun r : Download * Episode => id (fst r)) <$> to_delete
            <-> (d, e) ∈ to_delete) as Hids.
  { intros d e Hin. split.
    - intros Hid. apply list_elem_of_fmap in Hid as ([d' e'] & Hid & Hin').
      cbn in Hid. pose proof Hin' as Hin''. rewrite Hsel in Hin''.
      apply list_elem_of_filter in Hin'' as [_ Hin''].
      apply elem_of_drop_list in Hin''.
      apply (completed_downloads_elem _ _ _ _ Hwk) in Hin, Hin''.
      by rewrite (completed_of_fun _ _ _ _ _ _ Hin Hin'' Hid).
    - intros Hin'. apply list_elem_of_fmap. by exists (d, e). }
  split.
  { intros k d Hd. apply (well_keyed_lookup s); [done|]. by apply Hsub. }
  split; [done|]. split; [done|]. split; [done|]. split.
  - exists (completed_downloads s p).
    split; [by apply completed_downloads_NoDup|].
    split; [intros d e; by apply completed_downloads_elem|].
    split; [apply completed_downloads_sorted|].
    intros i d e Hi.
    assert ((d, e) ∈ completed_downloads s p) as Hin
      by (apply list_elem_of_lookup; eauto).
    pose proof (proj1 (completed_downloads_elem _ _ _ _ Hwk) Hin)
      as (Hd & _).
    assert ((d, e) ∈ to_delete <->
            doomed fm plex_service d = true
            /\ (Z.to_nat (max_episodes_to_keep p) <= i)%nat) as Hdel.
    { rewrite Hsel, list_elem_of_filter. cbn [fst].
      rewrite (elem_of_drop_NoDup _ _ _ _
                 (completed_downloads_NoDup _ _ Hwk) Hi). done. }
    rewrite Hrows.
    destruct ((Z.of_nat i <? max_episodes_to_keep p)
              || negb (doomed fm plex_service d)) eqn:Hkeep.
    + rewrite bool_decide_eq_false_2; [done|].
      rewrite (Hids _ _ Hin), Hdel. intros [Hdoomed Hle].
      rewrite Hdoomed in Hkeep. cbn in Hkeep. lia.
    + apply orb_false_iff in Hkeep as [Hge Hdoomed].
      apply negb_false_iff in Hdoomed.
      assert ((d, e) ∈ to_delete) as Hin' by (apply Hdel; split; [done|lia]).
      rewrite bool_decide_eq_true_2 by (by apply (Hids _ _ Hin)).
      split; [done|]. intros Hpath Hunlink. by apply (Hgone d e).
  - intros k d Hd Hnot. rewrite Hrows.
    rewrite bool_decide_eq_false_2; [done|].
    intros Hid. apply list_elem_of_fmap in Hid as ([d' e'] & -> & Hin').
    rewrite Hsel in Hin'. apply list_elem_of_filter in Hin' as [_ Hin'].
    apply elem_of_drop_list in Hin'.
    apply (completed_downloads_elem _ _ _ _ Hwk) in Hin'.
    pose proof Hin' as (Hd' & _). cbn in Hd.
    assert (d' = d) as -> by congruence. by apply (Hnot e').
Qed.

Lemma completed_of_owner (s : State) (p q : Podcast) d e e' :
  completed_of s p d e -> completed_of s q d e' -> podcast_pk p = podcast_pk q.
Proof. intros (_ & He & Hp & _) (_ & He' & Hq & _). congruence. Qed.

(** The loop over the podcasts. *)
Lemma cleanup_each_spec (all : list Podcast) :
  NoDup (podcast_pk <$> all) ->
  forall totals s,
    well_keyed s ->
    exists totals' s',
      cleanup_each fm plex_service all totals s = (inr totals', s')
      /\ well_keyed s'
      /\ episodes s' = episodes s
      /\ (forall k d, downloads s' !! k = Some d -> downloads s !! k = Some d)
      /\ (forall path,
            files s' !! path = None \/ files s' !! path = files s !! path)
      /\ (forall p, p ∈ all -> swept fm plex_service s s' p)
      /\ (forall k d,
            downloads s !! k = Some d ->
            (forall q e, q ∈ all -> ~ completed_of s q d e) ->
            downloads s' !! k = Some d).
Proof.
  induction all as [|q rest IH]; intros Hnd totals s Hwk.
  - exists totals, s. cbn. repeat split; auto.
    intros p Hp. by apply elem_of_nil in Hp.
  - rewrite fmap_cons in Hnd. apply NoDup_cons in Hnd as [Hq Hnd].
    assert (forall q', q' ∈ rest -> podcast_pk q' <> podcast_pk q) as Hother.
    { intros q' Hin Heq. apply Hq. rewrite <- Heq.
      by apply list_elem_of_fmap_2. }
    cbn [cleanup_each]. unfold mbind, M_bind.
    destruct (cleanup_podcast_spec q totals s Hwk)
      as (totals1 & s1 & -> & Hwk1 & Hep1 & Hsub1 & Hfiles1 & Hswept1 & Hkeep1).
    destruct (IH Hnd totals1 s1 Hwk1)
      as (totals' & s' & -> & Hwk' & Hep' & Hsub' & Hfiles' & Hswept' & Hkeep').
    exists totals', s'. split; [done|]. split; [done|].
    split; [congruence|]. split; [by auto|].
    split.
    { intros path. destruct (Hfiles' path) as [H|H]; [by left|].
      rewrite H. apply Hfiles1. }
    assert (forall p d e, completed_of s1 p d e -> completed_of s p d e)
      as Hback.
    { intros p d e (Hd & He & Hrest). split; [by apply Hsub1|].
      by rewrite <- Hep1. }
    split.
    + intros p Hp. apply elem_of_cons in Hp as [-> | Hp].
      * destruct Hswept1 as (rows & Hnodup & Helem & Hsorted & Hrows).
        exists rows. split; [done|]. split; [done|]. split; [done|].
        intros i d e Hi. specialize (Hrows i d e Hi).
        assert (completed_of s q d e) as Hc
          by (apply Helem, list_elem_of_lookup; eauto).
        destruct (_ || _).
        -- apply Hkeep'; [done|]. intros q' e' Hq' Hc'.
           apply (Hother q' Hq').
           by apply (completed_of_owner s q' q d e' e); [apply Hback|].
        -- destruct Hrows as [Hnone Hfile]. split.
           ++ destruct (downloads s' !! id d) as [d0|] eqn:Hd0; [|done].
              apply Hsub' in Hd0. congruence.
           ++ intros Hpath Hunlink.
              destruct (Hfiles' (full_path_of fm d)) as [H|H]; [done|].
              rewrite H. by apply Hfile.
      * destruct (Hswept' p Hp) as (rows & Hnodup & Helem & Hsorted & Hrows).
        exists rows. split; [done|]. split; [|done].
        intros d e. rewrite Helem. split; [by apply Hback|].
        intros Hc. pose proof Hc as (Hd & He & Hrest).
        split; [|by rewrite Hep1].
        apply Hkeep1; [done|]. intros e' Hc'.
        apply (Hother p Hp). by apply (completed_of_owner s p q d e e').
    + intros k d Hd Hnot. apply Hkeep'.
      * apply Hkeep1; [done|]. intros e. apply (Hnot q e). by left.
      * intros q' e Hq' Hc. apply (Hnot q' e); [by right|by apply Hback].
Qed.

Lemma NoDup_podcasts (s : State) :
  map_Forall (fun k p => podcast_pk p = k) (podcasts s) ->
  NoDup (podcast_pk <$> (snd <$> map_to_list (podcasts s))).
Proof.
  intros Hkeys. rewrite <- list_fmap_compose.
  apply NoDup_fmap_2_strong; [|apply NoDup_map_to_list].
  intros [k1 p1] [k2 p2] H1 H2 Heq. cbn in Heq.
  apply elem_of_map_to_list in H1, H2.
  pose proof (map_Forall_lookup_1 _ _ _ _ Hkeys H1) as E1.
  pose proof (map_Forall_lookup_1 _ _ _ _ Hkeys H2) as E2.
  cbn in E1, E2. assert (k1 = k2) as -> by congruence. congruence.
Qed.

End Retention.




(** The scenario of the specification: keep 2, downloads 1 to 4 newest
    first, the oracle reports 3 played and 4 not: the sweep deletes row 3
    and its file, and nothing else. *)
Example retention_scenario :
  exists totals s',
    Jobs.cleanup_old_episodes_job (Fixtures.sample_fm 0)
      (Some Fixtures.played_3) Fixtures.retention_state = (inr totals, s')
    /\ fst <$> Jobs.completed_downloads Fixtures.retention_state Fixtures.podcast1
       = [Fixtures.completed_with_file 1; Fixtures.completed_with_file 2;
          Fixtures.completed_with_file 3; Fixtures.completed_with_file 4]
    /\ downloads s' !! 1 = Some (Fixtures.completed_with_file 1)
    /\ downloads s' !! 2 = Some (Fixtures.completed_with_file 2)
    /\ downloads s' !! 3 = None
    /\ downloads s' !! 4 = Some (Fixtures.completed_with_file 4)
    /\ files s' !! "/data/podcasts/News/3.mp3"%string = None
    /\ files s' !! "/data/podcasts/News/4.mp3"%string = Some (Fixtures.zeros 4)
    /\ Jobs.total_deleted totals = 1
    /\ Jobs.total_kept_unplayed totals = 1.
Proof.
  eexists _, _. split; [vm_compute; reflexivity|].
  split; [vm_compute; reflexivity|]. repeat split.
Qed.

(* --------------------------------------------------------------------- *)
(** ** Path validation *)
(* --------------------------------------------------------------------- *)

Section PathValidation.
Import Pathlib Validators.

Lemma elem_of_rev_seq (n k : nat) : k ∈ rev (seq 0 n) <-> (k < n)%nat.
Proof.
  rewrite list_elem_of_In, <- in_rev, <- list_elem_of_In, elem_of_seq. lia.
Qed.

Lemma parents_strictly_inside (root p : Path) :
  root ∈ parents p <-> strictly_inside root p.
Proof.
  unfold parents, strictly_inside. rewrite list_elem_of_fmap. split.
  - intros (n & -> & Hn). apply elem_of_rev_seq in Hn. cbn.
    split; [done|]. exists (drop n (parts p)). split.
    + intros Hnil. apply (f_equal length) in Hnil.
      rewrite length_drop in Hnil. cbn in Hnil. lia.
    + by rewrite take_drop.
  - intros (Habs & rest & Hrest & Hparts). exists (length (parts root)). split.
    + destruct root as [a ps]. cbn in *. rewrite Habs, Hparts. f_equal.
      by rewrite take_app_length.
    + apply elem_of_rev_seq. rewrite Hparts, length_app.
      destruct rest; [done|]. cbn. lia.
Qed.

(** C9, as amended.  Whatever the file system resolves paths to: a
    relative path is accepted, with its resolved path as the result, only
    when that path is the resolved download root or lies strictly inside
    it; and a path that resolves anywhere else is rejected. *)
Theorem validate_download_path_spec (resolve : Path -> option Path)
    (base_path : Path) (relative_path : string) :
  (forall p,
     validate_download_path resolve base_path relative_path = Some p ->
     resolve (join base_path (of_string relative_path)) = Some p
     /\ exists root,
          resolve base_path = Some root
          /\ (strictly_inside root p \/ p = root))
  /\ (forall p root,
        resolve (join base_path (of_string relative_path)) = Some p ->
        resolve base_path = Some root ->
        ~ strictly_inside root p -> p <> root ->
        validate_download_path resolve base_path relative_path = None)
  /\ (forall p root,
        resolve (join base_path (of_string relative_path)) = Some p ->
        resolve base_path = Some root ->
        strictly_inside root p \/ p = root ->
        validate_download_path resolve base_path relative_path = Some p).
Proof.
  unfold validate_download_path. split; [|split].
  - intros p.
    destruct (resolve (join _ _)) as [full|]; [|done].
    destruct (resolve base_path) as [root|]; [|done].
    destruct (bool_decide (root ∈ parents full)) eqn:Hin;
      destruct (bool_decide (full = root)) eqn:Heq; cbn; try done;
      intros [= <-]; (split; [done|]); exists root; (split; [done|]).
    + left. apply bool_decide_eq_true in Hin.
      by apply parents_strictly_inside.
    + left. apply bool_decide_eq_true in Hin.
      by apply parents_strictly_inside.
    + right. by apply bool_decide_eq_true in Heq.
  - intros p root -> -> Hout Hne.
    rewrite bool_decide_eq_false_2
      by (by rewrite parents_strictly_inside).
    by rewrite bool_decide_eq_false_2.
  - intros p root -> -> [Hin | ->].
    + by rewrite bool_decide_eq_true_2 by (by apply parents_strictly_inside).
    + rewrite (bool_decide_eq_true_2 (root = root)) by done.
      by rewrite orb_true_r.
Qed.

(** C9 fails on "strictly": on a file system without symbolic links the
    relative path ["."] resolves to the download root itself, which does
    not lie strictly inside the root, and is accepted.  Traversal out of
    the root is rejected. *)
Lemma validate_accepts_root :
  let root := of_string "/data/podcasts" in
  validate_download_path (resolve_lexical []) root "." = Some root
  /\ ~ strictly_inside root root
  /\ validate_download_path (resolve_lexical []) root "../../etc/passwd" = None
  /\ validate_download_path (resolve_lexical []) root "News/../../x" = None
  /\ validate_download_path (resolve_lexical []) root "/etc/passwd" = None
  /\ validate_download_path (resolve_lexical []) root "News/a.mp3"
     = Some (of_string "/data/podcasts/News/a.mp3").
Proof.
  intros root. split; [by vm_compute|]. split.
  - intros (_ & rest & Hrest & Hparts).
    apply (f_equal length) in Hparts. rewrite length_app in Hparts.
    destruct rest; [done|]. cbn in Hparts. lia.
  - repeat split; by vm_compute.
Qed.

End PathValidation.

(* --------------------------------------------------------------------- *)
(** ** The executor on the other answers of the server *)
(* --------------------------------------------------------------------- *)

Section Answers.
Import DownloadService.
Variables (net : Network) (episode : Episode) (path : string) (dl d : Download).
Variable s : State.
Hypothesis Hwk : well_keyed s.
Hypothesis Hd : downloads s !! id dl = Some d.

Local Abbreviation sent := (request_of net episode (resume_offset s path)).

Lemma run_unfold :
  download_episode net episode path dl s
  = try_except
      (transfer net (req_url sent) (_is_signed_url (audio_url episode))
         (resume_offset s path) path dl)
      (fun e =>
         if is_http_error e
         then _mark_failed dl ("Network error: " +:+ exn_str e)
         else _mark_failed dl ("Unexpected error: " +:+ exn_str e)) s.
Proof. reflexivity. Qed.

Lemma mark_failed_run (msg : string) (s1 : State) (d1 : Download) :
  downloads s1 !! id dl = Some d1 ->
  _mark_failed dl msg s1
  = (inr false,
     put_download
       (set_updated_at (clock s1 (ticks s1))
          (set_retry_count (retry_count d1 + 1)
             (set_error_message (Some msg) (set_status failed d1))))
       (tick s1)).
Proof.
  intros H1. unfold _mark_failed. run_keep. by rewrite H1.
Qed.

(** Any status other than 200, 206 and 416 fails the transfer. *)
Theorem bad_status_fails (response : Response) :
  stream_get net sent = inr response ->
  status_code response <> 200 -> status_code response <> 206 ->
  status_code response <> 416 ->
  exists s' d',
    download_episode net episode path dl s = (inr false, s')
    /\ files s' = files s
    /\ downloads s' = <[id dl := d']> (downloads s)
    /\ status d' = failed
    /\ error_message d'
       = Some ("HTTP " +:+ pretty (status_code response) +:+ ": "
                 +:+ reason_phrase response)
    /\ retry_count d' = retry_count d + 1
    /\ progress d' = progress d.
Proof.
  intros Hget H200 H206 H416.
  pose proof (well_keyed_lookup _ _ _ Hwk Hd) as Hid.
  rewrite run_unfold. unfold try_except, transfer, client_stream.
  change (mkRequest (req_url sent) _) with sent. rewrite Hget.
  unfold mbind, M_bind, mret, M_ret. cbn beta iota.
  assert ((status_code response =? 416) = false) as -> by lia.
  assert (negb ((status_code response =? 200) || (status_code response =? 206))
          = true) as -> by lia.
  rewrite (mark_failed_run _ _ _ Hd).
  eexists _, _. split; [reflexivity|]. cbn. rewrite Hid. by repeat split.
Qed.

(** On 416 the file is taken to be complete as it is. *)
Theorem range_not_satisfiable_completes (response : Response) (content : bytes) :
  stream_get net sent = inr response ->
  status_code response = 416 ->
  files s !! path = Some content ->
  exists s' d',
    download_episode net episode path dl s = (inr true, s')
    /\ files s' = files s
    /\ downloads s' = <[id dl := d']> (downloads s)
    /\ status d' = completed
    /\ progress d' = 1%Q
    /\ file_size d' = Some (Z.of_nat (length content))
    /\ error_message d' = None
    /\ retry_count d' = retry_count d.
Proof.
  intros Hget H416 Hfile.
  pose proof (well_keyed_lookup _ _ _ Hwk Hd) as Hid.
  rewrite run_unfold. unfold try_except, transfer, client_stream.
  change (mkRequest (req_url sent) _) with sent. rewrite Hget.
  unfold mbind, M_bind, mret, M_ret. cbn beta iota.
  rewrite H416. cbn [Z.eqb Pos.eqb].
  unfold _mark_complete, stat_size. run_keep. rewrite Hfile. cbn.
  rewrite Hd. cbn.
  eexists _, _. split; [reflexivity|]. cbn. rewrite Hid. by repeat split.
Qed.

(** An exception of the transport fails the transfer, and the message
    says which kind it was. *)
Theorem transport_error_fails (e : exn) :
  stream_get net sent = inl e ->
  exists s' d',
    download_episode net episode path dl s = (inr false, s')
    /\ files s' = files s
    /\ downloads s' = <[id dl := d']> (downloads s)
    /\ status d' = failed
    /\ error_message d'
       = Some ((if is_http_error e then "Network error: "
                else "Unexpected error: ") +:+ exn_str e)
    /\ retry_count d' = retry_count d + 1
    /\ progress d' = progress d.
Proof.
  intros Hget.
  pose proof (well_keyed_lookup _ _ _ Hwk Hd) as Hid.
  rewrite run_unfold. unfold try_except, transfer, client_stream.
  change (mkRequest (req_url sent) _) with sent. rewrite Hget.
  unfold mbind, M_bind, raise. cbn beta iota.
  destruct (is_http_error e); rewrite (mark_failed_run _ _ _ Hd);
    eexists _, _; (split; [reflexivity|]); cbn; rewrite Hid; by repeat split.
Qed.


End Answers.

Lemma bad_status_witness :
  let ep := Fixtures.episode_of 1 None in
  let d0 := Fixtures.download_of 1 pending (Some "News/a.mp3"%string) in
  let s0 := Fixtures.state_of [ep] [d0] [] in
  exists s' d',
    DownloadService.download_episode (Fixtures.net_status 404 "Not Found") ep
      "/a.mp3" d0 s0 = (inr false, s')
    /\ downloads s' !! 1 = Some d'
    /\ error_message d' = Some "HTTP 404: Not Found"%string.
Proof.
  intros ep d0 s0.
  destruct (bad_status_fails (Fixtures.net_status 404 "Not Found") ep "/a.mp3"
              d0 d0 s0) with (response := mkResponse 404 "Not Found" None None [] None)
    as (s' & d' & Hrun & _ & Hrows & _ & Hmsg & _).
  - by_compute.
  - reflexivity.
  - reflexivity.
  - discriminate.
  - discriminate.
  - discriminate.
  - exists s', d'. split; [exact Hrun|]. split; [|exact Hmsg].
    rewrite Hrows. apply lookup_insert_eq.
Defined.

Lemma range_not_satisfiable_witness :
  let ep := Fixtures.episode_of 1 None in
  let d0 := Fixtures.download_of 1 pending (Some "News/a.mp3"%string) in
  let s0 := Fixtures.state_of [ep] [d0] [("/a.mp3"%string, Fixtures.zeros 7)] in
  exists s' d',
    DownloadService.download_episode
      (Fixtures.net_status 416 "Range Not Satisfiable") ep "/a.mp3" d0 s0
      = (inr true, s')
    /\ downloads s' !! 1 = Some d'
    /\ status d' = completed /\ file_size d' = Some 7.
Proof.
  intros ep d0 s0.
  destruct (range_not_satisfiable_completes
              (Fixtures.net_status 416 "Range Not Satisfiable") ep "/a.mp3"
              d0 d0 s0)
    with (response := mkResponse 416 "Range Not Satisfiable" None None [] None)
         (content := Fixtures.zeros 7)
    as (s' & d' & Hrun & _ & Hrows & Hst & _ & Hsize & _).
  - by_compute.
  - reflexivity.
  - reflexivity.
  - reflexivity.
  - reflexivity.
  - exists s', d'. split; [exact Hrun|]. split; [|split; [exact Hst|exact Hsize]].
    rewrite Hrows. apply lookup_insert_eq.
Defined.

Lemma transport_error_witness :
  let ep := Fixtures.episode_of 1 None in
  let d0 := Fixtures.download_of 1 pending (Some "News/a.mp3"%string) in
  let s0 := Fixtures.state_of [ep] [d0] [] in
  exists s' d',
    DownloadService.download_episode
      (Fixtures.net_raises (HTTPError "connection reset")) ep "/a.mp3" d0 s0
      = (inr false, s')
    /\ downloads s' !! 1 = Some d'
    /\ error_message d' = Some "Network error: connection reset"%string.
Proof.
  intros ep d0 s0.
  destruct (transport_error_fails
              (Fixtures.net_raises (HTTPError "connection reset")) ep "/a.mp3"
              d0 d0 s0 ltac:(by_compute) eq_refl (HTTPError "connection reset"))
    as (s' & d' & Hrun & _ & Hrows & _ & Hmsg & _).
  - reflexivity.
  - exists s', d'. split; [exact Hrun|]. split; [|exact Hmsg].
    rewrite Hrows. apply lookup_insert_eq.
Defined.


(* --------------------------------------------------------------------- *)
(** ** What a transfer leaves alone *)
(* --------------------------------------------------------------------- *)

Lemma same_identity_refl d : same_identity d d.
Proof. by repeat split. Qed.

Lemma same_identity_trans d1 d2 d3 :
  same_identity d1 d2 -> same_identity d2 d3 -> same_identity d1 d3.
Proof.
  intros (?&?&?&?) (?&?&?&?). repeat split; congruence.
Qed.

Section Confined.
Import DownloadService.
Variables (net : Network) (episode : Episode) (path : string) (dl : Download).
Variable s : State.

Local Abbreviation inv := (confined s (id dl) path).

Lemma confined_start : well_keyed s -> inv s.
Proof.
  intros Hwk. repeat split; try done.
  destruct (downloads s !! id dl) as [d|] eqn:Hd; [|done].
  exists d. split; [done|]. apply same_identity_refl.
Qed.

Lemma confined_tick s1 : inv s1 -> inv (tick s1).
Proof. done. Qed.

Lemma confined_file s1 content :
  inv s1 -> inv (set_files (<[path := content]> (files s1)) s1).
Proof.
  intros (Hwk & Hp & He & Hrows & Hrow & Hfiles).
  repeat split; try done.
  intros p Hne. cbn. rewrite lookup_insert_ne; [|done]. by apply Hfiles.
Qed.

Lemma confined_put s1 d1 d2 :
  inv s1 -> downloads s1 !! id dl = Some d1 -> same_identity d1 d2 ->
  inv (put_download d2 s1).
Proof.
  intros (Hwk & Hp & He & Hrows & Hrow & Hfiles) Hd1 Hsame.
  pose proof (well_keyed_lookup _ _ _ Hwk Hd1) as Hid.
  assert (id d2 = id dl) as Hid2 by (destruct Hsame as [? _]; congruence).
  split; [by apply well_keyed_commit|].
  split; [done|]. split; [done|]. split; [|split; [|done]].
  - intros j Hj. cbn. rewrite Hid2, lookup_insert_ne; [|done]. by apply Hrows.
  - destruct (downloads s !! id dl) as [d|].
    + destruct Hrow as (d1' & Hd1' & Hs1). exists d2. split.
      * cbn. rewrite Hid2. apply lookup_insert_eq.
      * apply (same_identity_trans _ d1); [|done]. congruence.
    + congruence.
Qed.

Lemma confined_mark_failed s1 msg :
  inv s1 -> wp (_mark_failed dl msg) (fun _ => inv) (fun _ => inv) s1.
Proof.
  intros H. apply wp_mark_failed.
  destruct (downloads s1 !! id dl) as [d1|] eqn:Hd1; [|done].
  apply (confined_put (tick s1) d1); [by apply confined_tick|done|].
  by repeat split.
Qed.

Lemma confined_mark_complete s1 :
  inv s1 -> wp (_mark_complete dl path) (fun _ => inv) (fun _ => inv) s1.
Proof.
  intros H. apply wp_mark_complete.
  destruct (files s1 !! path); [|done].
  destruct (downloads s1 !! id dl) as [d1|] eqn:Hd1; [|done].
  apply (confined_put (tick (tick s1)) d1); [done|done|].
  by repeat split.
Qed.

Lemma confined_update_status s1 st started :
  inv s1 -> wp (_update_status dl st started) (fun _ => inv) (fun _ => inv) s1.
Proof.
  intros H. apply wp_update_status.
  destruct (downloads s1 !! id dl) as [d1|] eqn:Hd1; [|done].
  apply (confined_put (tick s1) d1); [done|done|].
  destruct started; by repeat split.
Qed.

Lemma confined_update_progress s1 p :
  inv s1 -> wp (_update_progress dl p) (fun _ => inv) (fun _ => inv) s1.
Proof.
  intros H. apply wp_update_progress.
  destruct (downloads s1 !! id dl) as [d1|] eqn:Hd1; [|done].
  apply (confined_put (tick s1) d1); [done|done|].
  by repeat split.
Qed.

Lemma confined_download_episode :
  well_keyed s ->
  wp (download_episode net episode path dl) (fun _ => inv) (fun _ => inv) s.
Proof.
  intros Hwk.
  apply (download_episode_wp net episode path dl (resume_offset s path)
           inv (fun _ => inv) (fun _ => inv) (fun _ => inv) (fun _ => inv)).
  - done.
  - done.
  - intros. by apply confined_mark_complete.
  - intros. by apply confined_mark_failed.
  - intros s0 t response H0 _ _. apply wp_bind.
    eapply wp_mono; [| |by apply confined_update_status]; [|done].
    intros u s1 H1. unfold open_file. apply wp_modify.
    destruct (open_mode _), (files s1 !! path);
      first [exact H1 | by apply confined_file].
  - intros s0 w chunk H0. by apply confined_file.
  - intros. by apply confined_update_progress.
  - done.
  - intros s0 response H0 _ _ _. unfold verify_and_finish, stat_size.
    apply wp_bind, wp_bind, wp_get_state.
    destruct (files s0 !! path); [|by apply wp_raise]. apply wp_ret.
    destruct (_ && _).
    + by apply confined_mark_failed.
    + by apply confined_mark_complete.
  - intros. by apply confined_mark_failed.
  - by apply confined_start.
  - done.
Qed.

End Confined.

(** A transfer changes nothing but its own row and its own destination
    file: every other row and every other file is as before, the
    podcasts and episodes are untouched, no row appears or disappears,
    and its own row keeps its id, episode, destination path and creation
    time. *)
Theorem transfer_confined (net : Network) (episode : Episode) (path : string)
    (dl : Download) (s : State) :
  well_keyed s ->
  confined s (id dl) path
    (snd (DownloadService.download_episode net episode path dl s)).
Proof.
  intros Hwk. apply wp_snd. by apply confined_download_episode.
Qed.

Lemma transfer_confined_witness :
  let ep := Fixtures.episode_of 1 None in
  let d1 := Fixtures.download_of 1 pending (Some "News/a.mp3"%string) in
  let d2 := Fixtures.download_of 2 failed (Some "News/b.mp3"%string) in
  let s0 := Fixtures.state_of [ep] [d1; d2]
              [("/b.mp3"%string, Fixtures.zeros 2)] in
  let s' := snd (DownloadService.download_episode
                   (Fixtures.net_body 4 [Fixtures.zeros 4]) ep "/a.mp3" d1 s0) in
  downloads s' !! 2 = Some d2
  /\ files s' !! "/b.mp3"%string = Some (Fixtures.zeros 2).
Proof.
  intros ep d1 d2 s0 s'.
  destruct (transfer_confined (Fixtures.net_body 4 [Fixtures.zeros 4]) ep
              "/a.mp3" d1 s0 ltac:(by_compute))
    as (_ & _ & _ & Hrows & _ & Hfiles).
  split.
  - exact (Hrows 2 ltac:(discriminate)).
  - exact (Hfiles "/b.mp3"%string ltac:(discriminate)).
Defined.

(* --------------------------------------------------------------------- *)
(** ** Rows keep their identity *)
(* --------------------------------------------------------------------- *)

Section Identity.
Import DownloadService DownloadEngine.

Lemma evolves_refl s : well_keyed s -> evolves s s.
Proof.
  intros Hwk. split; [done|]. intros k d Hd. exists d. split; [done|].
  apply same_identity_refl.
Qed.

Lemma evolves_trans s1 s2 s3 : evolves s1 s2 -> evolves s2 s3 -> evolves s1 s3.
Proof.
  intros [_ H12] [Hwk H23]. split; [done|]. intros k d Hd.
  destruct (H12 _ _ Hd) as (d2 & Hd2 & Hs2).
  destruct (H23 _ _ Hd2) as (d3 & Hd3 & Hs3).
  exists d3. split; [done|]. by apply (same_identity_trans _ d2).
Qed.

Lemma evolves_ticks s n : well_keyed s -> evolves s (set_ticks n s).
Proof.
  intros Hwk. split; [done|]. intros k d Hd. exists d. split; [done|].
  apply same_identity_refl.
Qed.

(** A commit of a row that is new, or the same download as the one it
    replaces. *)
Lemma evolves_put s d2 :
  well_keyed s ->
  (forall d1, downloads s !! id d2 = Some d1 -> same_identity d1 d2) ->
  evolves s (put_download d2 s).
Proof.
  intros Hwk Hsame. split; [by apply well_keyed_commit|].
  intros k d Hd. destruct (decide (k = id d2)) as [->|Hne].
  - exists d2. split; [cbn; apply lookup_insert_eq|]. by apply Hsame.
  - exists d. split; [cbn; by rewrite lookup_insert_ne|].
    apply same_identity_refl.
Qed.

Lemma evolves_put_row s n d1 d2 :
  well_keyed s -> downloads s !! id d1 = Some d1 -> same_identity d1 d2 ->
  evolves s (put_download d2 (set_ticks n s)).
Proof.
  intros Hwk Hd1 Hsame.
  apply (evolves_trans _ (set_ticks n s)); [by apply evolves_ticks|].
  apply evolves_put; [done|]. intros d0 Hd0.
  destruct Hsame as [Hid Hrest]. cbn in Hd0. rewrite Hid in Hd0.
  assert (d0 = d1) as -> by congruence. by split.
Qed.

Lemma select_by_episode_row (s : State) (e : Z) (x : Download) :
  well_keyed s -> x ∈ select_downloads_by_episode s e ->
  downloads s !! id x = Some x.
Proof.
  intros Hwk Hx. unfold select_downloads_by_episode in Hx.
  apply list_elem_of_filter in Hx as [_ Hx].
  apply list_elem_of_fmap in Hx as ([k x'] & -> & Hx).
  apply elem_of_map_to_list in Hx. cbn.
  by rewrite (well_keyed_lookup _ _ _ Hwk Hx).
Qed.

Lemma evolves_queue fm e s :
  well_keyed s -> evolves s (snd (queue_episode_download fm e s)).
Proof.
  intros Hwk. pose proof (evolves_refl s Hwk) as Hrefl.
  unfold queue_episode_download, episode_podcast. run_keep.
  destruct (episodes s !! e) as [ep|]; cbn; [|done].
  pose proof (select_by_episode_row s e) as Hrow.
  destruct (select_downloads_by_episode s e) as [|x [|y l]]; cbn; [| |done].
  - destruct (podcasts s !! podcast_id ep) as [p|]; cbn; [|done].
    destruct (FileManager.get_episode_file_path fm ep p s) as [r s1] eqn:Hplan.
    apply get_episode_file_path_frame in Hplan as [n ->].
    destruct r as [err|[full rel]]; cbn. { by apply evolves_ticks. }
    unfold FileManager.get_available_space. run_keep.
    assert (evolves s (snd (add_download e rel (set_ticks n s)))) as Hadd.
    { unfold add_download. run_keep. cbn.
      apply (evolves_trans _ (tick (tick (set_ticks n s))));
        [exact (evolves_ticks s (S (S n)) Hwk)|].
      apply evolves_put; [done|]. intros d1 Hd1. cbn in Hd1.
      by rewrite next_pk_fresh in Hd1. }
    destruct (truthy_int _); cbn; [|done].
    destruct (_ <? _); [|done]. by apply evolves_ticks.
  - specialize (Hrow x Hwk ltac:(by left)).
    destruct (status x); cbn; try done;
      (apply (evolves_put_row s (S (ticks s)) x); [done|done|by repeat split]).
Qed.

Lemma evolves_cancel k s :
  well_keyed s -> evolves s (snd (cancel_download k s)).
Proof.
  intros Hwk. pose proof (evolves_refl s Hwk) as Hrefl.
  unfold cancel_download. run_keep.
  destruct (downloads s !! k) as [d|] eqn:Hd; cbn; [|done].
  destruct (bool_decide _) eqn:Hst; cbn; [done|].
  apply (evolves_put_row s (S (ticks s)) d); [done| |by repeat split].
  by rewrite (well_keyed_lookup _ _ _ Hwk Hd).
Qed.

Lemma evolves_reset_each rows :
  forall s0 s,
    evolves s0 s ->
    (forall x, x ∈ rows -> exists d, downloads s !! id x = Some d
                                     /\ same_identity d x) ->
    evolves s0 (snd (reset_each rows s)).
Proof.
  induction rows as [|x rows IH]; intros s0 s Hs Hrows; [done|].
  cbn [reset_each]. run_keep.
  destruct (Hrows x ltac:(by left)) as (d & Hd & Hsame).
  match goal with
  | |- evolves _ (snd (reset_each rows ?s1)) =>
      assert (evolves s s1) as Hstep
  end.
  { apply (evolves_trans _ (tick s)); [apply evolves_ticks, Hs|].
    apply evolves_put; [apply Hs|]. intros d1 Hd1. cbn in Hd1.
    assert (d1 = d) as -> by congruence.
    destruct Hsame as (?&?&?&?). by repeat split. }
  apply IH.
  - by apply (evolves_trans _ s).
  - intros y Hy. destruct (Hrows y ltac:(by right)) as (dy & Hdy & Hsy).
    destruct Hstep as [_ Hstep]. destruct (Hstep _ _ Hdy) as (dy' & Hdy' & Hsy').
    exists dy'. split; [done|].
    destruct Hsy as (?&?&?&?), Hsy' as (?&?&?&?). repeat split; congruence.
Qed.

Lemma evolves_sweep max_retries s :
  well_keyed s -> evolves s (snd (reset_failed_downloads max_retries s)).
Proof.
  intros Hwk. pose proof (evolves_refl s Hwk) as Hrefl.
  unfold reset_failed_downloads. run_keep.
  assert (forall x, x ∈ select_failed max_retries s ->
            exists d, downloads s !! id x = Some d /\ same_identity d x)
    as Hrows.
  { intros x Hx. unfold select_failed in Hx.
    rewrite sort_by_perm in Hx. apply list_elem_of_filter in Hx as [_ Hx].
    apply list_elem_of_fmap in Hx as ([k x'] & -> & Hx).
    apply elem_of_map_to_list in Hx. cbn. exists x'. split.
    - by rewrite (well_keyed_lookup _ _ _ Hwk Hx).
    - apply same_identity_refl. }
  pose proof (evolves_reset_each (select_failed max_retries s) s s Hrefl Hrows)
    as Hreset.
  destruct (select_failed max_retries s) as [|x rows]; [done|].
  remember (x :: rows) as l.
  by destruct (reset_each l s) as [[e|u] s'].
Qed.

Lemma evolves_run_op (op : Op) (s : State) :
  well_keyed s -> evolves s (run_op op s).
Proof.
  intros Hwk. pose proof (evolves_refl s Hwk) as Hrefl.
  destruct op; cbn [run_op].
  - by apply evolves_queue.
  - apply wp_snd, wp_update_status.
    destruct (downloads s !! id dl) as [d|] eqn:Hd; [|done].
    apply (evolves_put_row s (S (ticks s)) d); [done| |].
    + by rewrite (well_keyed_lookup _ _ _ Hwk Hd).
    + destruct started; by repeat split.
  - apply wp_snd, wp_update_progress.
    destruct (downloads s !! id dl) as [d|] eqn:Hd; [|done].
    apply (evolves_put_row s (S (ticks s)) d); [done| |by repeat split].
    by rewrite (well_keyed_lookup _ _ _ Hwk Hd).
  - apply wp_snd, wp_mark_complete.
    destruct (files s !! path); [|done].
    destruct (downloads s !! id dl) as [d|] eqn:Hd; [|done].
    apply (evolves_put_row s (S (S (ticks s))) d); [done| |by repeat split].
    by rewrite (well_keyed_lookup _ _ _ Hwk Hd).
  - apply wp_snd, wp_mark_failed.
    destruct (downloads s !! id dl) as [d|] eqn:Hd; [|done].
    apply (evolves_put_row s (S (ticks s)) d); [done| |by repeat split].
    by rewrite (well_keyed_lookup _ _ _ Hwk Hd).
  - destruct (wp_snd _ _ _ (confined_download_episode net episode path dl s Hwk))
      as (Hwk' & _ & _ & Hrows & Hrow & _).
    split; [done|]. intros k d Hd.
    destruct (decide (k = id dl)) as [->|Hne].
    + by rewrite Hd in Hrow.
    + exists d. split; [by rewrite Hrows|]. apply same_identity_refl.
  - by apply evolves_cancel.
  - by apply evolves_sweep.
Qed.

Lemma evolves_run_ops (ops : list Op) :
  forall s, well_keyed s -> evolves s (run_ops ops s).
Proof.
  induction ops as [|op ops IH]; intros s Hwk; [by apply evolves_refl|].
  cbn [run_ops foldl].
  pose proof (evolves_run_op op s Hwk) as Hstep.
  apply (evolves_trans _ (run_op op s)); [done|].
  apply IH, Hstep.
Qed.

End Identity.

(** No operation on download rows removes a row or changes which
    download it is: after any sequence of admissions, status and progress
    writes, mark-complete, mark-failed, whole transfers, cancellations
    and retry sweeps, every row that was in the table is still there
    under its key, with the id, the episode, the destination path and the
    creation time it had. *)
Theorem identity_stable (ops : list Op) (s : State) (k : Z) (d : Download) :
  well_keyed s -> downloads s !! k = Some d ->
  exists d',
    downloads (run_ops ops s) !! k = Some d'
    /\ id d' = k /\ episode_id d' = episode_id d
    /\ file_path d' = file_path d /\ created_at d' = created_at d.
Proof.
  intros Hwk Hd. destruct (evolves_run_ops ops s Hwk) as [_ H].
  destruct (H _ _ Hd) as (d' & Hd' & Hid & He & Hp & Hc).
  exists d'. split; [done|].
  rewrite (well_keyed_lookup _ _ _ Hwk Hd) in Hid. by repeat split.
Qed.

Lemma identity_stable_witness :
  let ep := Fixtures.episode_of 1 None in
  let d0 := Fixtures.download_of 1 pending (Some "News/a.mp3"%string) in
  let s0 := Fixtures.state_of [ep] [d0] [] in
  let ops := [OpTransfer (Fixtures.net_status 404 "Not Found") ep "/a.mp3" d0;
              OpRetrySweep 3; OpCancel 1;
              OpEnqueue (Fixtures.sample_fm 0) 1] in
  exists d',
    downloads (run_ops ops s0) !! 1 = Some d'
    /\ file_path d' = Some "News/a.mp3"%string.
Proof.
  intros ep d0 s0 ops.
  destruct (identity_stable ops s0 1 d0 ltac:(by_compute) eq_refl)
    as (d' & Hd' & _ & _ & Hp & _).
  exists d'. split; [exact Hd'|exact Hp].
Defined.

(* --------------------------------------------------------------------- *)
(** ** The engine: delete, retry sweep, download *)
(* --------------------------------------------------------------------- *)

Section Engine.
Import DownloadEngine.

(** [delete_download] answers false for an id with no row and changes
    nothing; for a row that exists it answers true and removes exactly
    that row, whether or not a file was there, and removes the file at
    the row's path under the base directory only when asked to and the
    row has a path (and then unless the file system refuses, which
    [delete_file] swallows); podcasts, episodes, the other rows and the
    other files stay. *)
Theorem delete_download_spec (fm : FileManager.t) (s : State) (k : Z)
    (flag : bool) :
  well_keyed s ->
  match downloads s !! k with
  | None => delete_download fm k flag s = (inr false, s)
  | Some d =>
      exists s',
        delete_download fm k flag s = (inr true, s')
        /\ downloads s' = delete k (downloads s)
        /\ files s' = (if flag && truthy_str (file_path d)
                          && negb (FileManager.unlink_fails fm (full_path_of fm d))
                       then delete (full_path_of fm d) (files s)
                       else files s)
        /\ episodes s' = episodes s /\ podcasts s' = podcasts s
  end.
Proof.
  intros Hwk. unfold delete_download. run_step.
  destruct (downloads s !! k) as [d|] eqn:Hd; cbn; [|done].
  rewrite (well_keyed_lookup _ _ _ Hwk Hd).
  destruct (flag && truthy_str (file_path d)); cbn.
  - unfold FileManager.delete_file, FileManager.unlink, try_except. run_step.
    fold (full_path_of fm d).
    destruct (files s !! full_path_of fm d) eqn:Hf; cbn.
    + destruct (FileManager.unlink_fails fm (full_path_of fm d)); cbn;
        eexists; (split; [reflexivity|]); by repeat split.
    + eexists. split; [reflexivity|]. repeat split; try done.
      cbn. destruct (negb _); [|done]. by rewrite delete_id.
  - eexists. split; [reflexivity|]. by repeat split.
Qed.

Lemma NoDup_row_ids (s : State) :
  well_keyed s -> NoDup (id <$> (snd <$> map_to_list (downloads s))).
Proof.
  intros Hwk. rewrite <- list_fmap_compose.
  apply NoDup_fmap_2_strong; [|apply NoDup_map_to_list].
  intros [k1 d1] [k2 d2] H1 H2 Heq. cbn in Heq.
  apply elem_of_map_to_list in H1, H2.
  pose proof (well_keyed_lookup _ _ _ Hwk H1).
  pose proof (well_keyed_lookup _ _ _ Hwk H2).
  assert (k1 = k2) as -> by congruence. congruence.
Qed.

(** The reset loop on rows of the table with distinct keys. *)
Lemma reset_each_rows (rows : list Download) :
  forall s,
    NoDup (id <$> rows) ->
    (forall x, x ∈ rows -> downloads s !! id x = Some x) ->
    exists s',
      reset_each rows s = (inr tt, s')
      /\ files s' = files s /\ episodes s' = episodes s
      /\ podcasts s' = podcasts s
      /\ (forall k, k ∉ id <$> rows -> downloads s' !! k = downloads s !! k)
      /\ forall x, x ∈ rows ->
           exists t, downloads s' !! id x
                     = Some (set_updated_at t
                               (set_error_message None
                                  (set_progress 0 (set_status pending x)))).
Proof.
  induction rows as [|x rows IH]; intros s Hnd Hrows.
  - exists s. repeat split; try done. intros x Hx. by apply elem_of_nil in Hx.
  - rewrite fmap_cons in Hnd. apply NoDup_cons in Hnd as [Hx Hnd].
    cbn [reset_each]. run_keep.
    match goal with
    | |- context [reset_each rows ?s1] =>
        destruct (IH s1 Hnd) as (s' & Hrun & Hf & He & Hp & Hother & Hreset)
    end.
    { intros y Hy. cbn. rewrite lookup_insert_ne; [by apply Hrows; right|].
      intros Heq. apply Hx. rewrite Heq. by apply list_elem_of_fmap_2. }
    exists s'. split; [exact Hrun|]. split; [done|]. split; [done|].
    split; [done|]. split.
    + intros k Hk. rewrite Hother.
      * cbn. rewrite lookup_insert_ne; [done|]. intros <-. apply Hk. by left.
      * intros Hin. apply Hk. by right.
    + intros y Hy. apply elem_of_cons in Hy as [->|Hy]; [|by apply Hreset].
      exists (clock s (ticks s)). rewrite Hother; [|done].
      cbn. apply lookup_insert_eq.
Qed.

(** The reset step of [retry_failed_downloads]: every failed row whose
    [retry_count] is below the ceiling becomes pending with progress 0
    and no error message, its retry count, file and path as they were;
    every other row (failed at or above the ceiling included) is left
    exactly as it is; no row appears or disappears and no file is
    touched; the number returned is the number of rows reset. *)
Theorem retry_sweep_spec (max_retries : Z) (s : State) :
  well_keyed s ->
  exists s',
    reset_failed_downloads max_retries s
      = (inr (Z.of_nat (length
                (filter (fun d => status d = failed
                                  /\ retry_count d < max_retries)
                        (snd <$> map_to_list (downloads s))))), s')
    /\ files s' = files s
    /\ forall k,
         match downloads s !! k with
         | None => downloads s' !! k = None
         | Some d =>
             if bool_decide (status d = failed /\ retry_count d < max_retries)
             then exists t,
                    downloads s' !! k
                    = Some (set_updated_at t
                              (set_error_message None
                                 (set_progress 0 (set_status pending d))))
             else downloads s' !! k = Some d
         end.
Proof.
  intros Hwk.
  assert (forall x, x ∈ select_failed max_retries s <->
            downloads s !! id x = Some x
            /\ status x = failed /\ retry_count x < max_retries) as Hmem.
  { intros x. unfold select_failed. rewrite sort_by_perm.
    rewrite list_elem_of_filter, list_elem_of_fmap. split.
    - intros [Hp ([k x'] & -> & Hx)]. apply elem_of_map_to_list in Hx.
      cbn. by rewrite (well_keyed_lookup _ _ _ Hwk Hx).
    - intros [Hx Hp]. split; [done|]. exists (id x, x). split; [done|].
      by apply elem_of_map_to_list. }
  assert (NoDup (id <$> select_failed max_retries s)) as Hnd.
  { unfold select_failed. rewrite sort_by_perm.
    assert (id <$> filter (fun d => status d = failed
                                    /\ retry_count d < max_retries)
                     (snd <$> map_to_list (downloads s))
            `sublist_of` id <$> (snd <$> map_to_list (downloads s))) as Hsub
      by apply fmap_sublist, sublist_filter.
    pose proof (NoDup_row_ids s Hwk) as Hall.
    by eapply sublist_NoDup. }
  assert (length (select_failed max_retries s)
          = length (filter (fun d => status d = failed
                                     /\ retry_count d < max_retries)
                           (snd <$> map_to_list (downloads s)))) as Hlen.
  { unfold select_failed. by rewrite sort_by_perm. }
  destruct (reset_each_rows (select_failed max_retries s) s Hnd)
    as (s' & Hrun & Hf & _ & _ & Hother & Hreset).
  { intros x Hx. by apply Hmem in Hx as [? _]. }
  assert (forall k,
    match downloads s !! k with
    | None => downloads s' !! k = None
    | Some d =>
        if bool_decide (status d = failed /\ retry_count d < max_retries)
        then exists t,
               downloads s' !! k
               = Some (set_updated_at t
                         (set_error_message None
                            (set_progress 0 (set_status pending d))))
        else downloads s' !! k = Some d
    end) as Hrows.
  { intros k. destruct (downloads s !! k) as [d|] eqn:Hd.
    - pose proof (well_keyed_lookup _ _ _ Hwk Hd) as Hid.
      case_bool_decide as Hp.
      + rewrite <- Hid. apply Hreset, Hmem. by rewrite Hid.
      + rewrite Hother; [done|]. intros Hin.
        apply list_elem_of_fmap in Hin as (x & -> & Hx).
        apply Hmem in Hx as [Hx Hpx]. by assert (x = d) as -> by congruence.
    - rewrite Hother; [done|]. intros Hin.
      apply list_elem_of_fmap in Hin as (x & -> & Hx).
      apply Hmem in Hx as [Hx _]. congruence. }
  unfold reset_failed_downloads. run_step. rewrite <- Hlen.
  destruct (select_failed max_retries s) as [|x rows] eqn:Hsel.
  - exists s. cbn in Hrun. injection Hrun as <-. by repeat split.
  - rewrite Hrun. cbn. exists s'. by repeat split.
Qed.


End Engine.

Lemma delete_download_witness :
  let d1 := Fixtures.download_of 1 completed (Some "News/a.mp3"%string) in
  let s0 := Fixtures.state_of [Fixtures.episode_of 1 None] [d1] [] in
  exists s',
    DownloadEngine.delete_download (Fixtures.sample_fm 0) 1 true s0
      = (inr true, s')
    /\ downloads s' !! 1 = None.
Proof.
  intros d1 s0.
  pose proof (delete_download_spec (Fixtures.sample_fm 0) s0 1 true
                ltac:(by_compute)) as H.
  change (downloads s0 !! 1) with (Some d1) in H.
  destruct H as (s' & Hrun & Hrows & _).
  exists s'. split; [exact Hrun|]. rewrite Hrows. apply lookup_delete_eq.
Defined.

Lemma retry_sweep_witness :
  let d1 := Fixtures.download_of 1 failed (Some "News/a.mp3"%string) in
  let d2 := set_retry_count 3 (Fixtures.download_of 2 failed None) in
  let s0 := Fixtures.state_of [] [d1; d2] [] in
  exists s',
    DownloadEngine.reset_failed_downloads 3 s0 = (inr 1, s')
    /\ (exists t, downloads s' !! 1 = Some (set_updated_at t
                    (set_error_message None
                       (set_progress 0 (set_status pending d1)))))
    /\ downloads s' !! 2 = Some d2.
Proof.
  intros d1 d2 s0.
  destruct (retry_sweep_spec 3 s0 ltac:(by_compute)) as (s' & Hrun & _ & Hrows).
  exists s'. split; [exact Hrun|]. split.
  - exact (Hrows 1).
  - exact (Hrows 2).
Defined.


(* --------------------------------------------------------------------- *)
(** ** The constraints of the table *)
(* --------------------------------------------------------------------- *)

Section Tables.
Import DownloadService DownloadEngine.

Lemma episode_column_insert (m : gmap Z Download) (k : Z) (d : Download) :
  m !! k = None ->
  (fun kd : Z * Download => episode_id (snd kd)) <$> map_to_list (<[k := d]> m)
  ≡ₚ episode_id d
     :: ((fun kd : Z * Download => episode_id (snd kd)) <$> map_to_list m).
Proof. intros Hk. by rewrite map_to_list_insert. Qed.

Lemma unique_put_new (s : State) (d : Download) :
  unique_episode s -> downloads s !! id d = None ->
  no_download_for s (episode_id d) -> unique_episode (put_download d s).
Proof.
  unfold unique_episode. intros Hu Hk Hno. cbn.
  rewrite episode_column_insert; [|done].
  apply NoDup_cons. split; [|done].
  intros Hin. apply list_elem_of_fmap in Hin as ([k x] & Heq & Hx).
  apply elem_of_map_to_list in Hx. cbn in Heq.
  by apply (map_Forall_lookup_1 _ _ _ _ Hno Hx).
Qed.

Lemma unique_put_same (s : State) (d1 d2 : Download) :
  unique_episode s -> downloads s !! id d2 = Some d1 ->
  episode_id d2 = episode_id d1 -> unique_episode (put_download d2 s).
Proof.
  unfold unique_episode. intros Hu Hk He. cbn.
  rewrite <- (insert_delete_id (downloads s) (id d2) d1 Hk) in Hu.
  rewrite episode_column_insert in Hu by apply lookup_delete_eq.
  rewrite <- insert_delete_eq.
  rewrite episode_column_insert by apply lookup_delete_eq.
  by rewrite He.
Qed.

Lemma tables_put_row s n d1 d2 :
  tables_ok s -> downloads s !! id d1 = Some d1 -> same_identity d1 d2 ->
  tables_ok (put_download d2 (set_ticks n s)).
Proof.
  intros [Hwk Hu] Hd1 (Hid & He & _). split.
  - by apply (well_keyed_commit (set_ticks n s)).
  - apply (unique_put_same (set_ticks n s) d1); [done| |done].
    cbn. by rewrite Hid.
Qed.

Lemma tables_queue fm e s :
  tables_ok s -> tables_ok (snd (queue_episode_download fm e s)).
Proof.
  intros Hok. pose proof Hok as [Hwk Hu].
  unfold queue_episode_download, episode_podcast. run_keep.
  destruct (episodes s !! e) as [ep|]; cbn; [|done].
  pose proof (select_by_episode_row s e) as Hrow.
  assert (forall k d, downloads s !! k = Some d -> episode_id d = e ->
            d ∈ select_downloads_by_episode s e) as Hcont
    by (intros k d Hd <-; by eapply select_contains).
  destruct (select_downloads_by_episode s e) as [|x [|y l]]; cbn; [| |done].
  - destruct (podcasts s !! podcast_id ep) as [p|]; cbn; [|done].
    destruct (FileManager.get_episode_file_path fm ep p s) as [r s1] eqn:Hplan.
    apply get_episode_file_path_frame in Hplan as [n ->].
    destruct r as [err|[full rel]]; cbn; [done|].
    unfold FileManager.get_available_space. run_keep.
    assert (tables_ok (snd (add_download e rel (set_ticks n s)))) as Hadd.
    { unfold add_download. run_keep. cbn. split.
      - by apply (well_keyed_commit (tick (tick (set_ticks n s)))).
      - apply (unique_put_new (tick (tick (set_ticks n s)))); [done|..].
        + cbn. apply next_pk_fresh.
        + cbn. intros k d Hd Heq.
          by apply (elem_of_nil d), (Hcont k). }
    destruct (truthy_int _); cbn; [|done].
    by destruct (_ <? _).
  - specialize (Hrow x Hwk ltac:(by left)).
    destruct (status x); cbn; try done;
      (apply (tables_put_row s (S (ticks s)) x); [done|done|by repeat split]).
Qed.

Lemma tables_cancel k s :
  tables_ok s -> tables_ok (snd (cancel_download k s)).
Proof.
  intros Hok. pose proof Hok as [Hwk Hu].
  unfold cancel_download. run_keep.
  destruct (downloads s !! k) as [d|] eqn:Hd; cbn; [|done].
  destruct (bool_decide _) eqn:Hst; cbn; [done|].
  apply (tables_put_row s (S (ticks s)) d); [done| |by repeat split].
  by rewrite (well_keyed_lookup _ _ _ Hwk Hd).
Qed.

Lemma tables_reset_each rows :
  forall s,
    tables_ok s ->
    (forall x, x ∈ rows -> exists d, downloads s !! id x = Some d
                                     /\ same_identity d x) ->
    tables_ok (snd (reset_each rows s)).
Proof.
  induction rows as [|x rows IH]; intros s Hs Hrows; [done|].
  cbn [reset_each]. run_keep.
  destruct (Hrows x ltac:(by left)) as (d & Hd & Hsame).
  pose proof Hs as [Hwk _].
  pose proof (well_keyed_lookup _ _ _ Hwk Hd) as Hid.
  apply IH.
  - apply (tables_put_row s (S (ticks s)) d); [done|by rewrite Hid|].
    destruct Hsame as (?&?&?&?). by repeat split.
  - intros y Hy. destruct (Hrows y ltac:(by right)) as (dy & Hdy & Hsy).
    cbn. destruct (decide (id y = id x)) as [Heq|Hne].
    + rewrite Heq, lookup_insert_eq. eexists. split; [reflexivity|].
      rewrite Heq in Hdy. assert (dy = d) as -> by congruence.
      destruct Hsame as (?&?&?&?), Hsy as (?&?&?&?).
      repeat split; cbn; congruence.
    + rewrite lookup_insert_ne; [|done]. eauto.
Qed.

Lemma tables_sweep max_retries s :
  tables_ok s -> tables_ok (snd (reset_failed_downloads max_retries s)).
Proof.
  intros Hok. pose proof Hok as [Hwk Hu].
  unfold reset_failed_downloads. run_keep.
  assert (forall x, x ∈ select_failed max_retries s ->
            exists d, downloads s !! id x = Some d /\ same_identity d x)
    as Hrows.
  { intros x Hx. unfold select_failed in Hx.
    rewrite sort_by_perm in Hx. apply list_elem_of_filter in Hx as [_ Hx].
    apply list_elem_of_fmap in Hx as ([k x'] & -> & Hx).
    apply elem_of_map_to_list in Hx. cbn. exists x'. split.
    - by rewrite (well_keyed_lookup _ _ _ Hwk Hx).
    - apply same_identity_refl. }
  pose proof (tables_reset_each (select_failed max_retries s) s Hok Hrows)
    as Hreset.
  destruct (select_failed max_retries s) as [|x rows]; [done|].
  remember (x :: rows) as l.
  by destruct (reset_each l s) as [[e|u] s'].
Qed.

Lemma tables_transfer net episode path dl s :
  tables_ok s -> tables_ok (snd (DownloadService.download_episode net episode path dl s)).
Proof.
  intros [Hwk Hu].
  destruct (wp_snd _ _ _ (confined_download_episode net episode path dl s Hwk))
    as (Hwk' & _ & _ & Hrows & Hrow & _).
  split; [done|].
  set (s' := snd (DownloadService.download_episode net episode path dl s)) in *.
  destruct (downloads s !! id dl) as [d|] eqn:Hd.
  - destruct Hrow as (d' & Hd' & Hid & He & _).
    pose proof (well_keyed_lookup _ _ _ Hwk Hd) as Hk.
    assert (downloads s' = downloads (put_download d' s)) as Heq.
    { apply map_eq. intros j. cbn. rewrite Hid, Hk.
      destruct (decide (j = id dl)) as [->|Hne].
      - by rewrite lookup_insert_eq.
      - rewrite lookup_insert_ne; [|done]. by apply Hrows. }
    unfold unique_episode. rewrite Heq.
    apply (unique_put_same s d); [done| |done]. by rewrite Hid, Hk.
  - assert (downloads s' = downloads s) as Heq.
    { apply map_eq. intros j.
      destruct (decide (j = id dl)) as [->|Hne]; [congruence|].
      by apply Hrows. }
    unfold unique_episode. by rewrite Heq.
Qed.

Lemma tables_run_op (op : Op) (s : State) :
  tables_ok s -> tables_ok (run_op op s).
Proof.
  intros Hok. pose proof Hok as [Hwk Hu].
  destruct op; cbn [run_op].
  - by apply tables_queue.
  - apply wp_snd, wp_update_status.
    destruct (downloads s !! id dl) as [d|] eqn:Hd; [|done].
    apply (tables_put_row s (S (ticks s)) d); [done| |].
    + by rewrite (well_keyed_lookup _ _ _ Hwk Hd).
    + destruct started; by repeat split.
  - apply wp_snd, wp_update_progress.
    destruct (downloads s !! id dl) as [d|] eqn:Hd; [|done].
    apply (tables_put_row s (S (ticks s)) d); [done| |by repeat split].
    by rewrite (well_keyed_lookup _ _ _ Hwk Hd).
  - apply wp_snd, wp_mark_complete.
    destruct (files s !! path); [|done].
    destruct (downloads s !! id dl) as [d|] eqn:Hd; [|done].
    apply (tables_put_row s (S (S (ticks s))) d); [done| |by repeat split].
    by rewrite (well_keyed_lookup _ _ _ Hwk Hd).
  - apply wp_snd, wp_mark_failed.
    destruct (downloads s !! id dl) as [d|] eqn:Hd; [|done].
    apply (tables_put_row s (S (ticks s)) d); [done| |by repeat split].
    by rewrite (well_keyed_lookup _ _ _ Hwk Hd).
  - by apply tables_transfer.
  - by apply tables_cancel.
  - by apply tables_sweep.
Qed.

End Tables.

(** The table never gets a second row for an episode: from a table in
    which every row sits under its own key and no two rows share an
    episode, any sequence of admissions, status and progress writes,
    mark-complete, mark-failed, whole transfers, cancellations and retry
    sweeps leaves a table of the same kind. *)
Theorem tables_preserved (ops : list Op) (s : State) :
  well_keyed s -> unique_episode s ->
  well_keyed (run_ops ops s) /\ unique_episode (run_ops ops s).
Proof.
  intros Hwk Hu. assert (tables_ok s) as Hok by done. clear Hwk Hu.
  revert s Hok. induction ops as [|op ops IH]; intros s Hok; [done|].
  cbn [run_ops foldl]. apply IH. by apply tables_run_op.
Qed.

Lemma tables_preserved_witness :
  let ep := Fixtures.episode_of 1 None in
  let d0 := Fixtures.download_of 1 failed (Some "News/a.mp3"%string) in
  let s0 := Fixtures.state_of [ep; Fixtures.episode_of 2 None] [d0] [] in
  let ops := [OpEnqueue (Fixtures.sample_fm 0) 1;
              OpEnqueue (Fixtures.sample_fm 0) 2;
              OpEnqueue (Fixtures.sample_fm 0) 2; OpCancel 1] in
  unique_episode (run_ops ops s0).
Proof.
  intros ep d0 s0 ops.
  exact (proj2 (tables_preserved ops s0 ltac:(by_compute) ltac:(by_compute))).
Defined.

(* --------------------------------------------------------------------- *)
(** ** What the retention sweep leaves alone *)
(* --------------------------------------------------------------------- *)

(** The retention sweep only removes: every row of the table after it
    was there before, unchanged; every row that is not completed is
    still there; no file is created or changed (a path holds what it
    held, or nothing); the episodes are untouched. *)
Theorem retention_sweep_frame (fm : FileManager.t)
    (plex_service : option Jobs.PlexService) (s : State) :
  well_keyed s ->
  map_Forall (fun k p => podcast_pk p = k) (podcasts s) ->
  let s' := snd (Jobs.cleanup_old_episodes_job fm plex_service s) in
  episodes s' = episodes s
  /\ (forall k d, downloads s' !! k = Some d -> downloads s !! k = Some d)
  /\ (forall k d, downloads s !! k = Some d -> status d <> completed ->
        downloads s' !! k = Some d)
  /\ (forall path,
        files s' !! path = None \/ files s' !! path = files s !! path).
Proof.
  intros Hwk Hkeys. unfold Jobs.cleanup_old_episodes_job. run_keep.
  destruct (cleanup_each_spec fm plex_service
              (snd <$> map_to_list (podcasts s)) (NoDup_podcasts s Hkeys)
              (Jobs.mkTotals 0 0 0) s Hwk)
    as (totals & s' & Hrun & _ & Hep & Hsub & Hfiles & _ & Hkeep).
  rewrite Hrun. cbn [snd]. split; [done|]. split; [done|]. split; [|done].
  intros k d Hd Hst. apply Hkeep; [done|].
  intros q e _ (_ & _ & _ & Hc). done.
Qed.

Lemma retention_sweep_frame_witness :
  let failed3 := Fixtures.download_of 3 failed (Some "News/3.mp3"%string) in
  let s0 := Fixtures.state_of
              [Fixtures.episode_of 1 None; Fixtures.episode_of 2 None;
               Fixtures.episode_of 3 None]
              [Fixtures.completed_with_file 1; failed3]
              [("/data/podcasts/News/3.mp3"%string, Fixtures.zeros 3)] in
  let s' := snd (Jobs.cleanup_old_episodes_job (Fixtures.sample_fm 0) None s0) in
  downloads s' !! 3 = Some failed3.
Proof.
  intros failed3 s0 s'.
  destruct (retention_sweep_frame (Fixtures.sample_fm 0) None s0
              ltac:(by_compute) ltac:(by_compute)) as (_ & _ & Hkeep & _).
  apply (Hkeep 3 failed3); [reflexivity|discriminate].
Defined.

(* --------------------------------------------------------------------- *)
(** ** Folder names *)
(* --------------------------------------------------------------------- *)

Section FolderNames.
Import Pathlib Validators.

(** A character a folder name may keep: not one of the invalid ones (the
    separator among them), and not a blank. *)
Local Abbreviation clean :=
  (fun c : ascii => is_invalid_char c = false /\ c <> " "%char).

Lemma map_chars_valid (s : string) :
  Forall (fun c => is_invalid_char c = false)
    (list_ascii_of_string
       (map_chars (fun c => if is_invalid_char c then "-"%char else c) s)).
Proof.
  induction s as [|c s IH]; cbn [map_chars list_ascii_of_string]; [done|].
  constructor; [|done]. by destruct (is_invalid_char c) eqn:Hc.
Qed.

Lemma lstrip_Forall (P : ascii -> Prop) drop (s : string) :
  Forall P (list_ascii_of_string s) ->
  Forall P (list_ascii_of_string (lstrip drop s)).
Proof.
  induction s as [|c s IH]; cbn [lstrip]; [done|]. intros H.
  destruct (drop c); [|done]. apply IH. cbn in H. by inversion H.
Qed.

Lemma lstrip_head drop (s : string) :
  match lstrip drop s with
  | String c _ => drop c = false
  | EmptyString => True
  end.
Proof.
  induction s as [|c s IH]; cbn [lstrip]; [done|].
  by destruct (drop c) eqn:Hc.
Qed.

Lemma rstrip_Forall (P : ascii -> Prop) drop (s : string) :
  Forall P (list_ascii_of_string s) ->
  Forall P (list_ascii_of_string (rstrip drop s)).
Proof.
  induction s as [|c s IH]; cbn [rstrip]; [done|]. intros H.
  cbn in H. inversion H as [|? ? Hc Hs]; subst.
  specialize (IH Hs).
  destruct (rstrip drop s) as [|c' k].
  - destruct (drop c); cbn; [done|]. by constructor.
  - cbn. by constructor.
Qed.

Lemma rstrip_head drop (s : string) :
  match rstrip drop s, s with
  | String c _, String c0 _ => c = c0
  | String _ _, EmptyString => False
  | EmptyString, _ => True
  end.
Proof.
  destruct s as [|c s]; cbn [rstrip]; [done|].
  destruct (rstrip drop s); [by destruct (drop c)|done].
Qed.

Lemma collapse_runs_clean (s : string) :
  forall in_run,
    Forall (fun c => is_invalid_char c = false) (list_ascii_of_string s) ->
    Forall clean (list_ascii_of_string (collapse_runs in_run s)).
Proof.
  induction s as [|c s IH]; intros in_run H; cbn [collapse_runs]; [done|].
  cbn in H. inversion H as [|? ? Hc Hs]; subst.
  destruct (Ascii.eqb c "-" || is_space c) eqn:Hrun.
  - destruct in_run; [by apply IH|]. cbn. constructor; [|by apply IH].
    split; [reflexivity|discriminate].
  - cbn. constructor; [|by apply IH]. split; [done|].
    intros ->. discriminate.
Qed.

Lemma collapse_runs_head (s : string) :
  match collapse_runs false s, s with
  | String c _, String c0 _ => c = c0 \/ c = "-"%char
  | String _ _, EmptyString => False
  | EmptyString, String _ _ => False
  | EmptyString, EmptyString => True
  end.
Proof.
  destruct s as [|c s]; cbn [collapse_runs]; [done|].
  destruct (Ascii.eqb c "-" || is_space c); auto.
Qed.

Lemma split_on_plain (s : string) :
  Forall (fun c => c <> "/"%char) (list_ascii_of_string s) ->
  split_on "/" s = [s].
Proof.
  induction s as [|c s IH]; cbn [split_on]; [done|]. intros H.
  cbn in H. inversion H as [|? ? Hc Hs]; subst.
  destruct (Ascii.eqb_spec c "/"); [done|]. by rewrite (IH Hs).
Qed.

(** The folder name made from a title. *)
Lemma sanitize_folder_name_clean (folder_name : string) :
  let safe_name := sanitize_folder_name folder_name in
  Forall clean (list_ascii_of_string safe_name)
  /\ match safe_name with
     | String c _ => c <> "."%char
     | EmptyString => False
     end.
Proof.
  cbn zeta. unfold sanitize_folder_name.
  set (strip_char := fun c => Ascii.eqb c "." || Ascii.eqb c " ").
  set (replaced := map_chars _ folder_name).
  pose proof (map_chars_valid folder_name) as Hvalid. fold replaced in Hvalid.
  apply (lstrip_Forall _ strip_char) in Hvalid.
  apply (rstrip_Forall _ strip_char) in Hvalid.
  pose proof (lstrip_head strip_char replaced) as Hl.
  pose proof (rstrip_head strip_char (lstrip strip_char replaced)) as Hr.
  set (stripped := rstrip strip_char (lstrip strip_char replaced)) in *.
  pose proof (collapse_runs_clean stripped false Hvalid) as Hclean.
  pose proof (collapse_runs_head stripped) as Hhead.
  destruct (collapse_runs false stripped) as [|c k] eqn:Hres.
  - split; [|discriminate].
    repeat constructor; discriminate.
  - split; [done|]. destruct stripped as [|c0 k0]; [done|].
    destruct (lstrip strip_char replaced) as [|c1 k1]; [done|]. subst c1.
    destruct Hhead as [->| ->]; [|discriminate].
    intros ->. discriminate.
Qed.

Lemma of_string_component (name : string) :
  Forall (fun c => c <> "/"%char) (list_ascii_of_string name) ->
  name <> EmptyString -> name <> "."%string ->
  of_string name = mkPath false [name].
Proof.
  intros Hplain Hne Hdot. unfold of_string. rewrite split_on_plain by done.
  f_equal.
  - destruct name as [|c k]; [done|]. cbn in Hplain.
    inversion Hplain as [|? ? Hc _]; subst. cbn [String.prefix].
    destruct (ascii_dec "/" c) as [Heq|Hneq]; [by subst|done].
  - by rewrite filter_cons_True.
Qed.

End FolderNames.

(** [sanitize_folder_name] always gives a usable name of one path
    component: it is not empty, holds none of the characters that
    are invalid in file names (the separators [/] and [\] among them) and
    no blank, and does not begin with a dot (so it is neither [.] nor
    [..]). *)
Theorem sanitize_folder_name_safe (folder_name : string) :
  let safe_name := Validators.sanitize_folder_name folder_name in
  safe_name <> EmptyString
  /\ Forall (fun c => Validators.is_invalid_char c = false /\ c <> " "%char)
       (list_ascii_of_string safe_name)
  /\ String.prefix "." safe_name = false.
Proof.
  cbn zeta.
  destruct (sanitize_folder_name_clean folder_name) as [Hclean Hhead].
  cbn zeta in Hclean, Hhead.
  destruct (Validators.sanitize_folder_name folder_name) as [|c k]; [done|].
  split; [done|]. split; [done|]. cbn [String.prefix].
  destruct (ascii_dec "." c) as [Heq|Hneq]; [by subst|done].
Qed.

(** The directory of a podcast whose [download_path] is unset, or is the
    sanitized title it gets at subscription, is a direct child of the
    base directory, named by the sanitized title. *)
Theorem podcast_directory_child (fm : FileManager.t) (podcast : Podcast)
    (name : string) :
  (truthy_str (download_path podcast) = false
   /\ name = podcast_title podcast)
  \/ download_path podcast = Some (Validators.sanitize_folder_name name) ->
  FileManager.get_podcast_directory fm podcast
  = Pathlib.mkPath (Pathlib.is_absolute (FileManager.base_path fm))
      (Pathlib.parts (FileManager.base_path fm)
         ++ [Validators.sanitize_folder_name name])
  /\ strictly_inside (FileManager.base_path fm)
       (FileManager.get_podcast_directory fm podcast).
Proof.
  intros Hcase.
  destruct (sanitize_folder_name_clean name) as [Hclean Hhead].
  cbn zeta in Hclean, Hhead.
  assert (Pathlib.of_string (Validators.sanitize_folder_name name)
          = Pathlib.mkPath false [Validators.sanitize_folder_name name]) as Hof.
  { apply of_string_component.
    - eapply Forall_impl; [exact Hclean|]. intros c [Hc _] ->. discriminate.
    - by destruct (Validators.sanitize_folder_name name).
    - destruct (Validators.sanitize_folder_name name) as [|c k]; [done|].
      intros [= -> _]. done. }
  assert (FileManager.get_podcast_directory fm podcast
          = Pathlib.mkPath (Pathlib.is_absolute (FileManager.base_path fm))
              (Pathlib.parts (FileManager.base_path fm)
                 ++ [Validators.sanitize_folder_name name])) as Hdir.
  { unfold FileManager.get_podcast_directory.
    destruct Hcase as [[Hunset ->] | Hset].
    - rewrite Hunset. by rewrite Hof.
    - rewrite Hset.
      assert (truthy_str (Some (Validators.sanitize_folder_name name)) = true)
        as -> by (by destruct (Validators.sanitize_folder_name name)).
      change (default EmptyString (Some (Validators.sanitize_folder_name name)))
        with (Validators.sanitize_folder_name name).
      by rewrite Hof. }
  split; [exact Hdir|]. rewrite Hdir. split; [done|].
  eexists. split; [|reflexivity]. done.
Qed.

Lemma podcast_directory_child_witness :
  let podcast := mkPodcast 7 "../a/b: c?" None 5 true in
  FileManager.get_podcast_directory (Fixtures.sample_fm 0) podcast
  = Pathlib.mkPath true ["data"; "podcasts"; "-a-b-c-"]%string.
Proof.
  intros podcast.
  exact (proj1 (podcast_directory_child (Fixtures.sample_fm 0) podcast
                  "../a/b: c?" (or_introl (conj eq_refl eq_refl)))).
Defined.

(* --------------------------------------------------------------------- *)
(** ** The stored path leads back to the planned destination *)
(* --------------------------------------------------------------------- *)

Section RoundTrip.
Import Pathlib.

Lemma split_on_cons (s : string) : exists h t, split_on "/" s = h :: t.
Proof.
  induction s as [|c s (h & t & IH)]; cbn [split_on]; [eauto|].
  destruct (Ascii.eqb c "/"); [eauto|]. rewrite IH. eauto.
Qed.

Lemma split_on_sep (p rest : string) :
  Forall (fun a => a <> "/"%char) (list_ascii_of_string p) ->
  split_on "/" (p +:+ "/" +:+ rest) = p :: split_on "/" rest.
Proof.
  induction p as [|c p IH]; intros Hp.
  - reflexivity.
  - cbn in Hp. inversion Hp as [|? ? Hc Hrest]; subst.
    change (String c p +:+ "/" +:+ rest) with (String c (p +:+ "/" +:+ rest)).
    cbn [split_on]. destruct (Ascii.eqb_spec c "/"); [done|].
    by rewrite (IH Hrest).
Qed.

Lemma split_on_component (p : string) :
  Forall (fun a => a <> "/"%char) (list_ascii_of_string p) ->
  split_on "/" p = [p].
Proof.
  induction p as [|c p IH]; intros Hp; [done|].
  cbn in Hp. inversion Hp as [|? ? Hc Hrest]; subst.
  cbn [split_on]. destruct (Ascii.eqb_spec c "/"); [done|].
  by rewrite (IH Hrest).
Qed.

Lemma split_on_join_parts (ps : list string) :
  ps <> [] -> Forall component ps -> split_on "/" (join_parts ps) = ps.
Proof.
  induction ps as [|p ps IH]; intros Hne Hall; [done|].
  inversion Hall as [|? ? (_ & _ & Hp) Hps]; subst.
  destruct ps as [|q ps].
  - cbn. by apply split_on_component.
  - change (join_parts (p :: q :: ps))
      with (p +:+ "/" +:+ join_parts (q :: ps)).
    rewrite split_on_sep by done. by rewrite IH.
Qed.

Lemma join_parts_head (ps : list string) :
  ps <> [] -> Forall component ps ->
  String.prefix "/" (join_parts ps) = false.
Proof.
  intros Hne Hall. destruct ps as [|p ps]; [done|].
  inversion Hall as [|? ? (Hp0 & _ & Hp) Hps]; subst.
  destruct p as [|c p]; [done|]. cbn in Hp.
  inversion Hp as [|? ? Hc _]; subst.
  assert (exists t, join_parts (String c p :: ps) = String c t) as [t ->].
  { destruct ps; cbn; eauto. }
  cbn [String.prefix]. by destruct (ascii_dec "/" c) as [<-|].
Qed.

(** [Path(str(p)) == p] for a relative path. *)
Lemma of_string_to_string (ps : list string) :
  Forall component ps -> of_string (to_string (mkPath false ps)) = mkPath false ps.
Proof.
  intros Hall. destruct ps as [|p ps]; [done|].
  unfold to_string. cbn [is_absolute parts].
  unfold of_string. rewrite join_parts_head, split_on_join_parts by done.
  f_equal. clear -Hall. induction Hall as [|c l (H0 & H1 & _) Hl IH]; [done|].
  rewrite filter_cons_True by done. by rewrite IH.
Qed.

Lemma of_string_components (s : string) : Forall component (parts (of_string s)).
Proof.
  unfold of_string. cbn [parts].
  assert (Forall (fun c => Forall (fun a => a <> "/"%char)
                             (list_ascii_of_string c)) (split_on "/" s)) as H.
  { induction s as [|c s IH]; cbn [split_on]; [by repeat constructor|].
    destruct (Ascii.eqb_spec c "/") as [->|Hc].
    - constructor; [done|exact IH].
    - destruct (split_on "/" s) as [|h t]; [repeat constructor; done|].
      inversion IH; subst. constructor; [|done]. cbn. by constructor. }
  induction H as [|c l Hc Hl IH]; [done|].
  destruct (decide (c <> EmptyString /\ c <> "."%string)) as [Hk|Hk].
  - rewrite filter_cons_True by done. constructor; [|done].
    destruct Hk. by repeat split.
  - by rewrite filter_cons_False.
Qed.

Lemma join_components (a b : Path) :
  Forall component (parts a) -> Forall component (parts b) ->
  Forall component (parts (join a b)).
Proof.
  intros Ha Hb. unfold join. destruct (is_absolute b); [done|].
  cbn. by apply Forall_app.
Qed.

End RoundTrip.

(** The relative path [get_episode_file_path] returns, which admission
    stores in the row, leads back to the destination it planned: joined
    to the base directory again, as the engine does before a transfer, it
    is the full path. *)
Theorem planned_path_round_trip (fm : FileManager.t) (episode : Episode)
    (podcast : Podcast) (s s1 : State) (full_path : Pathlib.Path)
    (relative_path : string) :
  FileManager.get_episode_file_path fm episode podcast s
    = (inr (full_path, relative_path), s1) ->
  Pathlib.join (FileManager.base_path fm) (Pathlib.of_string relative_path)
  = full_path.
Proof.
  unfold FileManager.get_episode_file_path.
  unfold mbind, M_bind at 1.
  destruct (FileManager.generate_episode_filename fm episode podcast s)
    as [[e|filename] s0]; [done|].
  set (dir := FileManager.get_podcast_directory fm podcast).
  set (full := Pathlib.join dir (Pathlib.of_string filename)).
  destruct (FileManager.relative_to full (FileManager.base_path fm))
    as [rel|] eqn:Hrel; [|done].
  intros [= <- <- <-].
  unfold FileManager.relative_to in Hrel. case_bool_decide as Hpre; [|done].
  destruct Hpre as [Habs Htake]. injection Hrel as <-.
  set (base := FileManager.base_path fm) in *.
  assert (Forall component (drop (length (Pathlib.parts base))
                              (Pathlib.parts full))) as Hcomp.
  { unfold full, dir, FileManager.get_podcast_directory. fold base.
    set (folder := Pathlib.of_string _).
    pose proof (of_string_components filename) as Hn.
    assert (Forall component (Pathlib.parts folder)) as Hf
      by apply of_string_components.
    unfold Pathlib.join.
    destruct (Pathlib.is_absolute (Pathlib.of_string filename));
      [by apply Forall_drop|].
    destruct (Pathlib.is_absolute folder); cbn [Pathlib.parts Pathlib.is_absolute].
    - apply Forall_drop. by apply Forall_app.
    - rewrite <- app_assoc. rewrite drop_app_length. by apply Forall_app. }
  rewrite of_string_to_string by done.
  unfold Pathlib.join. cbn [Pathlib.is_absolute Pathlib.parts].
  rewrite <- Htake at 1. rewrite take_drop. rewrite <- Habs.
  by destruct full.
Qed.

Lemma planned_path_round_trip_witness :
  let fm := Fixtures.sample_fm 0 in
  let s0 := Fixtures.state_of [] [] [] in
  Pathlib.join (FileManager.base_path fm)
    (Pathlib.of_string "News/2024-01-01-ep1.mp3")
  = Pathlib.of_string "/data/podcasts/News/2024-01-01-ep1.mp3".
Proof.
  intros fm s0.
  exact (planned_path_round_trip fm (Fixtures.episode_of 1 None)
           Fixtures.podcast1 s0 s0 _ _ eq_refl).
Defined.

(* --------------------------------------------------------------------- *)
(** ** Path validation without symbolic links *)
(* --------------------------------------------------------------------- *)

Section Lexical.
Import Pathlib Validators.

Lemma collapse_plain (todo : list string) :
  Forall (fun c => c <> ".."%string) todo ->
  forall done_rev, collapse done_rev todo = rev done_rev ++ todo.
Proof.
  induction 1 as [|c todo Hc Hrest IH]; intros done_rev; cbn [collapse].
  - by rewrite app_nil_r.
  - destruct (String.eqb_spec c ".."); [done|].
    rewrite IH. cbn [rev]. by rewrite <- app_assoc.
Qed.

End Lexical.

(** On a file system without symbolic links, [validate_path] rejects no
    honest path: a relative path that is not rooted and has no [..]
    segment is accepted, and the result is the base directory followed
    by the segments of the path. *)
Theorem validate_path_accepts_plain (fm : FileManager.t) (cwd : list string)
    (relative_path : string) :
  let base := FileManager.base_path fm in
  let root := (if Pathlib.is_absolute base then [] else cwd)
              ++ Pathlib.parts base in
  FileManager.resolve fm = Pathlib.resolve_lexical cwd ->
  Forall (fun c => c <> ".."%string) root ->
  String.prefix "/" relative_path = false ->
  Forall (fun c => c <> ".."%string)
    (Pathlib.parts (Pathlib.of_string relative_path)) ->
  FileManager.validate_path fm relative_path
  = Some (Pathlib.mkPath true
            (root ++ Pathlib.parts (Pathlib.of_string relative_path))).
Proof.
  intros base root Hres Hroot Hrel Hplain.
  unfold FileManager.validate_path, Validators.validate_download_path.
  rewrite Hres. fold base. unfold Pathlib.resolve_lexical.
  set (rel := Pathlib.of_string relative_path) in *.
  assert (Pathlib.is_absolute rel = false) as Hnot by exact Hrel.
  unfold Pathlib.join. rewrite Hnot. cbn [Pathlib.is_absolute Pathlib.parts].
  assert ((if Pathlib.is_absolute base
           then Pathlib.parts base ++ Pathlib.parts rel
           else cwd ++ Pathlib.parts base ++ Pathlib.parts rel)
          = root ++ Pathlib.parts rel) as ->.
  { unfold root. destruct (Pathlib.is_absolute base); [done|].
    by rewrite <- app_assoc. }
  assert ((if Pathlib.is_absolute base then Pathlib.parts base
           else cwd ++ Pathlib.parts base) = root) as ->.
  { unfold root. by destruct (Pathlib.is_absolute base). }
  assert (Forall (fun c => c <> ".."%string) (root ++ Pathlib.parts rel))
    as Hall by (apply Forall_app; split; assumption).
  rewrite (collapse_plain _ Hall), (collapse_plain _ Hroot). cbn [rev app].
  destruct (Pathlib.parts rel) as [|c rest] eqn:Hparts.
  - rewrite app_nil_r. rewrite (bool_decide_eq_true_2 (_ = _)) by done.
    by rewrite orb_true_r.
  - rewrite bool_decide_eq_true_2; [done|].
    apply parents_strictly_inside. split; [done|].
    exists (c :: rest). by split.
Qed.

Lemma validate_path_accepts_plain_witness :
  FileManager.validate_path (Fixtures.sample_fm 0) "News/2024-01-01-ep1.mp3"
  = Some (Pathlib.of_string "/data/podcasts/News/2024-01-01-ep1.mp3").
Proof.
  apply (validate_path_accepts_plain (Fixtures.sample_fm 0) []
           "News/2024-01-01-ep1.mp3").
  - reflexivity.
  - vm_compute. repeat constructor; discriminate.
  - reflexivity.
  - vm_compute. repeat constructor; discriminate.
Defined.

(* --------------------------------------------------------------------- *)
(** ** Free space: the periodic check, the helper and admission *)
(* --------------------------------------------------------------------- *)

Section FreeSpace.
Import DownloadEngine.

Lemma Qlt_bool_div (a n : Z) :
  Qlt_bool (py_div a (1024 ^ 3)) (inject_Z n) = (a <? n * 1024 ^ 3).
Proof.
  unfold Qlt_bool, py_div. change (1024 ^ 3) with 1073741824.
  assert (Qle_bool (inject_Z n) (Qred (inject_Z a / inject_Z 1073741824))
          = (n * 1073741824 <=? a)) as ->.
  { apply eq_true_iff_eq. rewrite Qle_bool_iff, Qred_correct, Z.leb_le.
    unfold Qle, Qdiv, Qmult, Qinv, inject_Z. cbn. lia. }
  lia.
Qed.

Lemma py_int_GiB : py_int (1 * 1024 * 1024 * 1024)%Q = 1024 * 1024 * 1024.
Proof. reflexivity. Qed.

Lemma disk_levels (fm : FileManager.t) (s : State) :
  Jobs.check_disk_space_job fm s
  = (inr (if FileManager.disk_free fm <? 1024 * 1024 * 1024
          then Some Jobs.critical_space
          else if FileManager.disk_free fm <? 5 * (1024 * 1024 * 1024)
          then Some Jobs.low_space_warning
          else if FileManager.disk_free fm <? 10 * (1024 * 1024 * 1024)
          then Some Jobs.low_space_info
          else None), s).
Proof.
  unfold Jobs.check_disk_space_job, try_except,
    FileManager.get_available_space. run_step.
  change 1%Q with (inject_Z 1). change 5%Q with (inject_Z 5).
  change 10%Q with (inject_Z 10). rewrite !Qlt_bool_div.
  change (1 * 1024 ^ 3) with (1024 * 1024 * 1024).
  change (5 * 1024 ^ 3) with (5 * (1024 * 1024 * 1024)).
  change (10 * 1024 ^ 3) with (10 * (1024 * 1024 * 1024)).
  by repeat case_match.
Qed.

End FreeSpace.

(** [check_disk_space_job] never fails, changes nothing, and reports by
    the free space alone: critical below 1 GiB, a warning from 1 GiB to
    below 5 GiB, a notice from 5 GiB to below 10 GiB, nothing from 10 GiB
    on. *)
Theorem check_disk_space_levels (fm : FileManager.t) (s : State) :
  let free := FileManager.disk_free fm in
  let GiB := 1024 * 1024 * 1024 in
  Jobs.check_disk_space_job fm s
  = (inr (if free <? GiB then Some Jobs.critical_space
          else if free <? 5 * GiB then Some Jobs.low_space_warning
          else if free <? 10 * GiB then Some Jobs.low_space_info
          else None), s).
Proof. apply disk_levels. Qed.

(** When the periodic check reports critical, admission refuses every
    episode that declares a positive size and has no row yet: downloads
    with a known size do fail, as the message says. *)
Theorem critical_space_refuses (fm : FileManager.t) (s s1 : State) (e : Z)
    (ep : Episode) (p : Podcast) (size : Z) full rel :
  episodes s !! e = Some ep ->
  no_download_for s e ->
  podcasts s !! podcast_id ep = Some p ->
  FileManager.get_episode_file_path fm ep p s = (inr (full, rel), s1) ->
  episode_file_size ep = Some size ->
  0 < size ->
  fst (Jobs.check_disk_space_job fm s) = inr (Some Jobs.critical_space) ->
  exists required,
    DownloadEngine.queue_episode_download fm e s
    = (inl (InsufficientStorageException required (FileManager.disk_free fm)),
       s1).
Proof.
  intros Hep Hno Hp Hplan Hsize Hpos Hcrit.
  rewrite disk_levels in Hcrit. cbn [fst] in Hcrit.
  rewrite (queue_new _ _ _ _ _ _ _ _ Hep Hno Hp Hplan), Hsize. cbn.
  assert (negb (size =? 0) = true) as -> by (apply negb_true_iff; lia).
  unfold DownloadEngine.buffer_bytes.
  destruct (FileManager.disk_free fm <? 1024 * 1024 * 1024) eqn:Hfree.
  - assert ((FileManager.disk_free fm <? size + 1024 * 1024 * 1024) = true)
      as -> by lia.
    cbn. eauto.
  - exfalso. by repeat case_match.
Qed.

(** The helper [has_enough_space], with its default buffer of 1.0 GB,
    and the check inside admission decide alike: for an episode that
    declares a size other than 0 and has no row, admission raises the
    storage error exactly when the helper answers false on the declared
    size. *)
Theorem has_enough_space_agrees (fm : FileManager.t) (s s1 : State) (e : Z)
    (ep : Episode) (p : Podcast) (size : Z) full rel :
  episodes s !! e = Some ep ->
  no_download_for s e ->
  podcasts s !! podcast_id ep = Some p ->
  FileManager.get_episode_file_path fm ep p s = (inr (full, rel), s1) ->
  episode_file_size ep = Some size ->
  size <> 0 ->
  FileManager.has_enough_space fm size 1 s
  = (inr (FileManager.disk_free fm >=? size + 1024 * 1024 * 1024), s)
  /\ ((exists required available,
         fst (DownloadEngine.queue_episode_download fm e s)
         = inl (InsufficientStorageException required available))
      <-> fst (FileManager.has_enough_space fm size 1 s) = inr false).
Proof.
  intros Hep Hno Hp Hplan Hsize Hnz.
  assert (FileManager.has_enough_space fm size 1 s
          = (inr (FileManager.disk_free fm >=? size + 1024 * 1024 * 1024), s))
    as Hhelper by reflexivity.
  split; [exact Hhelper|]. rewrite Hhelper. cbn [fst].
  rewrite (queue_new _ _ _ _ _ _ _ _ Hep Hno Hp Hplan), Hsize. cbn.
  assert (negb (size =? 0) = true) as -> by (apply negb_true_iff; lia).
  unfold DownloadEngine.buffer_bytes. cbn.
  destruct (FileManager.disk_free fm <? size + 1024 * 1024 * 1024) eqn:Hfree.
  - split; [|eauto]. intros _. f_equal. lia.
  - apply get_episode_file_path_frame in Hplan as [n ->].
    destruct (add_download_spec e rel (set_ticks n s))
      as (d & s' & -> & _). cbn. split.
    + intros (? & ? & [=]).
    + intros [= H]. lia.
Qed.

(** [validate_episode_limit] keeps a limit between 1 and 100 as it is
    and brings any other one to the nearer bound. *)
Theorem validate_episode_limit_spec (limit : Z) :
  let r := Validators.validate_episode_limit limit in
  1 <= r <= 100
  /\ (1 <= limit <= 100 -> r = limit)
  /\ (limit < 1 -> r = 1) /\ (100 < limit -> r = 100).
Proof. cbn zeta. unfold Validators.validate_episode_limit. lia. Qed.

Lemma critical_space_refuses_witness :
  let GiB := 1024 * 1024 * 1024 in
  let s := Fixtures.state_of [Fixtures.episode_of 1 (Some 5)] [] [] in
  exists required,
    DownloadEngine.queue_episode_download (Fixtures.sample_fm (GiB - 1)) 1 s
    = (inl (InsufficientStorageException required (GiB - 1)), s).
Proof.
  intros GiB s.
  apply (critical_space_refuses (Fixtures.sample_fm (GiB - 1)) s s 1
           (Fixtures.episode_of 1 (Some 5)) Fixtures.podcast1 5
           (Pathlib.of_string "/data/podcasts/News/2024-01-01-ep1.mp3")
           "News/2024-01-01-ep1.mp3").
  - reflexivity.
  - by_compute.
  - reflexivity.
  - vm_compute. reflexivity.
  - reflexivity.
  - lia.
  - vm_compute. reflexivity.
Defined.

Lemma has_enough_space_agrees_witness :
  let GiB := 1024 * 1024 * 1024 in
  let s := Fixtures.state_of [Fixtures.episode_of 1 (Some (5 * GiB))] [] [] in
  FileManager.has_enough_space (Fixtures.sample_fm (3 * GiB)) (5 * GiB) 1 s
  = (inr false, s).
Proof.
  intros GiB s.
  exact (proj1 (has_enough_space_agrees (Fixtures.sample_fm (3 * GiB)) s s 1
           (Fixtures.episode_of 1 (Some (5 * GiB))) Fixtures.podcast1
           (5 * GiB)
           (Pathlib.of_string "/data/podcasts/News/2024-01-01-ep1.mp3")
           "News/2024-01-01-ep1.mp3" eq_refl ltac:(by_compute) eq_refl
           ltac:(vm_compute; reflexivity) eq_refl ltac:(discriminate))).
Defined.

(* --------------------------------------------------------------------- *)
(** ** Signed URLs, file extensions, cancel and admit again *)
(* --------------------------------------------------------------------- *)

(** For a signed or tracking URL the executor does not use the HEAD
    probe: whatever the probe would answer, the transfer is the same, and
    the request goes to the episode's own URL under the podcast-client
    agent. *)
Theorem signed_url_skips_probe (net : Network)
    (probe : string -> exn + string) (episode : Episode) (path : string)
    (dl : Download) (s : State) :
  DownloadService._is_signed_url (audio_url episode) = true ->
  DownloadService.download_episode (mkNetwork probe (stream_get net))
    episode path dl s
  = DownloadService.download_episode net episode path dl s
  /\ req_url (request_of net episode (DownloadService.resume_offset s path))
     = audio_url episode
  /\ List.hd_error
       (req_headers
          (request_of net episode (DownloadService.resume_offset s path)))
     = Some ("User-Agent"%string, DownloadService.podcast_agent).
Proof.
  intros Hsigned. unfold request_of, DownloadService.download_episode.
  rewrite Hsigned. split; [reflexivity|]. split; [reflexivity|].
  unfold DownloadService.request_headers. by destruct (0 <? _).
Qed.

Lemma signed_url_skips_probe_witness :
  let ep := mkEpisode 1 1 "ep1" None
              "http://cdn.example.org/a.mp3?token=abc" None None in
  let d0 := Fixtures.download_of 1 pending (Some "News/a.mp3"%string) in
  let s0 := Fixtures.state_of [ep] [d0] [] in
  DownloadService.download_episode
    (Fixtures.net_probe_redirects "http://elsewhere.example.org/x" []) ep
    "/a.mp3" d0 s0
  = DownloadService.download_episode (Fixtures.net_probe_fails []) ep
      "/a.mp3" d0 s0.
Proof.
  intros ep d0 s0.
  exact (proj1 (signed_url_skips_probe (Fixtures.net_probe_fails [])
                  (fun _ => inr "http://elsewhere.example.org/x"%string)
                  ep "/a.mp3" d0 s0 eq_refl)).
Defined.

Section Extension.
Import Validators.

(** Not an upper-case ASCII letter. *)
Local Abbreviation not_upper :=
  (fun c : ascii => negb ((65 <=? N_of_ascii c) && (N_of_ascii c <=? 90))%N
                    = true).

Lemma ascii_lower_not_upper (c : ascii) : not_upper (ascii_lower c).
Proof.
  unfold ascii_lower.
  destruct ((65 <=? N_of_ascii c) && (N_of_ascii c <=? 90))%N eqn:Hc.
  - apply andb_true_iff in Hc as [H1 H2].
    apply N.leb_le in H1, H2.
    rewrite N_ascii_embedding by lia.
    apply negb_true_iff, andb_false_iff. right. apply N.leb_gt. lia.
  - by rewrite Hc.
Qed.

Lemma str_lower_not_upper (s : string) :
  Forall not_upper (list_ascii_of_string (str_lower s)).
Proof.
  induction s as [|c s IH]; cbn; [done|].
  constructor; [apply ascii_lower_not_upper|done].
Qed.

Lemma assoc_get_value (k : string) (l : list (string * string)) (dflt : string) :
  assoc_get k l dflt = dflt \/ assoc_get k l dflt ∈ l.*2.
Proof.
  induction l as [|[k' v] l IH]; cbn; [by left|].
  destruct (String.eqb k k'); [right; by left|].
  destruct IH as [->| IH]; [by left|right; by right].
Qed.

Lemma extension_cases (url_suffix : string -> string) (url : string)
    (mime : option string) :
  let ext := extract_file_extension url_suffix url mime in
  ext <> EmptyString /\ Forall not_upper (list_ascii_of_string ext).
Proof.
  cbn zeta. unfold extract_file_extension.
  destruct (url_suffix url) as [|c rest].
  - assert (forall v : string, v = "mp3"%string \/ v ∈ content_type_map.*2 ->
              v <> EmptyString
              /\ Forall not_upper (list_ascii_of_string v)) as Hvals.
    { intros v [->|Hv]; [split; [done|by repeat constructor]|].
      cbn in Hv. repeat (apply elem_of_cons in Hv as [->|Hv];
        [split; [done|by repeat constructor]|]).
      by apply elem_of_nil in Hv. }
    destruct (truthy_str mime).
    + apply Hvals, assoc_get_value.
    + apply Hvals. by left.
  - split; [done|]. apply (str_lower_not_upper (String c rest)).
Qed.

End Extension.

(** The file extension [extract_file_extension] gives is never empty and
    has no upper-case letter, whatever the URL and the content type;
    with no suffix in the URL and no content type it is [mp3]. *)
Theorem extract_file_extension_spec (url_suffix : string -> string)
    (url : string) (mime : option string) :
  let ext := Validators.extract_file_extension url_suffix url mime in
  ext <> EmptyString
  /\ Forall (fun c => negb ((65 <=? N_of_ascii c) && (N_of_ascii c <=? 90))%N
                      = true)
       (list_ascii_of_string ext)
  /\ (url_suffix url = EmptyString -> truthy_str mime = false ->
        ext = "mp3"%string).
Proof.
  cbn zeta. destruct (extension_cases url_suffix url mime) as [H1 H2].
  split; [exact H1|]. split; [exact H2|].
  intros Hurl Hmime. unfold Validators.extract_file_extension.
  by rewrite Hurl, Hmime.
Qed.

(** A cancelled download can be admitted again: cancelling a row that is
    not completed and then admitting its episode gives back the same
    row, pending, with progress 0 and with the retry count and the
    destination path it had; no second row is made. *)
Theorem cancel_then_admit (fm : FileManager.t) (s : State) (k : Z)
    (d : Download) (ep : Episode) :
  well_keyed s -> unique_episode s ->
  downloads s !! k = Some d -> status d <> completed ->
  episodes s !! episode_id d = Some ep ->
  exists s1 s2 d',
    DownloadEngine.cancel_download k s = (inr true, s1)
    /\ DownloadEngine.queue_episode_download fm (episode_id d) s1
       = (inr d', s2)
    /\ downloads s2 !! k = Some d'
    /\ id d' = k /\ status d' = pending /\ progress d' = 0%Q
    /\ retry_count d' = retry_count d /\ file_path d' = file_path d
    /\ dom (downloads s2) = dom (downloads s).
Proof.
  intros Hwk Hu Hd Hst Hep.
  pose proof (well_keyed_lookup _ _ _ Hwk Hd) as Hid.
  pose proof (tables_cancel k s (conj Hwk Hu)) as [Hwk1 Hu1].
  set (d1 := set_updated_at (clock s (ticks s)) (set_status deleted d)).
  assert (DownloadEngine.cancel_download k s
          = (inr true, put_download d1 (tick s))) as Hcancel.
  { unfold DownloadEngine.cancel_download. run_keep. rewrite Hd. cbn.
    by rewrite bool_decide_eq_false_2. }
  rewrite Hcancel in Hwk1, Hu1. cbn [snd] in Hwk1, Hu1.
  set (s1 := put_download d1 (tick s)) in *.
  assert (downloads s1 !! k = Some d1) as Hd1.
  { unfold s1. cbn. rewrite Hid. apply lookup_insert_eq. }
  pose proof (select_existing _ _ _ Hwk1 Hu1 Hd1) as Hsel.
  change (episode_id d1) with (episode_id d) in Hsel.
  set (d' := set_updated_at (clock s1 (ticks s1))
               (set_progress 0 (set_status pending d1))).
  exists s1, (put_download d' (tick s1)), d'.
  split; [exact Hcancel|]. split.
  { unfold DownloadEngine.queue_episode_download. run_keep.
    change (episodes s1) with (episodes s). rewrite Hep. cbn.
    rewrite Hsel. reflexivity. }
  split; [cbn; rewrite Hid; apply lookup_insert_eq|].
  repeat split; try done.
  cbn. rewrite !Hid. rewrite !dom_insert_L.
  apply elem_of_dom_2 in Hd. set_solver.
Qed.

Lemma cancel_then_admit_witness :
  let d0 := Fixtures.download_of 1 downloading (Some "News/a.mp3"%string) in
  let s0 := Fixtures.state_of [Fixtures.episode_of 1 None] [d0] [] in
  exists s1 s2 d',
    DownloadEngine.cancel_download 1 s0 = (inr true, s1)
    /\ DownloadEngine.queue_episode_download (Fixtures.sample_fm 0) 1 s1
       = (inr d', s2)
    /\ status d' = pending /\ file_path d' = Some "News/a.mp3"%string.
Proof.
  intros d0 s0.
  destruct (cancel_then_admit (Fixtures.sample_fm 0) s0 1 d0
              (Fixtures.episode_of 1 None) ltac:(by_compute) ltac:(by_compute)
              eq_refl ltac:(discriminate) eq_refl)
    as (s1 & s2 & d' & Hc & Hq & _ & _ & Hst & _ & _ & Hp & _).
  exists s1, s2, d'. split; [exact Hc|]. split; [exact Hq|].
  split; [exact Hst|exact Hp].
Defined.

(* --------------------------------------------------------------------- *)
(** ** Broken streams, ignored ranges, undeclared lengths *)
(* --------------------------------------------------------------------- *)

Section Interrupted.
Import DownloadService.
Variables (net : Network) (episode : Episode) (path : string) (dl d : Download).
Variables (s : State) (response : Response) (e : exn).
Hypothesis Hwk : well_keyed s.
Hypothesis Hd : downloads s !! id dl = Some d.
Hypothesis Hget :
  stream_get net (request_of net episode (resume_offset s path)) = inr response.
Hypothesis Hstatus : status_code response = 200 \/ status_code response = 206.
Hypothesis Hbreak : stream_error response = Some e.

Local Abbreviation received :=
  (<[path := base_content s path ++ concat (chunks response)]> (files s)).

Lemma interrupted_transfer :
  wp (transfer net
        (req_url (request_of net episode (resume_offset s path)))
        (_is_signed_url (audio_url episode)) (resume_offset s path) path dl)
     (fun _ _ => False)
     (fun e' s1 => e' = e /\ run_state s (id dl) (retry_count d) received s1) s.
Proof.
  apply (transfer_wp net episode path dl (resume_offset s path)
           (run_state s (id dl) (retry_count d) (files s))
           (fun w => run_state s (id dl) (retry_count d)
                       (<[path := base_content s path ++ w]> (files s)))).
  - intros s1 H1. exact H1.
  - intros s1 e' _ He. congruence.
  - intros s1 response' _ Hget' H416.
    assert (response' = response) as -> by congruence. lia.
  - intros s1 response' _ Hget' _ Hbad.
    assert (response' = response) as -> by congruence. done.
  - intros s1 t response' H1 _ _.
    eapply wp_mono; [| |apply (finished_start path dl s d s1 t H1)]; done.
  - intros s1 w chunk H1. by apply finished_write.
  - intros s1 w response' H1 _.
    eapply wp_mono; [| |apply (finished_progress path dl s d s1 w _ H1)]; done.
  - intros s1 response' e' H1 Hget' Herr.
    assert (response' = response) as -> by congruence.
    split; [congruence|done].
  - intros s1 response' _ Hget' _ Hclean.
    assert (response' = response) as -> by congruence. congruence.
  - split; [done|]. split; [done|]. split; [|done]. by exists d.
Qed.

End Interrupted.

(** The run on a stream that breaks. *)
Lemma interrupted_run (net : Network) (episode : Episode)
    (path : string) (dl d : Download) (s : State) (response : Response)
    (e : exn) :
  well_keyed s ->
  downloads s !! id dl = Some d ->
  stream_get net (request_of net episode (DownloadService.resume_offset s path))
    = inr response ->
  status_code response = 200 \/ status_code response = 206 ->
  stream_error response = Some e ->
  exists s' d',
    DownloadService.download_episode net episode path dl s = (inr false, s')
    /\ well_keyed s'
    /\ files s' !! path
       = Some (base_content s path ++ concat (chunks response))
    /\ downloads s' !! id dl = Some d'
    /\ status d' = failed
    /\ error_message d'
       = Some ((if is_http_error e then "Network error: "
                else "Unexpected error: ") +:+ exn_str e)%string
    /\ retry_count d' = retry_count d + 1.
Proof.
  intros Hwk Hd Hget Hstatus Hbreak.
  assert (wp (DownloadService.download_episode net episode path dl)
    (fun res s' =>
       res = false
       /\ well_keyed s'
       /\ files s' !! path
          = Some (base_content s path ++ concat (chunks response))
       /\ exists d',
            downloads s' !! id dl = Some d'
            /\ status d' = failed
            /\ error_message d'
               = Some ((if is_http_error e then "Network error: "
                        else "Unexpected error: ") +:+ exn_str e)%string
            /\ retry_count d' = retry_count d + 1)
    (fun _ _ => False) s) as Hwp.
  { unfold wp. rewrite run_unfold. fold (wp
      (try_except
         (DownloadService.transfer net
            (req_url (request_of net episode
                        (DownloadService.resume_offset s path)))
            (DownloadService._is_signed_url (audio_url episode))
            (DownloadService.resume_offset s path) path dl)
         (fun e0 =>
            if is_http_error e0
            then DownloadService._mark_failed dl ("Network error: " +:+ exn_str e0)
            else DownloadService._mark_failed dl
                   ("Unexpected error: " +:+ exn_str e0)))
      (fun res s' =>
       res = false
       /\ well_keyed s'
       /\ files s' !! path
          = Some (base_content s path ++ concat (chunks response))
       /\ exists d',
            downloads s' !! id dl = Some d'
            /\ status d' = failed
            /\ error_message d'
               = Some ((if is_http_error e then "Network error: "
                        else "Unexpected error: ") +:+ exn_str e)%string
            /\ retry_count d' = retry_count d + 1)
      (fun _ _ => False) s).
    apply wp_try.
    eapply wp_mono;
      [| |apply (interrupted_transfer net episode path dl d s response e
                   Hwk Hd Hget Hstatus Hbreak)]; [done|].
    intros e' s1 [-> H1]. cbn beta.
    destruct (run_state_row _ _ _ _ _ H1) as (d1 & Hd1 & Hr1 & Hid1).
    destruct H1 as (Hwk1 & Hfs & _).
    destruct (is_http_error e); apply wp_mark_failed; rewrite Hd1;
      (split; [done|]);
      (split; [by apply (well_keyed_commit (tick s1))|]);
      (split; [cbn; by rewrite Hfs, lookup_insert_eq|]);
      eexists; (split; [cbn; rewrite Hid1; apply lookup_insert_eq|]);
      cbn; repeat split; lia. }
  apply wp_returns in Hwp
    as (res & s' & Hrun & -> & Hwk' & Hfile & d' & Hd' & Hst & Hmsg & Hr).
  exists s', d'. split; [exact Hrun|]. by repeat split.
Qed.

(** A stream that breaks after the response has started leaves the
    transfer failed and what was received on disk: the run returns
    False, the row is failed with the error recorded and [retry_count]
    one higher, and the destination holds what it held (when resuming)
    followed by every chunk received, which the next attempt resumes
    from. *)
Theorem interrupted_keeps_partial (net : Network) (episode : Episode)
    (path : string) (dl d : Download) (s : State) (response : Response)
    (e : exn) :
  well_keyed s ->
  downloads s !! id dl = Some d ->
  stream_get net (request_of net episode (DownloadService.resume_offset s path))
    = inr response ->
  status_code response = 200 \/ status_code response = 206 ->
  stream_error response = Some e ->
  exists s' d',
    DownloadService.download_episode net episode path dl s = (inr false, s')
    /\ files s' !! path
       = Some (base_content s path ++ concat (chunks response))
    /\ DownloadService.resume_offset s' path
       = Z.of_nat (length (base_content s path ++ concat (chunks response)))
    /\ downloads s' !! id dl = Some d'
    /\ status d' = failed
    /\ error_message d'
       = Some ((if is_http_error e then "Network error: "
                else "Unexpected error: ") +:+ exn_str e)%string
    /\ retry_count d' = retry_count d + 1.
Proof.
  intros Hwk Hd Hget Hstatus Hbreak.
  destruct (interrupted_run net episode path dl d s response e
              Hwk Hd Hget Hstatus Hbreak)
    as (s' & d' & Hrun & _ & Hfile & Hd' & Hrest).
  exists s', d'. split; [exact Hrun|]. split; [exact Hfile|].
  split; [|done]. unfold DownloadService.resume_offset at 1. by rewrite Hfile.
Qed.


(** A response without a content length is taken on trust: the expected
    total is 0, so no size is checked, and once the stream has ended the
    row is completed with whatever arrived, [file_size] the size on
    disk. *)
Theorem undeclared_length_completes (net : Network) (episode : Episode)
    (path : string) (dl d : Download) (s : State) (response : Response) :
  well_keyed s ->
  downloads s !! id dl = Some d ->
  files s !! path = None ->
  stream_get net (request_of net episode 0) = inr response ->
  status_code response = 200 ->
  content_length response = None ->
  stream_error response = None ->
  exists s' d',
    DownloadService.download_episode net episode path dl s = (inr true, s')
    /\ files s' !! path = Some (concat (chunks response))
    /\ downloads s' !! id dl = Some d'
    /\ status d' = completed /\ progress d' = 1%Q
    /\ file_size d' = Some (Z.of_nat (length (concat (chunks response)))).
Proof.
  intros Hwk Hd Hnone Hget H200 Hlen Hclean.
  assert (DownloadService.resume_offset s path = 0) as Hrp
    by (unfold DownloadService.resume_offset; by rewrite Hnone).
  rewrite <- Hrp in Hget.
  destruct (download_episode_finished net episode path dl s d response
              Hwk Hd Hget (or_introl H200) Hclean)
    as (res & s' & d' & Hrun & _ & Hfile & _ & Hd' & Hres & Hrow).
  assert (base_content s path = []) as Hbase
    by (unfold base_content; by rewrite Hrp).
  rewrite Hbase in Hfile, Hres, Hrow. cbn [app] in Hfile, Hres, Hrow.
  assert (DownloadService.expected_total_size response
            (DownloadService.resume_offset s path) = 0) as HT.
  { unfold DownloadService.expected_total_size. by rewrite H200, Hlen. }
  rewrite HT in Hres, Hrow. cbn in Hres, Hrow.
  destruct Hrow as (Hst & Hp & Hsize & _).
  exists s', d'. rewrite Hres in Hrun. by repeat split.
Qed.

Lemma interrupted_keeps_partial_witness :
  let ep := Fixtures.episode_of 1 None in
  let d0 := Fixtures.download_of 1 pending (Some "News/a.mp3"%string) in
  let s0 := Fixtures.state_of [ep] [d0] [] in
  exists s' d',
    DownloadService.download_episode
      (Fixtures.net_breaks 10 [Fixtures.zeros 4] (HTTPError "reset")) ep
      "/a.mp3" d0 s0 = (inr false, s')
    /\ files s' !! "/a.mp3"%string = Some (Fixtures.zeros 4)
    /\ downloads s' !! 1 = Some d'
    /\ error_message d' = Some "Network error: reset"%string.
Proof.
  intros ep d0 s0.
  destruct (interrupted_keeps_partial
              (Fixtures.net_breaks 10 [Fixtures.zeros 4] (HTTPError "reset"))
              ep "/a.mp3" d0 d0 s0
              (mkResponse 200 "OK" (Some 10) None [Fixtures.zeros 4]
                 (Some (HTTPError "reset")))
              (HTTPError "reset") ltac:(by_compute) eq_refl eq_refl
              (or_introl eq_refl) eq_refl)
    as (s' & d' & Hrun & Hfile & _ & Hd' & _ & Hmsg & _).
  exists s', d'. split; [exact Hrun|]. split; [exact Hfile|].
  split; [exact Hd'|exact Hmsg].
Defined.


Lemma undeclared_length_completes_witness :
  let ep := Fixtures.episode_of 1 None in
  let d0 := Fixtures.download_of 1 pending (Some "News/a.mp3"%string) in
  let s0 := Fixtures.state_of [ep] [d0] [] in
  exists s' d',
    DownloadService.download_episode (Fixtures.net_unsized []) ep "/a.mp3" d0 s0
      = (inr true, s')
    /\ files s' !! "/a.mp3"%string = Some []
    /\ downloads s' !! 1 = Some d' /\ status d' = completed
    /\ file_size d' = Some 0.
Proof.
  intros ep d0 s0.
  destruct (undeclared_length_completes (Fixtures.net_unsized []) ep
              "/a.mp3" d0 d0 s0 (mkResponse 200 "OK" None None [] None)
              ltac:(by_compute) eq_refl eq_refl eq_refl eq_refl eq_refl eq_refl)
    as (s' & d' & Hrun & Hfile & Hd' & Hst & _ & Hsize).
  exists s', d'. split; [exact Hrun|]. split; [exact Hfile|].
  split; [exact Hd'|]. split; [exact Hst|exact Hsize].
Defined.

(* --------------------------------------------------------------------- *)
(** ** A broken transfer, then a retry *)
(* --------------------------------------------------------------------- *)

(** Resume end to end.  A first attempt to a fresh destination receives
    the first [n] bytes of the source and then breaks; a second attempt,
    against a server that honours the range request, completes, and the
    destination then holds exactly the source.  The row has counted the
    one failure. *)
Theorem interrupted_then_resumed (net1 net2 : Network) (episode : Episode)
    (path : string) (dl d : Download) (s : State) (src : bytes)
    (response : Response) (e : exn) (n : nat) :
  well_keyed s ->
  downloads s !! id dl = Some d ->
  files s !! path = None ->
  stream_get net1 (request_of net1 episode 0) = inr response ->
  status_code response = 200 ->
  stream_error response = Some e ->
  concat (chunks response) = take n src ->
  (0 < n < length src)%nat ->
  serves_range net2 src (Z.of_nat n) ->
  exists s1 s2 d2,
    DownloadService.download_episode net1 episode path dl s = (inr false, s1)
    /\ DownloadService.download_episode net2 episode path dl s1 = (inr true, s2)
    /\ files s2 !! path = Some src
    /\ downloads s2 !! id dl = Some d2
    /\ status d2 = completed
    /\ file_size d2 = Some (Z.of_nat (length src))
    /\ retry_count d2 = retry_count d + 1.
Proof.
  intros Hwk Hd Hnone Hget H200 Hbreak Hbody Hn Hserve.
  assert (DownloadService.resume_offset s path = 0) as Hrp
    by (unfold DownloadService.resume_offset; by rewrite Hnone).
  rewrite <- Hrp in Hget.
  destruct (interrupted_run net1 episode path dl d s response e
              Hwk Hd Hget (or_introl H200) Hbreak)
    as (s1 & d1 & Hrun1 & Hwk1 & Hfile1 & Hd1 & _ & _ & Hr1).
  assert (base_content s path = []) as Hbase
    by (unfold base_content; by rewrite Hrp).
  rewrite Hbase, Hbody in Hfile1. cbn [app] in Hfile1.
  assert (length (take n src) = n) as Hlen by (rewrite length_take; lia).
  destruct (resume_completes net2 episode path dl d1 s1 (take n src)
              Hwk1 Hd1 Hfile1 ltac:(lia) src ltac:(lia)
              ltac:(by rewrite Hlen))
    as (s2 & d2 & Hrun2 & Hfile2 & Hd2 & Hst2 & Hsize2).
  rewrite Hlen, Nat2Z.id, take_drop in Hfile2.
  assert (has_retry (id dl) (retry_count d1) s1) as Hhas
    by (split; [done|]; by exists d1).
  destruct (download_episode_retry net2 episode path dl _ s1 Hhas)
    as (res & s2' & Hrun2' & _ & d2' & Hd2' & Hr2 & _).
  rewrite Hrun2 in Hrun2'. injection Hrun2' as <- <-.
  assert (d2' = d2) as -> by congruence.
  exists s1, s2, d2. split; [exact Hrun1|]. split; [exact Hrun2|].
  split; [exact Hfile2|]. split; [exact Hd2|]. split; [exact Hst2|].
  split; [exact Hsize2|]. lia.
Qed.

Lemma interrupted_then_resumed_witness :
  let src := [Byte.x01; Byte.x02; Byte.x03; Byte.x04; Byte.x05] in
  let ep := Fixtures.episode_of 1 None in
  let d0 := Fixtures.download_of 1 pending (Some "News/a.mp3"%string) in
  let s0 := Fixtures.state_of [ep] [d0] [] in
  exists s1 s2 d2,
    DownloadService.download_episode (Fixtures.flaky_server src 3) ep
      "/a.mp3" d0 s0 = (inr false, s1)
    /\ DownloadService.download_episode (Fixtures.range_server src 3) ep
         "/a.mp3" d0 s1 = (inr true, s2)
    /\ files s2 !! "/a.mp3"%string = Some src
    /\ downloads s2 !! 1 = Some d2 /\ retry_count d2 = 1.
Proof.
  intros src ep d0 s0.
  destruct (interrupted_then_resumed (Fixtures.flaky_server src 3)
              (Fixtures.range_server src 3) ep "/a.mp3" d0 d0 s0 src
              (mkResponse 200 "OK" (Some 5) None [take 3 src]
                 (Some (HTTPError "connection reset")))
              (HTTPError "connection reset") 3
              ltac:(by_compute) eq_refl eq_refl eq_refl eq_refl eq_refl
              eq_refl ltac:(cbn; lia))
    as (s1 & s2 & d2 & Hrun1 & Hrun2 & Hfile & Hd2 & _ & _ & Hr).
  - intros req Hreq. eexists. split.
    + cbn. rewrite bool_decide_eq_true_2 by exact Hreq. reflexivity.
    + repeat split.
  - exists s1, s2, d2. split; [exact Hrun1|]. split; [exact Hrun2|].
    split; [exact Hfile|]. split; [exact Hd2|exact Hr].
Defined.

(* --------------------------------------------------------------------- *)
(** ** Auto-download admits failed and cancelled downloads again *)
(* --------------------------------------------------------------------- *)

Section AutoDownload.
Import DownloadEngine Jobs.
Variable fm : FileManager.t.

(** What one admission does to a given row. *)
Lemma queue_row (e : Z) (s : State) (k : Z) (d1 : Download) :
  tables_ok s -> downloads s !! k = Some d1 ->
  let s1 := snd (queue_episode_download fm e s) in
  episodes s1 = episodes s
  /\ (episode_id d1 <> e \/ status d1 = pending \/ status d1 = downloading
      \/ status d1 = completed -> downloads s1 !! k = Some d1)
  /\ (episode_id d1 = e -> status d1 = failed \/ status d1 = deleted ->
      is_Some (episodes s !! e) ->
      exists d',
        queue_episode_download fm e s = (inr d', s1)
        /\ downloads s1 !! k = Some d' /\ revived d1 d').
Proof.
  intros [Hwk Hu] Hd1. cbn zeta.
  pose proof (well_keyed_lookup _ _ _ Hwk Hd1) as Hid.
  unfold queue_episode_download, episode_podcast. run_keep.
  destruct (episodes s !! e) as [ep|] eqn:Hep; cbn.
  2: { split; [done|]. split; [done|]. intros _ _ [? [=]]. }
  pose proof (select_by_episode_row s e) as Hrow.
  assert (episode_id d1 = e ->
          select_downloads_by_episode s e = [d1]) as Hsel.
  { intros <-. by apply (select_existing s k d1). }
  destruct (select_downloads_by_episode s e) as [|x [|y l]] eqn:Hlist; cbn.
  - assert (episode_id d1 <> e) as Hne by (intros He; by specialize (Hsel He)).
    assert (forall s2,
      episodes s2 = episodes s -> downloads s2 = downloads s ->
      episodes (snd (add_download e "" s2)) = episodes s
      /\ forall rel, episodes (snd (add_download e rel s2)) = episodes s
           /\ downloads (snd (add_download e rel s2)) !! k = Some d1) as Hadd.
    { intros s2 He2 Hd2. split; [done|]. intros rel. split; [done|].
      unfold add_download. run_keep. cbn. rewrite Hd2.
      rewrite lookup_insert_ne; [done|]. intros Hk.
      pose proof (next_pk_fresh (downloads s)) as Hfresh. congruence. }
    destruct (podcasts s !! podcast_id ep) as [p|]; cbn.
    2: { split; [done|]. split; [done|]. done. }
    destruct (FileManager.get_episode_file_path fm ep p s) as [r s2] eqn:Hplan.
    apply get_episode_file_path_frame in Hplan as [n ->].
    destruct r as [err|[full rel]]; cbn.
    { split; [done|]. split; [done|]. done. }
    unfold FileManager.get_available_space. run_keep.
    destruct (Hadd (set_ticks n s) eq_refl eq_refl) as [_ Hrel].
    destruct (Hrel rel) as [He' Hd'].
    destruct (truthy_int _); cbn.
    + destruct (_ <? _); cbn; (split; [done|]); (split; [done|]); done.
    + split; [done|]. split; [done|]. done.
  - specialize (Hrow x Hwk ltac:(by left)).
    assert (episode_id x = e) as Hxe.
    { assert (x ∈ select_downloads_by_episode s e) as Hx
        by (rewrite Hlist; by left).
      unfold select_downloads_by_episode in Hx.
      by apply list_elem_of_filter in Hx as [? _]. }
    destruct (decide (episode_id d1 = e)) as [He|Hne].
    + specialize (Hsel He). injection Hsel as ->.
      destruct (status d1) eqn:Hst; cbn.
      all: split; [done|].
      all: split; [try done; intros [?|[?|[?|?]]]; try done|].
      all: try (intros _ [?|?]; discriminate).
      all: intros _ _ _; eexists; split; [reflexivity|];
        split; [cbn; rewrite Hid; apply lookup_insert_eq|];
        by repeat split.
    + assert (id x <> k) as Hk.
      { intros Heq. rewrite Heq in Hrow.
        assert (x = d1) as -> by congruence. done. }
      destruct (status x); cbn; (split; [done|]);
        (split; [|done]); intros _; cbn;
        try done; by rewrite lookup_insert_ne.
  - split; [done|]. split; [done|]. intros He. by specialize (Hsel He).
Qed.

(** Building the list to queue reads only, and leaves out no episode
    that has no live download. *)
Lemma episodes_to_queue_spec (recent : list Episode) (s : State) :
  snd (episodes_to_queue recent s) = s
  /\ forall l, fst (episodes_to_queue recent s) = inr l ->
       forall ep, ep ∈ recent ->
         select_live_downloads s (episode_pk ep) = [] -> ep ∈ l.
Proof.
  induction recent as [|episode rest [IHs IHl]]; cbn [episodes_to_queue].
  - split; [done|]. intros l _ ep Hep. by apply elem_of_nil in Hep.
  - run_keep.
    destruct (select_live_downloads s (episode_pk episode))
      as [|x [|y more]] eqn:Hlive; cbn.
    + destruct (episodes_to_queue rest s) as [[e|l0] s0]; cbn in *.
      * split; [done|]. intros l [=].
      * split; [done|]. intros l [= <-] ep Hep Hnone.
        apply elem_of_cons in Hep as [->|Hep]; [by left|].
        right. by apply (IHl l0).
    + destruct (episodes_to_queue rest s) as [[e|l0] s0]; cbn in *.
      * split; [done|]. intros l [=].
      * split; [done|]. intros l [= <-] ep Hep Hnone.
        apply elem_of_cons in Hep as [->|Hep]; [congruence|].
        by apply (IHl l0).
    + split; [done|]. intros l [=].
Qed.

(** What one step of the queueing loop leaves: the state after the
    admission, whether it returned or raised one of the two exceptions
    the loop catches. *)
Lemma queue_each_step (ep : Episode) (rest : list Episode) (s s' : State) :
  queue_each fm (ep :: rest) s = (inr tt, s') ->
  queue_each fm rest (snd (queue_episode_download fm (episode_pk ep) s))
  = (inr tt, s').
Proof.
  cbn [queue_each]. unfold mbind, M_bind, try_except. intros Hrun.
  destruct (queue_episode_download fm (episode_pk ep) s) as [r s1].
  destruct r as [err|d0]; [|exact Hrun].
  destruct err; cbn in Hrun; first [exact Hrun | discriminate].
Qed.

(** A pending row is left as it is by the loop. *)
Lemma queue_each_pending (k : Z) (d1 : Download) (to_queue : list Episode) :
  status d1 = pending ->
  forall s s',
    tables_ok s -> downloads s !! k = Some d1 ->
    queue_each fm to_queue s = (inr tt, s') ->
    downloads s' !! k = Some d1.
Proof.
  intros Hst. induction to_queue as [|ep rest IH]; intros s s' Hok Hd1 Hrun.
  - cbn in Hrun. by injection Hrun as <-.
  - apply queue_each_step in Hrun.
    destruct (queue_row (episode_pk ep) s k d1 Hok Hd1) as (_ & Hsame & _).
    apply (IH (snd (queue_episode_download fm (episode_pk ep) s)) s');
      [by apply tables_queue| |exact Hrun].
    apply Hsame. right. by left.
Qed.

Lemma queue_each_spec (d : Download) (k : Z) (episode : Episode)
    (to_queue : list Episode) :
  episode_id d = episode_pk episode ->
  status d = failed \/ status d = deleted ->
  episode ∈ to_queue ->
  forall s s',
    tables_ok s -> downloads s !! k = Some d ->
    is_Some (episodes s !! episode_pk episode) ->
    queue_each fm to_queue s = (inr tt, s') ->
    exists d', downloads s' !! k = Some d' /\ revived d d'.
Proof.
  intros He Hst.
  induction to_queue as [|ep rest IH]; intros Hin s s' Hok Hd Hep Hrun.
  - by apply elem_of_nil in Hin.
  - apply queue_each_step in Hrun.
    destruct (queue_row (episode_pk ep) s k d Hok Hd)
      as (Heps & Hsame & Hrevive).
    pose proof (tables_queue fm (episode_pk ep) s Hok) as Hok1.
    destruct (decide (episode_pk ep = episode_pk episode)) as [Hthis|Hother].
    + destruct Hrevive as (d' & _ & Hd' & Hrev);
        [congruence|done|by rewrite Hthis|].
      exists d'. split; [|done].
      apply (queue_each_pending k d' rest
               ltac:(by destruct Hrev as (_ & _ & ? & _))
               (snd (queue_episode_download fm (episode_pk ep) s)) s');
        [done|done|exact Hrun].
    + apply (IH ltac:(apply elem_of_cons in Hin as [->|Hin]; [done|exact Hin])
               (snd (queue_episode_download fm (episode_pk ep) s)) s');
        [done| |by rewrite Heps|exact Hrun].
      apply Hsame. left. congruence.
Qed.

End AutoDownload.

(** The auto-download pass of the feed refresh admits failed and
    cancelled downloads again.  For a podcast with [auto_download] on,
    when one of its recent episodes has a row that is failed (whatever
    its [retry_count]) or deleted, and the pass runs through, the row is
    pending again afterwards, with progress 0 and the same id, path and
    retry count. *)
Theorem auto_download_revives (fm : FileManager.t) (podcast : Podcast)
    (recent : list Episode) (episode : Episode) (s s' : State) (k : Z)
    (d : Download) :
  well_keyed s -> unique_episode s ->
  auto_download podcast = true ->
  episode ∈ recent ->
  is_Some (episodes s !! episode_pk episode) ->
  downloads s !! k = Some d ->
  episode_id d = episode_pk episode ->
  status d = failed \/ status d = deleted ->
  Jobs.queue_recent_episodes fm podcast recent s = (inr tt, s') ->
  exists d',
    downloads s' !! k = Some d'
    /\ status d' = pending /\ progress d' = 0%Q
    /\ retry_count d' = retry_count d /\ file_path d' = file_path d.
Proof.
  intros Hwk Hu Hauto Hin Hep Hd He Hst Hrun.
  unfold Jobs.queue_recent_episodes in Hrun. rewrite Hauto in Hrun.
  unfold mbind, M_bind in Hrun.
  destruct (episodes_to_queue_spec recent s) as [Hs Hl].
  destruct (Jobs.episodes_to_queue recent s) as [[err|l] s0]; [done|].
  cbn [snd fst] in Hs, Hl. subst s0.
  assert (episode ∈ l) as Hinl.
  { apply (Hl l eq_refl episode Hin).
    apply filter_none. intros x Hx [Hxe Hlive].
    apply list_elem_of_fmap in Hx as ([k' x'] & -> & Hx).
    apply elem_of_map_to_list in Hx. cbn in Hxe, Hlive.
    assert (k' = k) as -> by (eapply unique_episode_key; [done..|congruence]).
    assert (x' = d) as -> by congruence.
    destruct Hst as [Hst|Hst]; rewrite Hst in Hlive; set_solver. }
  destruct (queue_each_spec fm d k episode l He Hst Hinl s s')
    as (d' & Hd' & (Hid & Hr & Hp & Hprog)); [done..|].
  exists d'. destruct Hid as (_ & _ & Hpath & _). by repeat split.
Qed.

Lemma auto_download_revives_witness :
  let ep := Fixtures.episode_of 1 None in
  let d0 := set_retry_count 9 (Fixtures.download_of 1 failed
                                 (Some "News/a.mp3"%string)) in
  let s0 := Fixtures.state_of [ep; Fixtures.episode_of 2 None] [d0] [] in
  exists s' d',
    Jobs.queue_recent_episodes (Fixtures.sample_fm 0) Fixtures.podcast1
      [Fixtures.episode_of 2 None; ep] s0 = (inr tt, s')
    /\ downloads s' !! 1 = Some d'
    /\ status d' = pending /\ retry_count d' = 9.
Proof.
  intros ep d0 s0.
  assert (exists s', Jobs.queue_recent_episodes (Fixtures.sample_fm 0)
            Fixtures.podcast1 [Fixtures.episode_of 2 None; ep] s0
          = (inr tt, s')) as [s' Hrun].
  { eexists. vm_compute. reflexivity. }
  destruct (auto_download_revives (Fixtures.sample_fm 0) Fixtures.podcast1
              [Fixtures.episode_of 2 None; ep] ep s0 s' 1 d0
              ltac:(by_compute) ltac:(by_compute) eq_refl)
    as (d' & Hd' & Hst & _ & Hr & _).
  - right. left.
  - by eexists.
  - reflexivity.
  - reflexivity.
  - by left.
  - exact Hrun.
  - exists s', d'. split; [exact Hrun|]. split; [exact Hd'|].
    split; [exact Hst|exact Hr].
Defined.
